(** * LngLat.js: spherical geodesy on latitude/longitude points

    A shallow embedding of [src/LngLat.js].  JavaScript numbers are IEEE-754
    binary64 values ([spec_float] at precision 53, maximal exponent 1024),
    strings are sequences of Latin-1 code units, and the functions of the
    host's [Math] object that ECMAScript leaves implementation-approximated
    are a record the program is parameterised by. *)

From Stdlib Require Import ZArith Bool List String Ascii Lia.
From Stdlib Require Import Floats.SpecFloat.
Import ListNotations.

Local Open Scope Z_scope.

(** ** Numbers *)

Module Num.

Definition prec : Z := 53.
Definition emax : Z := 1024.

Definition number : Type := spec_float.

Definition NaN : number := S754_nan.
Definition pInf : number := S754_infinity false.
Definition nInf : number := S754_infinity true.
Definition pzero : number := S754_zero false.
Definition nzero : number := S754_zero true.

(** The arithmetic operators [+ - * /] and unary minus. *)
Definition add : number -> number -> number := SFadd prec emax.
Definition sub : number -> number -> number := SFsub prec emax.
Definition mul : number -> number -> number := SFmul prec emax.
Definition div : number -> number -> number := SFdiv prec emax.
Definition neg : number -> number := SFopp.

(** The relational operators on two numbers; every comparison with NaN is
    false. *)
Definition lt : number -> number -> bool := SFltb.
Definition gt (x y : number) : bool := SFltb y x.
Definition eq : number -> number -> bool := SFeqb.
Definition le : number -> number -> bool := SFleb.
Definition ge (x y : number) : bool := SFleb y x.

Definition isNaN (x : number) : bool :=
  match x with S754_nan => true | _ => false end.

Definition is_finite (x : number) : bool :=
  match x with S754_zero _ | S754_finite _ _ _ => true | _ => false end.

Definition valid (x : number) : bool := valid_binary prec emax x.

(** ToBoolean on a number: [+0], [-0] and NaN are falsy. *)
Definition truthy (x : number) : bool :=
  match x with S754_zero _ | S754_nan => false | _ => true end.

(** The number nearest to the integer [z]. *)
Definition of_Z (z : Z) : number := binary_normalize prec emax z 0 false.

Definition pow10 (k : Z) : Z := 10 ^ k.

(** Number of decimal digits of a positive integer (0 for 0). *)
Definition dec_digits (m : Z) : Z :=
  if m <=? 0 then 0
  else let est := Z.log2 m * 1233 / 4096 in
       est + 1 + (if pow10 (est + 1) <=? m then 1 else 0).

(** The number nearest to [m * 10^k] for a natural [m]: the value of a decimal
    literal.  Far outside the binary64 range the result is known without
    computing the power. *)
Definition of_dec (m k : Z) : number :=
  match m with
  | Zpos p =>
      if 310 <? k + dec_digits m then pInf
      else if k + dec_digits m <? -330 then pzero
      else if 0 <=? k then of_Z (m * pow10 k)
      else div (S754_finite false p 0)
               (S754_finite false (Z.to_pos (pow10 (- k))) 0)
  | _ => pzero
  end.

Definition one : number := of_Z 1.
Definition two : number := of_Z 2.

(** The remainder operator [%]: the result has the sign of the dividend and is
    computed exactly. *)
Definition fmod (n d : number) : number :=
  match n, d with
  | S754_nan, _ | _, S754_nan => NaN
  | S754_infinity _, _ => NaN
  | _, S754_zero _ => NaN
  | _, S754_infinity _ => n
  | S754_zero _, _ => n
  | S754_finite sn mn en, S754_finite _ md ed =>
      let e := Z.min en ed in
      let r := Z.rem (Z.shiftl (Zpos mn) (en - e)) (Z.shiftl (Zpos md) (ed - e)) in
      if r =? 0 then S754_zero sn
      else binary_normalize prec emax (cond_Zopp sn r) e false
  end.

(** [Math.abs], [Math.sqrt], [Math.ceil] and [Math.round] are exact
    operations of the host; they are defined once and for all. *)
Definition abs : number -> number := SFabs.
Definition sqrt : number -> number := SFsqrt prec emax.

Definition signedZ (s : bool) (m : positive) : Z := cond_Zopp s (Zpos m).

Definition ceil (x : number) : number :=
  match x with
  | S754_finite s m e =>
      if 0 <=? e then x
      else let c := - Z.shiftr (- signedZ s m) (- e) in
           if c =? 0 then S754_zero s else of_Z c
  | _ => x
  end.

(** [Math.round]: the integer nearest to [x], ties towards +Infinity. *)
Definition round (x : number) : number :=
  match x with
  | S754_finite s m e =>
      if 0 <=? e then x
      else let r := Z.shiftr (2 * signedZ s m + Z.shiftl 1 (- e)) (- e + 1) in
           if r =? 0 then S754_zero s else of_Z r
  | _ => x
  end.

(** The exact integer part of a number, towards zero (used for string
    indices); NaN and the infinities have none. *)
Definition truncZ (x : number) : option Z :=
  match x with
  | S754_zero _ => Some 0
  | S754_finite s m e =>
      Some (cond_Zopp s (if 0 <=? e then Z.shiftl (Zpos m) e
                         else Z.shiftr (Zpos m) (- e)))
  | _ => None
  end.

(** [Math.PI] and [Math.LOG10E]. *)
Definition PI : number := of_dec 3141592653589793 (-15).
Definition LOG10E : number := of_dec 4342944819032518 (-16).

End Num.

Import Num.

(** ** Strings and the conversions between strings and numbers *)

Module Str.

Local Open Scope string_scope.
Local Open Scope Z_scope.

(** The characters matched by [\s] among the Latin-1 code units. *)
Definition is_space (c : ascii) : bool :=
  let n := Z.of_nat (nat_of_ascii c) in
  (n =? 9) || (n =? 10) || (n =? 11) || (n =? 12) || (n =? 13) ||
  (n =? 32) || (n =? 160).

Fixpoint rev_append (s acc : string) : string :=
  match s with
  | EmptyString => acc
  | String c r => rev_append r (String c acc)
  end.

Definition rev (s : string) : string := rev_append s EmptyString.

(** [replace(/^\s\s*/, '')] *)
Fixpoint trim_left (s : string) : string :=
  match s with
  | String c r => if is_space c then trim_left r else s
  | EmptyString => s
  end.

(** [replace(/\s\s*$/, '')] *)
Definition trim_right (s : string) : string := rev (trim_left (rev s)).

(** [String.prototype.trim] *)
Definition trim (s : string) : string := trim_right (trim_left s).

Definition is_empty (s : string) : bool :=
  match s with EmptyString => true | _ => false end.

Definition length (s : string) : Z := Z.of_nat (String.length s).

(** [s.slice(0, k)] and [s.slice(k)] for an index already clamped to the
    string. *)
Fixpoint take (k : nat) (s : string) : string :=
  match k, s with
  | S k', String c r => String c (take k' r)
  | _, _ => EmptyString
  end.

Fixpoint drop (k : nat) (s : string) : string :=
  match k, s with
  | S k', String c r => drop k' r
  | _, _ => s
  end.

(** The relative index of [slice]: NaN is 0, a negative index counts from the
    end, and the result is clamped to the string. *)
Definition slice_index (x : number) (s : string) : nat :=
  match x with
  | S754_infinity false => String.length s
  | _ =>
      match truncZ x with
      | Some z => if z <? 0 then Z.to_nat (Z.max (length s + z) 0)
                  else Z.to_nat (Z.min z (length s))
      | None => O
      end
  end.

Definition slice_to (s : string) (stop : number) : string :=
  take (slice_index stop s) s.

Definition slice_from (s : string) (start : number) : string :=
  drop (slice_index start s) s.

(** *** Decimal digits *)

Definition digit_val (c : ascii) : option Z :=
  let n := Z.of_nat (nat_of_ascii c) in
  if (48 <=? n) && (n <=? 57) then Some (n - 48) else None.

Definition digit_char (d : Z) : ascii := ascii_of_nat (Z.to_nat (48 + d)).

(** Reads the longest run of decimal digits: its value, its length and the
    rest of the string. *)
Fixpoint scan_digits (s : string) (acc cnt : Z) : Z * Z * string :=
  match s with
  | String c r =>
      match digit_val c with
      | Some d => scan_digits r (10 * acc + d) (cnt + 1)
      | None => (acc, cnt, s)
      end
  | EmptyString => (acc, cnt, s)
  end.

Fixpoint Z_digits (fuel : nat) (z : Z) (acc : string) : string :=
  match fuel with
  | O => acc
  | S fuel' =>
      let acc' := String (digit_char (z mod 10)) acc in
      if z / 10 =? 0 then acc' else Z_digits fuel' (z / 10) acc'
  end.

(** The decimal digits of a natural number. *)
Definition Z_to_string (z : Z) : string :=
  Z_digits (S (Z.to_nat (Z.log2 z))) z EmptyString.

Fixpoint zeros (k : nat) : string :=
  match k with
  | O => EmptyString
  | S k' => String "0" (zeros k')
  end.

Fixpoint strip_prefix (p s : string) : option string :=
  match p, s with
  | EmptyString, _ => Some s
  | String a p', String b s' =>
      if Ascii.eqb a b then strip_prefix p' s' else None
  | _, _ => None
  end.

(** *** From strings to numbers *)

Definition scan_sign (s : string) : bool * string :=
  match s with
  | String "-" r => (true, r)
  | String "+" r => (false, r)
  | _ => (false, s)
  end.

(** The exponent part [e], [e+] or [e-] followed by digits, when present. *)
Definition scan_exponent (s : string) : Z * string :=
  match s with
  | String c r =>
      if Ascii.eqb c "e" || Ascii.eqb c "E" then
        let '(sg, r1) := scan_sign r in
        let '(e, cnt, r2) := scan_digits r1 0 0 in
        if cnt =? 0 then (0, s) else (cond_Zopp sg e, r2)
      else (0, s)
  | EmptyString => (0, s)
  end.

(** The longest prefix that is an unsigned decimal literal ([Infinity],
    digits with an optional fraction and exponent): its value and the rest. *)
Definition scan_unsigned_decimal (s : string) : option (number * string) :=
  match strip_prefix "Infinity" s with
  | Some r => Some (pInf, r)
  | None =>
      let '(i, ci, r1) := scan_digits s 0 0 in
      match r1 with
      | String "." r2 =>
          let '(m, cf, r3) := scan_digits r2 i 0 in
          if (ci =? 0) && (cf =? 0) then None
          else let '(e, r4) := scan_exponent r3 in
               Some (of_dec m (e - cf), r4)
      | _ =>
          if ci =? 0 then None
          else let '(e, r4) := scan_exponent r1 in
               Some (of_dec i e, r4)
      end
  end.

Definition scan_decimal (s : string) : option (number * string) :=
  let '(sg, r) := scan_sign s in
  match scan_unsigned_decimal r with
  | Some (x, r') => Some (if sg then neg x else x, r')
  | None => None
  end.

(** The global function [parseFloat] on a string: leading white space is
    skipped and the longest decimal prefix is the result. *)
Definition parseFloat (s : string) : number :=
  match scan_decimal (trim_left s) with
  | Some (x, _) => x
  | None => NaN
  end.

Definition radix_digit (radix : Z) (c : ascii) : option Z :=
  let n := Z.of_nat (nat_of_ascii c) in
  let d := if (48 <=? n) && (n <=? 57) then n - 48
           else if (97 <=? n) && (n <=? 102) then n - 87
           else if (65 <=? n) && (n <=? 70) then n - 55
           else 99 in
  if d <? radix then Some d else None.

Fixpoint scan_radix (radix : Z) (s : string) (acc : Z) : option Z :=
  match s with
  | EmptyString => Some acc
  | String c r =>
      match radix_digit radix c with
      | Some d => scan_radix radix r (radix * acc + d)
      | None => None
      end
  end.

Definition radix_of_prefix (s : string) : option (Z * string) :=
  match s with
  | String "0" (String c r) =>
      if Ascii.eqb c "x" || Ascii.eqb c "X" then Some (16, r)
      else if Ascii.eqb c "o" || Ascii.eqb c "O" then Some (8, r)
      else if Ascii.eqb c "b" || Ascii.eqb c "B" then Some (2, r)
      else None
  | _ => None
  end.

(** ToNumber on a string (what unary [+] does to it): the whole trimmed
    string must be a numeric literal, the empty string is [+0]. *)
Definition StringToNumber (s : string) : number :=
  let t := trim s in
  if is_empty t then pzero
  else match radix_of_prefix t with
       | Some (radix, r) =>
           if is_empty r then NaN
           else match scan_radix radix r 0 with
                | Some z => of_Z z
                | None => NaN
                end
       | None =>
           match scan_decimal t with
           | Some (x, EmptyString) => x
           | _ => NaN
           end
       end.

(** *** From numbers to strings *)

(** The decimal exponent [n] of a positive rational: [10^(n-1) <= num/den <
    10^n]. *)
Fixpoint first_scale (fuel : nat) (num den j : Z) : Z :=
  match fuel with
  | O => j
  | S fuel' =>
      if den <=? num * pow10 j then j else first_scale fuel' num den (j + 1)
  end.

Definition decimal_exponent (num den : Z) : Z :=
  if den <=? num then dec_digits (num / den)
  else let b := Z.log2 den - Z.log2 num in
       1 - first_scale 6 num den (Z.max 1 ((b - 1) * 1233 / 4096)).

(** The shortest digit string [s] (of [k] digits) and exponent [n] such that
    [s * 10^(n-k)] reads back as [x]; of two candidates the one nearest to
    [x], the even one on a tie.  [n0] is the decimal exponent of [x] itself:
    rounding up to a power of ten moves to the next exponent. *)
Fixpoint shortest_digits (fuel : nat) (x : number) (num den n0 k : Z)
  : Z * Z * Z :=
  match fuel with
  | O => (0, k, n0)
  | S fuel' =>
      let sc := k - n0 in
      let N := if 0 <=? sc then num * pow10 sc else num in
      let D := if 0 <=? sc then den else den * pow10 (- sc) in
      let lo := N / D in
      let r := N mod D in
      let hi := lo + 1 in
      let ok s := (pow10 (k - 1) <=? s) && (s <=? pow10 k)
                  && eq (of_dec s (n0 - k)) x in
      let up := if hi =? pow10 k then (pow10 (k - 1), k, n0 + 1)
                else (hi, k, n0) in
      match ok lo, ok hi with
      | true, true =>
          if 2 * r <? D then (lo, k, n0)
          else if D <? 2 * r then up
          else if Z.even lo then (lo, k, n0) else up
      | true, false => (lo, k, n0)
      | false, true => up
      | false, false => shortest_digits fuel' x num den n0 (k + 1)
      end
  end.

Definition format_digits (s k n : Z) : string :=
  let ds := Z_to_string s in
  if (k <=? n) && (n <=? 21) then ds ++ zeros (Z.to_nat (n - k))
  else if (0 <? n) && (n <=? 21) then
    take (Z.to_nat n) ds ++ "." ++ drop (Z.to_nat n) ds
  else if (-6 <? n) && (n <=? 0) then "0." ++ zeros (Z.to_nat (- n)) ++ ds
  else
    let e := n - 1 in
    let es := (if e <? 0 then "-" else "+") ++ Z_to_string (Z.abs e) in
    if k =? 1 then ds ++ "e" ++ es
    else take 1 ds ++ "." ++ drop 1 ds ++ "e" ++ es.

(** ToString on a number (radix 10). *)
Definition NumberToString (x : number) : string :=
  match x with
  | S754_nan => "NaN"
  | S754_zero _ => "0"
  | S754_infinity s => if s then "-Infinity" else "Infinity"
  | S754_finite s m e =>
      let num := if 0 <=? e then Z.shiftl (Zpos m) e else Zpos m in
      let den := if 0 <=? e then 1 else Z.shiftl 1 (- e) in
      let n0 := decimal_exponent num den in
      let '(d, k, n) := shortest_digits 17 (abs x) num den n0 1 in
      (if s then "-" else "") ++ format_digits d k n
  end.

End Str.

(** ** Values, completions and the global scope *)

Local Open Scope string_scope.

(** The primitive values a caller can pass. *)
Inductive value : Type :=
  | VUndefined
  | VNull
  | VBool (b : bool)
  | VNum (x : number)
  | VStr (s : string).

Definition typeof (v : value) : string :=
  match v with
  | VUndefined => "undefined"
  | VNull => "object"
  | VBool _ => "boolean"
  | VNum _ => "number"
  | VStr _ => "string"
  end.

(** ToNumber: what unary [+] and the arithmetic operators apply to an
    operand. *)
Definition ToNumber (v : value) : number :=
  match v with
  | VUndefined => NaN
  | VNull => pzero
  | VBool b => if b then one else pzero
  | VNum x => x
  | VStr s => Str.StringToNumber s
  end.

Definition ToString (v : value) : string :=
  match v with
  | VUndefined => "undefined"
  | VNull => "null"
  | VBool b => if b then "true" else "false"
  | VNum x => Str.NumberToString x
  | VStr s => s
  end.

(** The global function [parseFloat]: its argument is first converted to a
    string. *)
Definition parseFloat (v : value) : number := Str.parseFloat (ToString v).

Inductive error : Type :=
  | ReferenceError (name : string)
  | TypeError.

(** How an evaluation ends: with a value, with an exception, or not within
    the given number of loop iterations. *)
Inductive result (A : Type) : Type :=
  | Ok (a : A)
  | Throw (e : error)
  | OutOfFuel.

Arguments Ok {A} a.
Arguments Throw {A} e.
Arguments OutOfFuel {A}.

Definition bind {A B : Type} (r : result A) (k : A -> result B) : result B :=
  match r with
  | Ok a => k a
  | Throw e => Throw e
  | OutOfFuel => OutOfFuel
  end.

Notation "x <- r ;; k" := (bind r (fun x => k))
  (at level 61, r at next level, right associativity).

(** [b && e] where [e] may throw: [e] is evaluated only when [b] holds. *)
Definition and_then (b : bool) (e : result bool) : result bool :=
  if b then e else Ok false.

(** [v.trim()]: only strings have the method. *)
Definition method_trim (v : value) : result string :=
  match v with
  | VStr s => Ok (Str.trim s)
  | _ => Throw TypeError
  end.

(** [trim(v)]: a call of the free identifier [trim].  The file installs
    [trim] on [String.prototype] only; it declares no variable or function of
    that name and the host's global object has none, so resolving the
    identifier throws before the argument is used. *)
Definition global_trim (v : value) : result string :=
  Throw (ReferenceError "trim").

(** ** The host's Math library *)

(** The functions of [Math] whose results ECMAScript leaves to the
    implementation. *)
Record MathLib : Type := {
  sin : number -> number;
  cos : number -> number;
  tan : number -> number;
  asin : number -> number;
  acos : number -> number;
  atan2 : number -> number -> number;
  log : number -> number;
  pow : number -> number -> number
}.

(** ** The program *)

(** [Number.prototype.toRad] and [Number.prototype.toDeg] *)
Definition toRad (this : number) : number := div (mul this PI) (of_Z 180).
Definition toDeg (this : number) : number := div (mul this (of_Z 180)) PI.

(** [v.toRad()]: the method exists on numbers only. *)
Definition method_toRad (v : value) : result number :=
  match v with
  | VNum x => Ok (toRad x)
  | _ => Throw TypeError
  end.

Record LngLat : Type := {
  _lat : value;
  _lon : value;
  _radius : value
}.

(** [new LngLat(lon, lat, rad)] *)
Definition LngLat_new (lon lat rad : value) : result LngLat :=
  let rad := if typeof rad =? "undefined" then VNum (of_Z 6371) else rad in
  this_lat <-
    (if typeof lat =? "number" then Ok lat
     else c <- and_then (typeof lat =? "string")
                 (t <- method_trim lat ;; Ok (negb (t =? ""))) ;;
          Ok (if c then VNum (ToNumber lat) else VNum NaN)) ;;
  this_lon <-
    (if typeof lat =? "number" then Ok lon
     else c <- and_then (typeof lon =? "string")
                 (t <- method_trim lon ;; Ok (negb (t =? ""))) ;;
          Ok (if c then VNum (ToNumber lon) else VNum NaN)) ;;
  this_radius <-
    (if typeof rad =? "number" then Ok rad
     else c <- and_then (typeof rad =? "string")
                 (t <- global_trim lon ;; Ok (negb (t =? ""))) ;;
          Ok (if c then VNum (ToNumber rad) else VNum NaN)) ;;
  Ok {| _lat := this_lat; _lon := this_lon; _radius := this_radius |}.

(** [while (precision--) n += '0'] *)
Fixpoint pad_precision (fuel : nat) (precision : number) (n : string)
  : result string :=
  match fuel with
  | O => OutOfFuel
  | S fuel' =>
      if truthy precision
      then pad_precision fuel' (sub precision one) (n ++ "0")
      else Ok n
  end.

(** [while (l-- > 0) n = n + '0'] *)
Fixpoint pad_right (fuel : nat) (l : number) (n : string) : result string :=
  match fuel with
  | O => OutOfFuel
  | S fuel' =>
      if gt l pzero then pad_right fuel' (sub l one) (n ++ "0") else Ok n
  end.

(** [while (scale++ < 0) n = '0' + n] *)
Fixpoint pad_left (fuel : nat) (scale : number) (n : string) : result string :=
  match fuel with
  | O => OutOfFuel
  | S fuel' =>
      if lt scale pzero then pad_left fuel' (add scale one) ("0" ++ n)
      else Ok n
  end.

Section Program.

Variable M : MathLib.

(** [Number.prototype.toPrecisionFixed] *)
Definition toPrecisionFixed (fuel : nat) (this precision : number)
  : result string :=
  if isNaN this then Ok "NaN"
  else
    let numb := if lt this pzero then neg this else this in
    let sign := if lt this pzero then "-" else "" in
    if eq numb pzero then pad_precision fuel precision "0."
    else
      let scale := ceil (mul (log M numb) LOG10E) in
      let n := Str.NumberToString
                 (round (mul numb (pow M (of_Z 10) (sub precision scale)))) in
      n <- (if gt scale pzero then
              let l := sub scale (of_Z (Str.length n)) in
              n <- pad_right fuel l n ;;
              Ok (if lt scale (of_Z (Str.length n))
                  then Str.slice_to n scale ++ "." ++ Str.slice_from n scale
                  else n)
            else
              n <- pad_left fuel scale n ;;
              Ok ("0." ++ n)) ;;
      Ok (sign ++ n).

(** [LngLat.prototype.distanceTo] *)
Definition distanceTo (fuel : nat) (this point : LngLat) (precision : value)
  : result string :=
  let precision :=
    if typeof precision =? "undefined" then VNum (of_Z 4) else precision in
  let R := _radius this in
  lat1 <- method_toRad (_lat this) ;;
  lon1 <- method_toRad (_lon this) ;;
  lat2 <- method_toRad (_lat point) ;;
  lon2 <- method_toRad (_lon point) ;;
  let dLat := sub lat2 lat1 in
  let dLon := sub lon2 lon1 in
  let a := add (mul (sin M (div dLat two)) (sin M (div dLat two)))
               (mul (mul (mul (cos M lat1) (cos M lat2))
                         (sin M (div dLon two)))
                    (sin M (div dLon two))) in
  let c := mul two (atan2 M (sqrt a) (sqrt (sub one a))) in
  let d := mul (ToNumber R) c in
  toPrecisionFixed fuel d (ToNumber precision).

(** [LngLat.prototype.bearingTo] *)
Definition bearingTo (this point : LngLat) : result number :=
  lat1 <- method_toRad (_lat this) ;;
  lat2 <- method_toRad (_lat point) ;;
  let dLon := toRad (sub (ToNumber (_lon point)) (ToNumber (_lon this))) in
  let y := mul (sin M dLon) (cos M lat2) in
  let x := sub (mul (cos M lat1) (sin M lat2))
               (mul (mul (sin M lat1) (cos M lat2)) (cos M dLon)) in
  let brng := atan2 M y x in
  Ok (fmod (add (toDeg brng) (of_Z 360)) (of_Z 360)).

(** [LngLat.prototype.midpointTo] *)
Definition midpointTo (this point : LngLat) : result LngLat :=
  lat1 <- method_toRad (_lat this) ;;
  lon1 <- method_toRad (_lon this) ;;
  lat2 <- method_toRad (_lat point) ;;
  let dLon := toRad (sub (ToNumber (_lon point)) (ToNumber (_lon this))) in
  let Bx := mul (cos M lat2) (cos M dLon) in
  let By := mul (cos M lat2) (sin M dLon) in
  let lat3 := atan2 M (add (sin M lat1) (sin M lat2))
                (sqrt (add (mul (add (cos M lat1) Bx) (add (cos M lat1) Bx))
                           (mul By By))) in
  let lon3 := add lon1 (atan2 M By (add (cos M lat1) Bx)) in
  LngLat_new (VNum (toDeg lon3)) (VNum (toDeg lat3)) VUndefined.

(** [LngLat.prototype.destinationPoint] *)
Definition destinationPoint (this : LngLat) (brng dist : value)
  : result LngLat :=
  dist <-
    (if typeof dist =? "number" then Ok dist
     else c <- and_then (typeof dist =? "string")
                 (t <- method_trim dist ;; Ok (negb (t =? ""))) ;;
          Ok (if c then VNum (ToNumber dist) else VNum NaN)) ;;
  let dist := div (ToNumber dist) (ToNumber (_radius this)) in
  brng <- method_toRad brng ;;
  lat1 <- method_toRad (_lat this) ;;
  lon1 <- method_toRad (_lon this) ;;
  let lat2 := asin M (add (mul (sin M lat1) (cos M dist))
                          (mul (mul (cos M lat1) (sin M dist))
                               (cos M brng))) in
  let lon2 := add lon1
                (atan2 M (mul (mul (sin M brng) (sin M dist)) (cos M lat1))
                         (sub (cos M dist) (mul (sin M lat1) (sin M lat2)))) in
  let lon2 := sub (fmod (add lon2 (mul (of_Z 3) PI)) (mul two PI)) PI in
  LngLat_new (VNum (toDeg lon2)) (VNum (toDeg lat2)) VUndefined.

(** The angular distance [dist12] of [LngLat.intersection], from the
    coordinates in radians. *)
Definition angular_distance (lat1 lon1 lat2 lon2 : number) : number :=
  let dLat := sub lat2 lat1 in
  let dLon := sub lon2 lon1 in
  mul two (asin M (sqrt (add (mul (sin M (div dLat two)) (sin M (div dLat two)))
                             (mul (mul (mul (cos M lat1) (cos M lat2))
                                       (sin M (div dLon two)))
                                  (sin M (div dLon two)))))).

(** The angles [alpha1] (2-1-3) and [alpha2] (1-2-3) of
    [LngLat.intersection]. *)
Definition path_angles (lat1 lon1 lat2 lon2 dist12 brng13 brng23 : number)
  : number * number :=
  let brngA := acos M (div (sub (sin M lat2) (mul (sin M lat1) (cos M dist12)))
                           (mul (sin M dist12) (cos M lat1))) in
  let brngA := if isNaN brngA then pzero else brngA in
  let brngB := acos M (div (sub (sin M lat1) (mul (sin M lat2) (cos M dist12)))
                           (mul (sin M dist12) (cos M lat2))) in
  let '(brng12, brng21) :=
    if gt (sin M (sub lon2 lon1)) pzero
    then (brngA, sub (mul two PI) brngB)
    else (sub (mul two PI) brngA, brngB) in
  (sub (fmod (add (sub brng13 brng12) PI) (mul two PI)) PI,
   sub (fmod (add (sub brng21 brng23) PI) (mul two PI)) PI).

(** [LngLat.intersection] (a static function); [None] is [null]. *)
Definition intersection (p1 : LngLat) (brng1 : value) (p2 : LngLat)
  (brng2 : value) : result (option LngLat) :=
  brng1 <-
    (if typeof brng1 =? "number" then Ok brng1
     else c <- and_then (typeof brng1 =? "string")
                 (t <- global_trim brng1 ;; Ok (negb (t =? ""))) ;;
          Ok (if c then VNum (ToNumber brng1) else VNum NaN)) ;;
  brng2 <-
    (if typeof brng2 =? "number" then Ok brng2
     else c <- and_then (typeof brng2 =? "string")
                 (t <- global_trim brng2 ;; Ok (negb (t =? ""))) ;;
          Ok (if c then VNum (ToNumber brng2) else VNum NaN)) ;;
  lat1 <- method_toRad (_lat p1) ;;
  lon1 <- method_toRad (_lon p1) ;;
  lat2 <- method_toRad (_lat p2) ;;
  lon2 <- method_toRad (_lon p2) ;;
  brng13 <- method_toRad brng1 ;;
  brng23 <- method_toRad brng2 ;;
  let dist12 := angular_distance lat1 lon1 lat2 lon2 in
  if eq dist12 pzero then Ok None
  else
    let '(alpha1, alpha2) :=
      path_angles lat1 lon1 lat2 lon2 dist12 brng13 brng23 in
    if eq (sin M alpha1) pzero && eq (sin M alpha2) pzero then Ok None
    else if lt (mul (sin M alpha1) (sin M alpha2)) pzero then Ok None
    else
      let alpha3 := acos M (add (mul (neg (cos M alpha1)) (cos M alpha2))
                                (mul (mul (sin M alpha1) (sin M alpha2))
                                     (cos M dist12))) in
      let dist13 := atan2 M (mul (mul (sin M dist12) (sin M alpha1))
                                 (sin M alpha2))
                            (add (cos M alpha2)
                                 (mul (cos M alpha1) (cos M alpha3))) in
      let lat3 := asin M (add (mul (sin M lat1) (cos M dist13))
                              (mul (mul (cos M lat1) (sin M dist13))
                                   (cos M brng13))) in
      let dLon13 := atan2 M (mul (mul (sin M brng13) (sin M dist13))
                                 (cos M lat1))
                            (sub (cos M dist13)
                                 (mul (sin M lat1) (sin M lat3))) in
      let lon3 := add lon1 dLon13 in
      let lon3 := sub (fmod (add lon3 PI) (mul two PI)) PI in
      p <- LngLat_new (VNum (toDeg lon3)) (VNum (toDeg lat3)) VUndefined ;;
      Ok (Some p).

(** [LngLat.prototype.rhumbDistanceTo] *)
Definition rhumbDistanceTo (fuel : nat) (this point : LngLat)
  : result string :=
  let R := _radius this in
  lat1 <- method_toRad (_lat this) ;;
  lat2 <- method_toRad (_lat point) ;;
  let dLat := toRad (sub (ToNumber (_lat point)) (ToNumber (_lat this))) in
  let dLon :=
    toRad (abs (sub (ToNumber (_lon point)) (ToNumber (_lon this)))) in
  let dPhi := log M (div (tan M (add (div lat2 two) (div PI (of_Z 4))))
                         (tan M (add (div lat1 two) (div PI (of_Z 4))))) in
  let q := if negb (isNaN (div dLat dPhi)) then div dLat dPhi
           else cos M lat1 in
  let dLon := if gt dLon PI then sub (mul two PI) dLon else dLon in
  let dist := mul (sqrt (add (mul dLat dLat)
                             (mul (mul (mul q q) dLon) dLon)))
                  (ToNumber R) in
  toPrecisionFixed fuel dist (of_Z 4).

(** [LngLat.prototype.rhumbDestinationPoint] *)
Definition rhumbDestinationPoint (this : LngLat) (brng dist : value)
  : result LngLat :=
  let R := _radius this in
  let d := div (parseFloat dist) (ToNumber R) in
  lat1 <- method_toRad (_lat this) ;;
  lon1 <- method_toRad (_lon this) ;;
  brng <- method_toRad brng ;;
  let lat2 := add lat1 (mul d (cos M brng)) in
  let dLat := sub lat2 lat1 in
  let dPhi := log M (div (tan M (add (div lat2 two) (div PI (of_Z 4))))
                         (tan M (add (div lat1 two) (div PI (of_Z 4))))) in
  let q := if negb (isNaN (div dLat dPhi)) then div dLat dPhi
           else cos M lat1 in
  let dLon := div (mul d (sin M brng)) q in
  let lat2 := if gt (abs lat2) (div PI two)
              then (if gt lat2 pzero then sub PI lat2 else neg (sub PI lat2))
              else lat2 in
  let lon2 := sub (fmod (add (add lon1 dLon) (mul (of_Z 3) PI)) (mul two PI))
                  PI in
  LngLat_new (VNum (toDeg lon2)) (VNum (toDeg lat2)) VUndefined.

End Program.

(** ** A reference Math library

    An executable [MathLib] that computes every function in fixed point with
    160 fractional bits and rounds once to binary64, with the special values
    ECMAScript prescribes.  It is what the concrete evaluations below run
    the program with. *)

Module RefMath.

Local Open Scope Z_scope.

Definition P : Z := 160.
Definition fx_one : Z := Z.shiftl 1 P.

Definition fx_mul (a b : Z) : Z := Z.quot (a * b) fx_one.
Definition fx_div (a b : Z) : Z := Z.shiftl a P / b.

(** The fixed-point image of a finite number and the number nearest to a
    fixed-point value. *)
Definition to_fx (x : number) : Z :=
  match x with
  | S754_finite s m e => cond_Zopp s (Z.shiftl (Zpos m) (e + P))
  | _ => 0
  end.

Definition of_fx (z : Z) : number := binary_normalize prec emax z (- P) false.

(** [sum_k sgn^k t^(2k+1) / (2k+1)], the series of arctangent ([sgn = -1])
    and of the inverse hyperbolic tangent ([sgn = 1]). *)
Fixpoint odd_series (fuel : nat) (sgn term t2 k acc : Z) : Z :=
  match fuel with
  | O => acc
  | S fuel' =>
      if term =? 0 then acc
      else odd_series fuel' sgn (sgn * fx_mul term t2) t2 (k + 1)
             (acc + Z.quot term (2 * k + 1))
  end.

Definition atan_small (t : Z) : Z := odd_series 300 (-1) t (fx_mul t t) 0 0.
Definition atanh_small (t : Z) : Z := odd_series 300 1 t (fx_mul t t) 0 0.

(** Machin's formula. *)
Definition pi_fx : Z :=
  Eval vm_compute in
    16 * atan_small (fx_one / 5) - 4 * atan_small (fx_one / 239).

Definition ln2_fx : Z := Eval vm_compute in 2 * atanh_small (fx_one / 3).

Definition fx_sqrt (a : Z) : Z := Z.sqrt (Z.shiftl a P).

(** Arctangent on [0, 1]: three halvings of the angle, then the series. *)
Definition halve_angle (t : Z) : Z :=
  fx_div t (fx_one + fx_sqrt (fx_one + fx_mul t t)).

Definition atan_fx (t : Z) : Z :=
  8 * atan_small (halve_angle (halve_angle (halve_angle t))).

(** The angle in [0, pi/2] of the point [(X, Y)] of the first quadrant. *)
Definition angle_fx (Y X : Z) : Z :=
  if Y <=? X then atan_fx (Z.shiftl Y P / X)
  else pi_fx / 2 - atan_fx (Z.shiftl X P / Y).

(** [sum_k sgn^k r^(2k+i) / (2k+i)!] from its first term. *)
Fixpoint fact_series (fuel : nat) (sgn term r2 n acc : Z) : Z :=
  match fuel with
  | O => acc
  | S fuel' =>
      if term =? 0 then acc
      else fact_series fuel' sgn
             (sgn * Z.quot (fx_mul term r2) ((n + 1) * (n + 2))) r2 (n + 2)
             (acc + term)
  end.

(** Sine and cosine of an angle of [0, pi/2]. *)
Definition sin_small (r : Z) : Z := fact_series 100 (-1) r (fx_mul r r) 1 0.
Definition cos_small (r : Z) : Z :=
  fact_series 100 (-1) fx_one (fx_mul r r) 0 0.

(** Sine and cosine of a non-negative fixed-point angle. *)
Definition sincos_fx (a : Z) : Z * Z :=
  let h := pi_fx / 2 in
  let q := (a / h) mod 4 in
  let r := a mod h in
  let s := sin_small r in
  let c := cos_small r in
  if q =? 0 then (s, c)
  else if q =? 1 then (c, - s)
  else if q =? 2 then (- s, - c)
  else (- c, s).

Definition clamp1 (z : Z) : Z := Z.max (- fx_one) (Z.min fx_one z).

(** Numbers below [2^-40] in magnitude, where [sin x], [tan x] and [asin x]
    round to [x]. *)
Definition tiny (m : positive) (e : Z) : bool :=
  Z.pos (digits2_pos m) + e <? -40.

Definition with_sign (s : bool) (x : number) : number :=
  if s then neg x else x.

Definition sin (x : number) : number :=
  match x with
  | S754_zero _ => x
  | S754_finite s m e =>
      if tiny m e then x
      else with_sign s
             (of_fx (clamp1 (fst (sincos_fx (to_fx (abs x))))))
  | _ => NaN
  end.

Definition cos (x : number) : number :=
  match x with
  | S754_zero _ => one
  | S754_finite s m e => of_fx (clamp1 (snd (sincos_fx (to_fx (abs x)))))
  | _ => NaN
  end.

Definition tan (x : number) : number :=
  match x with
  | S754_zero _ => x
  | S754_finite s m e =>
      if tiny m e then x
      else let '(sn, cs) := sincos_fx (to_fx (abs x)) in
           with_sign s (if cs =? 0 then pInf else of_fx (fx_div sn cs))
  | _ => NaN
  end.

(** The first-quadrant angle of two positive finite numbers, in fixed
    point. *)
Definition angle_of (my : positive) (ey : Z) (mx : positive) (ex : Z) : Z :=
  let e := Z.min ey ex in
  angle_fx (Z.shiftl (Zpos my) (ey - e)) (Z.shiftl (Zpos mx) (ex - e)).

(** An angle is never returned beyond [Math.PI] in magnitude. *)
Definition clamp_pi (x : number) : number := if le (abs x) PI then x else PI.

Definition half_pi : number := div PI two.

Definition atan2 (y x : number) : number :=
  match y, x with
  | S754_nan, _ | _, S754_nan => NaN
  | S754_zero sy, (S754_zero sx | S754_finite sx _ _ | S754_infinity sx) =>
      if sx then with_sign sy PI else y
  | S754_finite sy _ _, S754_zero _ => with_sign sy half_pi
  | S754_finite sy _ _, S754_infinity sx =>
      if sx then with_sign sy PI else S754_zero sy
  | S754_infinity sy, S754_infinity sx =>
      with_sign sy (if sx then div (mul (of_Z 3) PI) (of_Z 4)
                    else div PI (of_Z 4))
  | S754_infinity sy, _ => with_sign sy half_pi
  | S754_finite sy my ey, S754_finite sx mx ex =>
      let a := angle_of my ey mx ex in
      with_sign sy
        (clamp_pi (if sx then of_fx (pi_fx - a)
                   else if a <? Z.shiftl 1 (P - 40) then div (abs y) (abs x)
                   else of_fx a))
  end.

Definition asin (x : number) : number :=
  match x with
  | S754_zero _ => x
  | S754_finite s m e =>
      if gt (abs x) one then NaN
      else if tiny m e then x
      else let X := to_fx (abs x) in
           with_sign s
             (of_fx (angle_fx X (Z.sqrt (fx_one * fx_one - X * X))))
  | _ => NaN
  end.

Definition acos (x : number) : number :=
  match x with
  | S754_zero _ => half_pi
  | S754_finite s m e =>
      if gt (abs x) one then NaN
      else let X := to_fx (abs x) in
           let a := angle_fx (Z.sqrt (fx_one * fx_one - X * X)) X in
           clamp_pi (of_fx (if s then pi_fx - a else a))
  | _ => NaN
  end.

(** The natural logarithm of a positive finite number, in fixed point. *)
Definition log_fx (m : positive) (e : Z) : Z :=
  let d := Z.pos (digits2_pos m) in
  let mant := Z.shiftl (Zpos m) (P - (d - 1)) in
  (e + d - 1) * ln2_fx
  + 2 * atanh_small (fx_div (mant - fx_one) (mant + fx_one)).

(** The logarithm of a binary64 number lies between -745 and 710. *)
Definition clamp_log (z : Z) : Z :=
  Z.max (- (750 * fx_one)) (Z.min (750 * fx_one) z).

Definition log (x : number) : number :=
  match x with
  | S754_nan => NaN
  | S754_zero _ => nInf
  | S754_infinity s => if s then NaN else x
  | S754_finite s m e => if s then NaN else of_fx (clamp_log (log_fx m e))
  end.

(** [sum_n r^n / n!] from its first term. *)
Fixpoint exp_series (fuel : nat) (term r n acc : Z) : Z :=
  match fuel with
  | O => acc
  | S fuel' =>
      if term =? 0 then acc
      else exp_series fuel' (Z.quot (fx_mul term r) (n + 1)) r (n + 1)
             (acc + term)
  end.

(** The exponential of a fixed-point value, rounded to a number. *)
Definition exp_of_fx (z : Z) : number :=
  let k := (2 * z + ln2_fx) / (2 * ln2_fx) in
  if 1100 <? k then pInf
  else if k <? -1200 then pzero
  else
    let r := z - k * ln2_fx in
    binary_normalize prec emax (exp_series 100 fx_one r 0 0) (k - P) false.

Definition is_integer (x : number) : bool :=
  match x with
  | S754_zero _ => true
  | S754_finite _ m e =>
      (0 <=? e) || (Zpos m mod Z.shiftl 1 (- e) =? 0)
  | _ => false
  end.

Definition is_odd_integer (x : number) : bool :=
  match x with
  | S754_finite _ m e =>
      if 0 <=? e then (e =? 0) && Z.odd (Zpos m)
      else (Zpos m mod Z.shiftl 1 (- e) =? 0) && Z.odd (Z.shiftr (Zpos m) (- e))
  | _ => false
  end.

Definition sign_of (x : number) : bool :=
  match x with
  | S754_zero s | S754_infinity s | S754_finite s _ _ => s
  | S754_nan => false
  end.

(** [Math.pow], with the special cases of Number::exponentiate. *)
Definition pow (x y : number) : number :=
  match y, x with
  | S754_nan, _ => NaN
  | S754_zero _, _ => one
  | _, S754_nan => NaN
  | _, S754_infinity sx =>
      let neg_result := sx && is_odd_integer y in
      if sign_of y then S754_zero neg_result else S754_infinity neg_result
  | _, S754_zero sx =>
      let neg_result := sx && is_odd_integer y in
      if sign_of y then S754_infinity neg_result else S754_zero neg_result
  | S754_infinity sy, S754_finite _ _ _ =>
      if eq (abs x) one then NaN
      else if xorb (gt (abs x) one) sy then pInf else pzero
  | S754_finite _ _ _, S754_finite sx mx ex =>
      if sx && negb (is_integer y) then NaN
      else with_sign (sx && is_odd_integer y)
             (exp_of_fx (fx_mul (to_fx y) (log_fx mx ex)))
  end.

Definition lib : MathLib :=
  Build_MathLib sin cos tan asin acos atan2 log pow.

End RefMath.

(** ** What the program assumes of the host's Math library *)

(** NaN arguments give NaN results (ECMAScript, for every Math function). *)
Record NaNPropagation (M : MathLib) : Prop := {
  sin_nan : sin M NaN = NaN;
  cos_nan : cos M NaN = NaN;
  asin_nan : asin M NaN = NaN;
  atan2_nan : forall x, atan2 M NaN x = NaN
}.

(** The exact results ECMAScript prescribes at zero and infinity. *)
Record SpecialValues (M : MathLib) : Prop := {
  sin_zero : forall s, sin M (S754_zero s) = S754_zero s;
  cos_zero : forall s, cos M (S754_zero s) = one;
  atan2_zero_pos : forall m e, atan2 M pzero (S754_finite false m e) = pzero;
  log_pinf : log M pInf = pInf
}.

(** The sine is an odd function. *)
Definition OddSine (M : MathLib) : Prop :=
  forall x, sin M (neg x) = neg (sin M x).

(** A binary64 number of magnitude at most [b]. *)
Definition within (b y : number) : bool := valid y && le (abs y) b.

(** The ranges of the results: sines and cosines lie in [-1, 1], an
    arctangent in [-PI, PI], and the logarithm of a positive finite number
    is finite (it lies between -745 and 710). *)
Record BoundedRanges (M : MathLib) : Prop := {
  sin_range : forall x, valid x = true -> is_finite x = true ->
              within one (sin M x) = true;
  cos_range : forall x, valid x = true -> is_finite x = true ->
              within one (cos M x) = true;
  atan2_range : forall y x, valid y = true -> valid x = true ->
                isNaN y = false -> isNaN x = false ->
                within PI (atan2 M y x) = true;
  log_range : forall m e, valid (S754_finite false m e) = true ->
              within (of_Z 750) (log M (S754_finite false m e)) = true
}.

(** ** The rhumb-line distance as the specification words it *)

Section RhumbSpec.

Variable M : MathLib.

(** [dPhi = ln(tan(lat2/2 + pi/4) / tan(lat1/2 + pi/4))] *)
Definition spec_dPhi (lat1 lat2 : number) : number :=
  log M (div (tan M (add (div lat2 two) (div PI (of_Z 4))))
             (tan M (add (div lat1 two) (div PI (of_Z 4))))).

(** [q = dLat/dPhi] unless that ratio is NaN, in which case [q = cos lat1]. *)
Definition spec_q (lat1 dLat dPhi : number) : number :=
  if isNaN (div dLat dPhi) then cos M lat1 else div dLat dPhi.

(** The longitude difference the shorter way round: beyond [pi] it is
    replaced by [2 pi - |dLon|]. *)
Definition spec_dLon_short (absdLon : number) : number :=
  if gt absdLon PI then sub (mul two PI) absdLon else absdLon.

(** [R * sqrt (dLat^2 + q^2 * dLon^2)] for latitudes and longitudes in
    degrees; the differences are taken in degrees and converted, and a
    product of several factors is taken from left to right. *)
Definition spec_rhumb_distance (lat1 lon1 lat2 lon2 R : number) : number :=
  let dLat := toRad (sub lat2 lat1) in
  let dLon := spec_dLon_short (toRad (abs (sub lon2 lon1))) in
  let q := spec_q (toRad lat1) dLat (spec_dPhi (toRad lat1) (toRad lat2)) in
  mul R (sqrt (add (mul dLat dLat) (mul (mul (mul q q) dLon) dLon))).

End RhumbSpec.

(** ** Sample points *)

Definition point (lon lat radius : number) : LngLat :=
  {| _lat := VNum lat; _lon := VNum lon; _radius := VNum radius |}.

Definition earth_radius : number := of_Z 6371.

(** The origin of the coordinates, on the Earth. *)
Definition origin : LngLat := point pzero pzero earth_radius.

(** A point one degree north of the origin, on a sphere of the radius of the
    Moon. *)
Definition moon_point : LngLat := point pzero one (of_Z 1737).

(** London, from the usage notes of the file. *)
Definition london : LngLat :=
  point (neg (of_dec 983 (-4))) (of_dec 515136 (-4)) earth_radius.

(** A point whose latitude overflows when converted to radians. *)
Definition far_point : LngLat := point pzero (of_dec 1 308) earth_radius.

(** ** The rest of the program *)

(** ToBoolean, the test of [fix ? ... : ...] (the argument [fix] is
    [fix_] below). *)
Definition ToBoolean (v : value) : bool :=
  match v with
  | VUndefined | VNull => false
  | VBool b => b
  | VNum x => truthy x
  | VStr s => negb (s =? "")
  end.

(** The relational operators on two primitive values: two strings are
    compared by code units, anything else as numbers; [None] is the
    undefined result of a comparison with NaN. *)
Definition less_than (a b : value) : option bool :=
  match a, b with
  | VStr s, VStr t => Some (String.ltb s t)
  | _, _ =>
      if isNaN (ToNumber a) || isNaN (ToNumber b) then None
      else Some (lt (ToNumber a) (ToNumber b))
  end.

(** [a >= b] and [a <= b] *)
Definition greater_equal (a b : value) : bool :=
  match less_than a b with Some false => true | _ => false end.

Definition less_equal (a b : value) : bool :=
  match less_than b a with Some false => true | _ => false end.

(** An entry of the object [getSquarePoints] returns. *)
Inductive entry : Type :=
  | EPoint (p : LngLat)
  | EString (s : string).

Section Accessors.

Variable M : MathLib.

(** [Geo.toLat] and [Geo.toLng], of the module [./Geo] the file requires,
    and the host's [Number.prototype.toFixed]. *)
Variable Geo_toLat Geo_toLng : value -> value -> value -> result value.
Variable toFixed : number -> value -> result string.

(** [LngLat.prototype.finalBearingTo] *)
Definition finalBearingTo (this point : LngLat) : result number :=
  lat1 <- method_toRad (_lat point) ;;
  lat2 <- method_toRad (_lat this) ;;
  let dLon := toRad (sub (ToNumber (_lon this)) (ToNumber (_lon point))) in
  let y := mul (sin M dLon) (cos M lat2) in
  let x := sub (mul (cos M lat1) (sin M lat2))
               (mul (mul (sin M lat1) (cos M lat2)) (cos M dLon)) in
  let brng := atan2 M y x in
  Ok (fmod (add (toDeg brng) (of_Z 180)) (of_Z 360)).

(** [LngLat.prototype.rhumbBearingTo] *)
Definition rhumbBearingTo (this point : LngLat) : result number :=
  lat1 <- method_toRad (_lat this) ;;
  lat2 <- method_toRad (_lat point) ;;
  let dLon := toRad (sub (ToNumber (_lon point)) (ToNumber (_lon this))) in
  let dPhi := log M (div (tan M (add (div lat2 two) (div PI (of_Z 4))))
                         (tan M (add (div lat1 two) (div PI (of_Z 4))))) in
  let dLon := if gt (abs dLon) PI
              then (if gt dLon pzero then neg (sub (mul two PI) dLon)
                    else add (mul two PI) dLon)
              else dLon in
  let brng := atan2 M dLon dPhi in
  Ok (fmod (add (toDeg brng) (of_Z 360)) (of_Z 360)).

(** [LngLat.prototype.lat] and [LngLat.prototype.lon] *)
Definition lat (this : LngLat) (format dp : value) : result value :=
  if typeof format =? "undefined" then Ok (_lat this)
  else Geo_toLat (_lat this) format dp.

Definition lon (this : LngLat) (format dp : value) : result value :=
  if typeof format =? "undefined" then Ok (_lon this)
  else Geo_toLng (_lon this) format dp.

(** [LngLat.prototype.toString] *)
Definition toString (this : LngLat) (format dp : value) : result string :=
  let format := if typeof format =? "undefined" then VStr "dms" else format in
  if isNaN (ToNumber (_lat this)) || isNaN (ToNumber (_lon this))
  then Ok "-,-"
  else
    lng <- Geo_toLng (_lon this) format dp ;;
    la <- Geo_toLat (_lat this) format dp ;;
    Ok (ToString lng ++ ", " ++ ToString la).

(** [v.toFixed(fix)]: the method exists on numbers only. *)
Definition method_toFixed (v fix_ : value) : result string :=
  match v with
  | VNum x => toFixed x fix_
  | _ => Throw TypeError
  end.

(** [LngLat.prototype.toLngLat] *)
Definition toLngLat (this : LngLat) (fix_ : value) : result string :=
  if ToBoolean fix_ then
    a <- method_toFixed (_lon this) fix_ ;;
    b <- method_toFixed (_lat this) fix_ ;;
    Ok (a ++ "," ++ b)
  else Ok (ToString (_lon this) ++ "," ++ ToString (_lat this)).

(** [LngLat.prototype.toArray] *)
Definition toArray (this : LngLat) (fix_ : value) : result (list value) :=
  if ToBoolean fix_ then
    a <- method_toFixed (_lon this) fix_ ;;
    b <- method_toFixed (_lat this) fix_ ;;
    Ok [VNum (ToNumber (VStr a)); VNum (ToNumber (VStr b))]
  else Ok [_lon this; _lat this].

(** The object literal of [getSquarePoints]: eight destination points, in
    the order of the source, each passed through [f]. *)
Definition square_entries (this : LngLat) (distance : value)
  (f : LngLat -> result entry) : result (list (string * entry)) :=
  let at_bearing (b : Z) :=
    p <- destinationPoint M this (VNum (of_Z b)) distance ;; f p in
  n <- at_bearing 0 ;;
  ne <- at_bearing 45 ;;
  e <- at_bearing 90 ;;
  es <- at_bearing 135 ;;
  s <- at_bearing 180 ;;
  sw <- at_bearing 225 ;;
  w <- at_bearing 270 ;;
  wn <- at_bearing 315 ;;
  Ok [("n", n); ("ne", ne); ("e", e); ("es", es);
      ("s", s); ("sw", sw); ("w", w); ("wn", wn)].

(** [LngLat.prototype.getSquarePoints]; [format === true] holds for the
    boolean [true] only. *)
Definition getSquarePoints (this : LngLat) (distance format : value)
  : result (list (string * entry)) :=
  match format with
  | VBool true =>
      square_entries this distance
        (fun p => s <- toLngLat p VUndefined ;; Ok (EString s))
  | _ => square_entries this distance (fun p => Ok (EPoint p))
  end.

(** [LngLat.prototype.inSquare] *)
Definition inSquare (this sw ne : LngLat) : bool :=
  greater_equal (_lat this) (_lat sw) && less_equal (_lat this) (_lat ne)
  && greater_equal (_lon this) (_lon sw) && less_equal (_lon this) (_lon ne).

End Accessors.

(** Property lookup in an object literal: the first entry of that key. *)
Fixpoint lookup (k : string) (o : list (string * entry)) : option entry :=
  match o with
  | [] => None
  | (k', v) :: r => if k =? k' then Some v else lookup k r
  end.

(** What more the program relies on from the host's Math library: its
    functions return binary64 numbers, a NaN second argument of [atan2]
    gives NaN, and the arcsine of [+0] is [+0]. *)
Record HostNumbers (M : MathLib) : Prop := {
  sin_valid : forall x, valid x = true -> valid (sin M x) = true;
  cos_valid : forall x, valid x = true -> valid (cos M x) = true;
  tan_valid : forall x, valid x = true -> valid (tan M x) = true;
  asin_valid : forall x, valid x = true -> valid (asin M x) = true;
  log_valid : forall x, valid x = true -> valid (log M x) = true;
  atan2_nan_r : forall y, atan2 M y NaN = NaN;
  asin_zero : asin M pzero = pzero
}.

(** ** Strings that start with a number *)





(** ** Notions used to reason on the rounding of binary64 operations *)

Local Open Scope Z_scope.

(** The inexact flag of a shift record: a round or sticky bit is set. *)
Definition inexact (mrs : shr_record) : bool := shr_r mrs || shr_s mrs.

(** The result of a rounding from its final mantissa and exponent. *)
Definition pack (s : bool) (m3 e3 : Z) : number :=
  match m3 with
  | Z0 => S754_zero s
  | Zpos p =>
      if e3 <=? emax - prec then S754_finite s p e3 else S754_infinity s
  | Zneg _ => S754_nan
  end.

(** Every exponent met below is at least [-bias], so that [m * 2^e] is the
    integer [scaled m e] in units of [2^-bias]. *)
Definition bias : Z := 2200.

Definition scaled (m e : Z) : Z := m * 2 ^ (e + bias).

(** The magnitude of a finite number, in units of [2^-bias]. *)
Definition mag (x : number) : Z :=
  match x with
  | S754_finite _ m e => scaled (Zpos m) e
  | _ => 0
  end.

Definition sign_bit (x : number) : bool :=
  match x with
  | S754_zero s | S754_infinity s | S754_finite s _ _ => s
  | S754_nan => false
  end.

(** Structural equality of two numbers. *)
Definition same (x y : number) : bool :=
  match x, y with
  | S754_zero a, S754_zero b => Bool.eqb a b
  | S754_infinity a, S754_infinity b => Bool.eqb a b
  | S754_nan, S754_nan => true
  | S754_finite a m e, S754_finite b m' e' =>
      Bool.eqb a b && Pos.eqb m m' && Z.eqb e e'
  | _, _ => false
  end.

(** The integers from [1] to [326], the range of the decimal scale of a
    finite number. *)
Definition scales : list Z := map Z.of_nat (seq 1 326).

(** * Properties *)

(** ** Binary64 rounding: digits, shifts and the rounding step *)

Lemma fexp_eq (x : Z) : fexp prec emax x = Z.max (x - 53) (-1074).
Proof. reflexivity. Qed.

Lemma pow2_pos (k : Z) : 0 <= k -> 0 < 2 ^ k.
Proof. intros H. apply Z.pow_pos_nonneg; lia. Qed.

Lemma pow2_add (a b : Z) : 0 <= a -> 0 <= b -> 2 ^ (a + b) = 2 ^ a * 2 ^ b.
Proof. intros. apply Z.pow_add_r; assumption. Qed.

Lemma pow2_succ (k : Z) : 0 <= k -> 2 ^ (k + 1) = 2 * 2 ^ k.
Proof. intros H. rewrite pow2_add by lia. change (2 ^ 1) with 2. ring. Qed.

Lemma pow2_lt (a b : Z) : 0 <= b -> 2 ^ a < 2 ^ b -> a < b.
Proof. intros Hb H. apply (Z.pow_lt_mono_r_iff 2); lia. Qed.

Lemma pow2_le_mono (a b : Z) : 0 <= a <= b -> 2 ^ a <= 2 ^ b.
Proof. intros H. apply Z.pow_le_mono_r; lia. Qed.

Lemma Zdigits2_pos_bounds (p : positive) :
  2 ^ (Zdigits2 (Zpos p) - 1) <= Zpos p < 2 ^ Zdigits2 (Zpos p).
Proof.
  change (Zdigits2 (Zpos p)) with (Zpos (digits2_pos p)).
  induction p as [p IH | p IH |].
  - change (digits2_pos p~1) with (Pos.succ (digits2_pos p)).
    rewrite Pos2Z.inj_succ.
    replace (Z.succ (Zpos (digits2_pos p)) - 1) with
      (Z.succ (Zpos (digits2_pos p) - 1)) by lia.
    rewrite !Z.pow_succ_r by lia. lia.
  - change (digits2_pos p~0) with (Pos.succ (digits2_pos p)).
    rewrite Pos2Z.inj_succ.
    replace (Z.succ (Zpos (digits2_pos p)) - 1) with
      (Z.succ (Zpos (digits2_pos p) - 1)) by lia.
    rewrite !Z.pow_succ_r by lia. lia.
  - simpl. lia.
Qed.

Lemma Zdigits2_nonneg (m : Z) : 0 <= m -> 0 <= Zdigits2 m.
Proof. destruct m; simpl; lia. Qed.

Lemma Zdigits2_bounds (m : Z) :
  0 < m -> 2 ^ (Zdigits2 m - 1) <= m < 2 ^ Zdigits2 m.
Proof.
  destruct m as [| p | p]; try lia. intros _. apply Zdigits2_pos_bounds.
Qed.

Lemma Zdigits2_unique (m d : Z) :
  0 < m -> 2 ^ (d - 1) <= m < 2 ^ d -> Zdigits2 m = d.
Proof.
  intros Hm [H1 H2]. pose proof (Zdigits2_bounds m Hm) as [H3 H4].
  assert (Hd' : 0 < Zdigits2 m) by (destruct m; simpl; lia).
  assert (Hd : 0 < d).
  { destruct (Z.ltb_spec 0 d) as [|Hd]; [assumption |].
    destruct (Z.eq_dec d 0) as [-> | Hn]; [simpl in H2; lia |].
    rewrite (Z.pow_neg_r 2 d) in H2 by lia. lia. }
  assert (d - 1 < Zdigits2 m) by (apply pow2_lt; lia).
  assert (Zdigits2 m - 1 < d) by (apply pow2_lt; lia).
  lia.
Qed.

Lemma Zdigits2_le_pow (m k : Z) : 0 < m -> m < 2 ^ k -> Zdigits2 m <= k.
Proof.
  intros Hm H. pose proof (Zdigits2_bounds m Hm) as [H3 _].
  assert (Hk : 0 <= k).
  { destruct (Z.leb_spec 0 k); [assumption |].
    rewrite Z.pow_neg_r in H by lia. lia. }
  assert (Zdigits2 m - 1 < k) by (apply pow2_lt; lia). lia.
Qed.

Lemma Zdigits2_ge_pow (m k : Z) : 0 <= k -> 2 ^ k <= m -> k < Zdigits2 m.
Proof.
  intros Hk H. pose proof (pow2_pos k Hk).
  pose proof (Zdigits2_bounds m ltac:(lia)) as [_ H4].
  apply pow2_lt; [apply Zdigits2_nonneg |]; lia.
Qed.

Lemma Zdigits2_shift (m n : Z) :
  0 < m -> 0 <= n < Zdigits2 m -> Zdigits2 (m / 2 ^ n) = Zdigits2 m - n.
Proof.
  intros Hm Hn. pose proof (Zdigits2_bounds m Hm) as [H1 H2].
  pose proof (pow2_pos n ltac:(lia)) as Hp.
  assert (E1 : 2 ^ (Zdigits2 m - 1) = 2 ^ (Zdigits2 m - n - 1) * 2 ^ n).
  { rewrite <- pow2_add by lia. f_equal. lia. }
  assert (E2 : 2 ^ Zdigits2 m = 2 ^ (Zdigits2 m - n) * 2 ^ n).
  { rewrite <- pow2_add by lia. f_equal. lia. }
  assert (L : 2 ^ (Zdigits2 m - n - 1) <= m / 2 ^ n).
  { apply Z.div_le_lower_bound; lia. }
  assert (U : m / 2 ^ n < 2 ^ (Zdigits2 m - n)).
  { apply Z.div_lt_upper_bound; lia. }
  pose proof (pow2_pos (Zdigits2 m - n - 1) ltac:(lia)).
  apply Zdigits2_unique; [lia |]. split; assumption.
Qed.

Lemma shift_small (m n : Z) :
  0 <= m -> Zdigits2 m <= n -> m / 2 ^ n = 0.
Proof.
  intros Hm Hn. destruct (Z.eq_dec m 0) as [-> | Hz].
  - apply Z.div_0_l. pose proof (pow2_pos n ltac:(simpl in Hn; lia)). lia.
  - pose proof (Zdigits2_bounds m ltac:(lia)) as [_ H2].
    apply Z.div_small. split; [lia |].
    assert (0 <= Zdigits2 m) by (apply Zdigits2_nonneg; lia).
    pose proof (pow2_le_mono (Zdigits2 m) n ltac:(lia)). lia.
Qed.

Lemma shr_1_m (mrs : shr_record) :
  0 <= shr_m mrs -> shr_m (shr_1 mrs) = shr_m mrs / 2.
Proof.
  destruct mrs as [m r s]. simpl shr_m. intros Hm.
  rewrite <- Z.div2_div.
  destruct m as [| [p | p |] | p]; try reflexivity; lia.
Qed.

Lemma shr_1_inexact (mrs : shr_record) :
  0 <= shr_m mrs ->
  inexact (shr_1 mrs) = Z.odd (shr_m mrs) || inexact mrs.
Proof.
  destruct mrs as [m r s]. simpl shr_m. intros Hm. unfold inexact.
  destruct m as [| [p | p |] | p]; try reflexivity; lia.
Qed.

Lemma iter_pos_nat {A : Type} (f : A -> A) (p : positive) (x : A) :
  iter_pos f p x = Nat.iter (Pos.to_nat p) f x.
Proof.
  revert x. induction p as [p IH | p IH |]; intros x; simpl iter_pos.
  - rewrite !IH, Pos2Nat.inj_xI. simpl Nat.iter.
    rewrite <- Nat.iter_succ_r. simpl.
    replace (Pos.to_nat p + (Pos.to_nat p + 0))%nat
      with (Pos.to_nat p + Pos.to_nat p)%nat by lia.
    rewrite Nat.iter_add. 
    rewrite <- (Nat.iter_succ_r (Pos.to_nat p)). reflexivity.
  - rewrite !IH, Pos2Nat.inj_xO.
    replace (2 * Pos.to_nat p)%nat
      with (Pos.to_nat p + Pos.to_nat p)%nat by lia.
    rewrite Nat.iter_add. reflexivity.
  - reflexivity.
Qed.

Lemma shr_iter (k : nat) (mrs : shr_record) :
  0 <= shr_m mrs ->
  shr_m (Nat.iter k shr_1 mrs) = shr_m mrs / 2 ^ Z.of_nat k
  /\ (inexact (Nat.iter k shr_1 mrs) = true <->
      shr_m mrs mod 2 ^ Z.of_nat k <> 0 \/ inexact mrs = true).
Proof.
  intros Hm. induction k as [| k [IHm IHi]].
  - simpl Nat.iter. change (2 ^ Z.of_nat 0) with 1.
    rewrite Z.div_1_r, Z.mod_1_r. split; [reflexivity | tauto].
  - simpl Nat.iter.
    assert (Hk : 0 <= shr_m (Nat.iter k shr_1 mrs)).
    { rewrite IHm. apply Z.div_pos; [assumption |]. apply pow2_pos. lia. }
    pose proof (pow2_pos (Z.of_nat k) ltac:(lia)) as Hp.
    rewrite Nat2Z.inj_succ, Z.pow_succ_r by lia.
    split.
    + rewrite shr_1_m by assumption. rewrite IHm.
      rewrite Z.div_div by lia. f_equal. lia.
    + rewrite shr_1_inexact by assumption.
      rewrite orb_true_iff, IHi, IHm.
      rewrite (Z.mul_comm 2), Z.rem_mul_r by lia.
      rewrite <- Z.negb_even, negb_true_iff.
      pose proof (Z.mod_pos_bound (shr_m mrs) (2 ^ Z.of_nat k) Hp).
      pose proof (Zmod_even (shr_m mrs / 2 ^ Z.of_nat k)) as He.
      rewrite He.
      destruct (Z.even (shr_m mrs / 2 ^ Z.of_nat k)).
      * rewrite Z.mul_0_r, Z.add_0_r. intuition discriminate.
      * split; intros _; [left; lia | left; reflexivity].
Qed.

Lemma shr_spec (mrs : shr_record) (e n : Z) :
  0 <= shr_m mrs -> 0 <= n ->
  snd (shr mrs e n) = e + n
  /\ shr_m (fst (shr mrs e n)) = shr_m mrs / 2 ^ n
  /\ (inexact (fst (shr mrs e n)) = true <->
      shr_m mrs mod 2 ^ n <> 0 \/ inexact mrs = true).
Proof.
  intros Hm Hn. destruct n as [| p | p]; try lia.
  - simpl. rewrite Z.add_0_r, Z.div_1_r, Z.mod_1_r. tauto.
  - unfold shr. cbn [fst snd]. rewrite iter_pos_nat.
    pose proof (shr_iter (Pos.to_nat p) mrs Hm) as [H1 H2].
    rewrite positive_nat_Z in H1, H2. tauto.
Qed.

Lemma shr_nonpos (mrs : shr_record) (e n : Z) :
  n <= 0 -> shr mrs e n = (mrs, e).
Proof. intros Hn. destruct n; try reflexivity; lia. Qed.

Lemma shr_record_of_loc_m (m : Z) (l : location) :
  shr_m (shr_record_of_loc m l) = m.
Proof. destruct l as [| []]; reflexivity. Qed.

Lemma shr_record_of_loc_inexact (m : Z) (l : location) :
  inexact (shr_record_of_loc m l) = true <-> l <> loc_Exact.
Proof.
  destruct l as [| []]; unfold inexact; simpl; split; intros H;
    congruence.
Qed.

Lemma round_nearest_even_spec (mrs : shr_record) :
  let m2 := round_nearest_even (shr_m mrs) (loc_of_shr_record mrs) in
  (m2 = shr_m mrs \/ m2 = shr_m mrs + 1)
  /\ (inexact mrs = false -> m2 = shr_m mrs).
Proof.
  destruct mrs as [m [] []]; unfold inexact; simpl;
    try destruct (Z.even m); split; try tauto; intros; try discriminate;
    reflexivity.
Qed.

Lemma binary_round_aux_pack (s : bool) (m e : Z) (l : location) :
  binary_round_aux prec emax s m e l
  = let '(mrs1, e1) := shr_fexp prec emax m e l in
    let m2 := round_nearest_even (shr_m mrs1) (loc_of_shr_record mrs1) in
    let '(mrs3, e3) := shr_fexp prec emax m2 e1 loc_Exact in
    pack s (shr_m mrs3) e3.
Proof.
  unfold binary_round_aux.
  destruct (shr_fexp prec emax m e l) as [mrs1 e1].
  destruct (shr_fexp prec emax _ e1 loc_Exact) as [mrs3 e3].
  reflexivity.
Qed.

(** The renormalisation after the rounding step: at most one more shift. *)
Lemma renormalise_keep (m2 e1 : Z) :
  fexp prec emax (Zdigits2 m2 + e1) - e1 <= 0 ->
  shr_fexp prec emax m2 e1 loc_Exact
  = (shr_record_of_loc m2 loc_Exact, e1).
Proof. intros H. unfold shr_fexp. apply shr_nonpos. assumption. Qed.

Lemma renormalise_half (m2 e1 : Z) :
  0 <= m2 ->
  fexp prec emax (Zdigits2 m2 + e1) - e1 = 1 ->
  shr_m (fst (shr_fexp prec emax m2 e1 loc_Exact)) = m2 / 2
  /\ snd (shr_fexp prec emax m2 e1 loc_Exact) = e1 + 1.
Proof.
  intros Hm H. unfold shr_fexp. rewrite H.
  pose proof (shr_spec (shr_record_of_loc m2 loc_Exact) e1 1) as [A [B _]];
    try (simpl; lia).
  rewrite A, B. simpl shr_m. split; [| reflexivity]. f_equal.
Qed.

Lemma binary_round_aux_spec (s : bool) (m e : Z) (l : location) :
  0 <= m ->
  let n := fexp prec emax (Zdigits2 m + e) - e in
  0 <= n ->
  exists m3 e3,
    binary_round_aux prec emax s m e l = pack s m3 e3
    /\ 0 <= m3
    /\ (m3 = 0 \/ fexp prec emax (Zdigits2 m3 + e3) = e3)
    /\ e + n <= e3 <= e + n + 1
    /\ (m3 * 2 ^ (e3 - e) = m / 2 ^ n * 2 ^ n
        \/ m3 * 2 ^ (e3 - e) = (m / 2 ^ n + 1) * 2 ^ n)
    /\ (l = loc_Exact -> m mod 2 ^ n = 0 -> m3 * 2 ^ (e3 - e) = m).
Proof.
  intros Hm n Hn.
  rewrite binary_round_aux_pack. unfold shr_fexp at 1. fold n.
  pose proof (shr_spec (shr_record_of_loc m l) e n) as [A [B C]];
    try (rewrite ?shr_record_of_loc_m; assumption).
  rewrite shr_record_of_loc_m in B, C.
  rewrite shr_record_of_loc_inexact in C.
  destruct (shr (shr_record_of_loc m l) e n) as [mrs1 e1].
  cbn [fst snd] in A, B, C. cbv zeta.
  pose proof (round_nearest_even_spec mrs1) as [D E]. cbv zeta in D, E.
  remember (round_nearest_even (shr_m mrs1) (loc_of_shr_record mrs1)) as m2
    eqn:Em2.
  remember (shr_m mrs1) as m1 eqn:Em1.
  clear Em2 Em1.
  pose proof (pow2_pos n Hn) as Hp.
  assert (Hm1 : 0 <= m1) by (rewrite B; apply Z.div_pos; lia).
  assert (Hdm : m = 2 ^ n * m1 + m mod 2 ^ n)
    by (rewrite B; apply Z.div_mod; lia).
  pose proof (Z.mod_pos_bound m (2 ^ n) Hp) as Hmod.
  assert (He1 : e1 = Z.max (Zdigits2 m + e - 53) (-1074))
    by (subst n; rewrite fexp_eq in A; lia).
  (* the digits of the shifted mantissa *)
  assert (Hd1 : (m1 = 0 /\ e1 = -1074)
                \/ (0 < m1 /\ Zdigits2 m1 + e1 = Zdigits2 m + e)).
  { destruct (Z.eq_dec m1 0) as [Hz | Hz].
    - left. split; [assumption |].
      assert (Zdigits2 m <= n).
      { destruct (Z.eq_dec m 0) as [-> | Hmz]; [simpl; lia |].
        apply Zdigits2_le_pow; lia. }
      lia.
    - right. split; [lia |].
      assert (n < Zdigits2 m).
      { apply Zdigits2_ge_pow; [assumption |]. nia. }
      rewrite B, Zdigits2_shift by lia. lia. }
  assert (Hexact : l = loc_Exact -> m mod 2 ^ n = 0 -> m2 = m1).
  { intros H1 H2. apply E. destruct (inexact mrs1); [| reflexivity].
    exfalso. destruct C as [C _]. destruct (C eq_refl); tauto. }
  assert (Hshift : forall k, 0 <= k -> 2 ^ (e1 + k - e) = 2 ^ k * 2 ^ n).
  { intros k Hk. rewrite <- pow2_add by lia. f_equal. lia. }
  assert (Hunit : 2 ^ (e1 - e) = 2 ^ n) by (f_equal; lia).
  destruct D as [D | D].
  - (* rounded down *)
    subst m2.
    destruct Hd1 as [[Hz He] | [Hpos Hd]].
    + rewrite Hz. rewrite renormalise_keep
        by (simpl Zdigits2; rewrite fexp_eq; lia).
      exists 0, e1. cbn [shr_m shr_record_of_loc].
      split; [reflexivity |]. split; [lia |]. split; [left; reflexivity |].
      split; [lia |]. split; [left; lia |]. intros; lia.
    + rewrite renormalise_keep by (rewrite fexp_eq; lia).
      exists m1, e1. cbn [shr_m shr_record_of_loc].
      split; [reflexivity |]. split; [lia |].
      split; [right; rewrite fexp_eq; lia |].
      split; [lia |]. rewrite Hunit.
      split; [left; rewrite B; reflexivity |]. intros; lia.
  - (* rounded up *)
    assert (Hne : ~ (l = loc_Exact /\ m mod 2 ^ n = 0)).
    { intros [H1 H2]. specialize (Hexact H1 H2). lia. }
    subst m2.
    destruct Hd1 as [[Hz He] | [Hpos Hd]].
    + rewrite Hz. rewrite renormalise_keep
        by (simpl Zdigits2; rewrite fexp_eq; lia).
      exists 1, e1. cbn [shr_m shr_record_of_loc].
      split; [reflexivity |]. split; [lia |].
      split; [right; simpl Zdigits2; rewrite fexp_eq; lia |].
      split; [lia |]. rewrite Hunit.
      split; [right; rewrite <- B; lia |]. intros; tauto.
    + remember (Zdigits2 m1) as d1 eqn:Ed1.
      pose proof (Zdigits2_bounds m1 Hpos) as [Hb1 Hb2].
      rewrite <- Ed1 in Hb1, Hb2.
      assert (Hd1pos : 0 < d1) by (subst d1; destruct m1; simpl; lia).
      destruct (Z.eq_dec (m1 + 1) (2 ^ d1)) as [Hc | Hc].
      * (* carry into a new digit *)
        assert (Hd2 : Zdigits2 (m1 + 1) = d1 + 1).
        { apply Zdigits2_unique; [lia |].
          replace (d1 + 1 - 1) with d1 by lia.
          rewrite pow2_succ by lia. lia. }
        assert (Hhalf : m1 + 1 = 2 * 2 ^ (d1 - 1)).
        { rewrite Hc. rewrite <- pow2_succ by lia. f_equal. lia. }
        pose proof (pow2_pos (d1 - 1) ltac:(lia)) as Hp1.
        destruct (Z_le_gt_dec (-1074) (Zdigits2 m + e - 53)) as [Hnorm | Hsub].
        -- pose proof (renormalise_half (m1 + 1) e1) as [R1 R2];
             [lia | rewrite Hd2, fexp_eq; lia |].
           destruct (shr_fexp prec emax (m1 + 1) e1 loc_Exact) as [mrs3 e3].
           cbn [fst snd] in R1, R2. exists (2 ^ (d1 - 1)), (e1 + 1).
           rewrite R1, R2.
           assert (Hq : (m1 + 1) / 2 = 2 ^ (d1 - 1)).
           { rewrite Hhalf, Z.mul_comm. apply Z.div_mul. lia. }
           rewrite Hq.
           split; [reflexivity |]. split; [lia |].
           assert (Hd3 : Zdigits2 (2 ^ (d1 - 1)) = d1).
           { apply Zdigits2_unique; [lia |]. split; [lia |].
             apply Z.pow_lt_mono_r; lia. }
           split; [right; rewrite Hd3, fexp_eq; lia |].
           split; [lia |].
           split; [right | intros; tauto].
           rewrite <- B, (Hshift 1) by lia. rewrite Hhalf.
           change (2 ^ 1) with 2. ring.
        -- rewrite renormalise_keep by (rewrite Hd2, fexp_eq; lia).
           exists (m1 + 1), e1. cbn [shr_m shr_record_of_loc].
           split; [reflexivity |]. split; [lia |].
           split; [right; rewrite Hd2, fexp_eq; lia |].
           split; [lia |]. rewrite Hunit.
           split; [right; rewrite <- B; reflexivity | intros; tauto].
      * (* no carry *)
        assert (Hd2 : Zdigits2 (m1 + 1) = d1).
        { apply Zdigits2_unique; lia. }
        rewrite renormalise_keep by (rewrite Hd2, fexp_eq; lia).
        exists (m1 + 1), e1. cbn [shr_m shr_record_of_loc].
        split; [reflexivity |]. split; [lia |].
        split; [right; rewrite Hd2, fexp_eq; lia |].
        split; [lia |]. rewrite Hunit.
        split; [right; rewrite <- B; reflexivity | intros; tauto].
Qed.

(** ** Magnitudes on a common scale *)

Lemma bias_val : bias = 2200.
Proof. reflexivity. Qed.

Lemma bounded_spec (m : positive) (e : Z) :
  bounded prec emax m e = true <->
  Z.max (Zdigits2 (Zpos m) + e - 53) (-1074) = e /\ e <= 971.
Proof.
  unfold bounded, canonical_mantissa. rewrite andb_true_iff, Z.eqb_eq,
    Z.leb_le, fexp_eq. reflexivity.
Qed.

Lemma Zdigits2_pos_pos (m : positive) : 0 < Zdigits2 (Zpos m).
Proof. simpl. lia. Qed.

Lemma scaled_pos (m : positive) (e : Z) : -bias <= e -> 0 < scaled (Zpos m) e.
Proof.
  intros H. unfold scaled. pose proof (pow2_pos (e + bias) ltac:(lia)). lia.
Qed.

Lemma scaled_digits (m e : Z) :
  0 < m -> -bias <= e ->
  2 ^ (Zdigits2 m + e + bias - 1) <= scaled m e
  < 2 ^ (Zdigits2 m + e + bias).
Proof.
  intros Hm He. pose proof (Zdigits2_bounds m Hm) as [H1 H2].
  assert (Hd : 0 < Zdigits2 m) by (destruct m; simpl; lia).
  pose proof (pow2_pos (e + bias) ltac:(lia)) as Hp.
  unfold scaled.
  replace (Zdigits2 m + e + bias - 1) with (Zdigits2 m - 1 + (e + bias))
    by lia.
  replace (Zdigits2 m + e + bias) with (Zdigits2 m + (e + bias)) by lia.
  rewrite (pow2_add (Zdigits2 m - 1)), (pow2_add (Zdigits2 m)) by lia.
  split.
  - apply Z.mul_le_mono_nonneg_r; lia.
  - apply Z.mul_lt_mono_pos_r; lia.
Qed.

(** A larger magnitude has at least as many digits above the scale. *)
Lemma scaled_le_digits (m e mF eF : Z) :
  0 < m -> 0 < mF -> -bias <= e -> -bias <= eF ->
  scaled m e <= scaled mF eF -> Zdigits2 m + e <= Zdigits2 mF + eF.
Proof.
  intros Hm HmF He HeF H.
  pose proof (scaled_digits m e Hm He) as [H1 _].
  pose proof (scaled_digits mF eF HmF HeF) as [_ H2].
  assert (Hd : 0 < Zdigits2 mF) by (destruct mF; simpl; lia).
  assert (Zdigits2 m + e + bias - 1 < Zdigits2 mF + eF + bias)
    by (apply pow2_lt; lia).
  lia.
Qed.

(** Rounding never passes a binary64 number: if the exact value is at most
    the valid number [F] (and below it when the value is known inexactly),
    so is the rounded one, which is then finite and valid. *)
Lemma round_le (s : bool) (m e : Z) (l : location) (mF : positive) (eF : Z) :
  0 <= m -> -bias <= e ->
  0 <= fexp prec emax (Zdigits2 m + e) - e ->
  bounded prec emax mF eF = true ->
  scaled m e <= scaled (Zpos mF) eF ->
  (l <> loc_Exact -> scaled m e < scaled (Zpos mF) eF) ->
  let out := binary_round_aux prec emax s m e l in
  valid out = true /\ is_finite out = true
  /\ mag out <= scaled (Zpos mF) eF
  /\ (l = loc_Exact ->
      m mod 2 ^ (fexp prec emax (Zdigits2 m + e) - e) = 0 ->
      mag out = scaled m e)
  /\ (out = S754_zero s \/ exists m3 e3, out = S754_finite s m3 e3).
Proof.
  intros Hm He Hn HF Hle Hlt out. pose proof bias_val as Hbias.
  apply bounded_spec in HF. destruct HF as [HcF HeF].
  pose proof (Zdigits2_pos_pos mF) as HdF.
  destruct (binary_round_aux_spec s m e l Hm Hn)
    as (m3 & e3 & Hout & Hm3 & Hcan & He3 & HW & Hex).
  fold out in Hout. rewrite fexp_eq in *.
  remember (Z.max (Zdigits2 m + e - 53) (-1074) - e) as n eqn:En.
  remember (e + n) as e1 eqn:Ee1.
  assert (He1F : e1 <= eF).
  { destruct (Z.eq_dec m 0) as [Hz | Hz].
    - subst m. simpl Zdigits2 in *. lia.
    - pose proof (scaled_le_digits m e (Zpos mF) eF) as Hd.
      specialize (Hd ltac:(lia) ltac:(lia) He ltac:(lia) Hle). lia. }
  pose proof (pow2_pos n Hn) as Hpn.
  pose proof (pow2_pos (e + bias) ltac:(lia)) as Hpe.
  pose proof (pow2_pos (eF - e1) ltac:(lia)) as HpF.
  remember (2 ^ (e1 + bias)) as U eqn:EU.
  assert (HU : U = 2 ^ n * 2 ^ (e + bias)).
  { rewrite EU. rewrite <- pow2_add by lia. f_equal. lia. }
  assert (HFU : scaled (Zpos mF) eF = Zpos mF * 2 ^ (eF - e1) * U).
  { unfold scaled. rewrite EU, <- Z.mul_assoc, <- pow2_add by lia.
    do 2 f_equal. lia. }
  assert (Hscaled3 : scaled m3 e3 = m3 * 2 ^ (e3 - e) * 2 ^ (e + bias)).
  { unfold scaled. rewrite <- Z.mul_assoc, <- pow2_add by lia.
    do 2 f_equal. lia. }
  pose proof (Z.div_mod m (2 ^ n) ltac:(lia)) as Hdm.
  pose proof (Z.mod_pos_bound m (2 ^ n) Hpn) as Hmod.
  remember (m / 2 ^ n) as m1 eqn:Em1. remember (m mod 2 ^ n) as r eqn:Er.
  assert (Hbound : scaled m3 e3 <= scaled (Zpos mF) eF).
  { rewrite Hscaled3. rewrite HFU in Hle, Hlt |- *.
    unfold scaled in Hle, Hlt.
    destruct HW as [HW | HW]; rewrite HW.
    - rewrite HU. nia.
    - assert (Hstrict : m1 * U < Zpos mF * 2 ^ (eF - e1) * U).
      { destruct (Z.eq_dec r 0) as [Hr | Hr].
        - destruct l as [| c].
          + specialize (Hex eq_refl Hr). nia.
          + assert (Hl : loc_Inexact c <> loc_Exact) by discriminate.
            specialize (Hlt Hl). rewrite HU in *. nia.
        - rewrite HU in *. nia. }
      assert (m1 < Zpos mF * 2 ^ (eF - e1)).
      { apply (Z.mul_lt_mono_pos_r U); [rewrite EU; apply pow2_pos; lia |].
        assumption. }
      rewrite HU in *. nia. }
  assert (Hexact : l = loc_Exact -> r = 0 -> scaled m3 e3 = scaled m e).
  { intros H1 H2. rewrite Hscaled3, (Hex H1 H2). reflexivity. }
  destruct m3 as [| p3 | p3]; try lia.
  - (* zero *)
    simpl in Hout. rewrite Hout. cbn [valid valid_binary is_finite mag].
    repeat split; try reflexivity; try (left; reflexivity).
    + apply Z.lt_le_incl, scaled_pos. lia.
    + intros H1 H2. specialize (Hexact H1 H2). unfold scaled in Hexact.
      simpl in Hexact. unfold scaled. lia.
  - (* a finite number *)
    destruct Hcan as [Hcan | Hcan]; [discriminate |].
    assert (He3F : e3 <= eF).
    { destruct (Z_le_gt_dec e3 eF) as [| Hgt]; [assumption | exfalso].
      pose proof (Zdigits2_bounds (Zpos p3) ltac:(lia)) as [Hb1 _].
      pose proof (Zdigits2_bounds (Zpos mF) ltac:(lia)) as [_ Hb2].
      assert (Hd3 : Zdigits2 (Zpos p3) = 53) by lia.
      assert (HdF53 : Zdigits2 (Zpos mF) <= 53) by lia.
      rewrite Hd3 in Hb1.
      pose proof (pow2_le_mono (Zdigits2 (Zpos mF)) 53 ltac:(lia)).
      unfold scaled in Hbound.
      replace (e3 + bias) with (e3 - eF + (eF + bias)) in Hbound by lia.
      rewrite (pow2_add (e3 - eF) (eF + bias)) in Hbound by lia.
      pose proof (pow2_pos (eF + bias) ltac:(lia)) as HA.
      pose proof (pow2_le_mono 1 (e3 - eF) ltac:(lia)) as Hp1.
      change (2 ^ 1) with 2 in Hp1. change (53 - 1) with 52 in Hb1.
      assert (E53 : 2 ^ 53 = 2 * 2 ^ 52) by reflexivity.
      remember (2 ^ 52) as T eqn:ET. remember (2 ^ (eF + bias)) as A eqn:EA.
      remember (2 ^ (e3 - eF)) as B eqn:EB.
      assert (H1 : 2 * T <= Zpos p3 * B) by nia.
      assert (H2 : Zpos mF < 2 * T) by lia.
      assert (H3 : 2 * T * A <= Zpos p3 * B * A)
        by (apply Z.mul_le_mono_nonneg_r; lia).
      assert (H4 : Zpos mF * A < 2 * T * A)
        by (apply Z.mul_lt_mono_pos_r; lia).
      lia. }
    assert (Hpk : pack s (Zpos p3) e3 = S754_finite s p3 e3).
    { unfold pack. change (emax - prec) with 971.
      destruct (Z.leb_spec e3 971); [reflexivity | lia]. }
    rewrite Hpk in Hout. rewrite Hout.
    cbn [valid valid_binary is_finite mag].
    split.
    { apply bounded_spec. split; lia. }
    split; [reflexivity |]. split; [assumption |].
    split; [assumption |]. right. eauto.
Qed.

Lemma round_valid (s : bool) (m e : Z) (l : location) :
  0 <= m -> 0 <= fexp prec emax (Zdigits2 m + e) - e ->
  valid (binary_round_aux prec emax s m e l) = true.
Proof.
  intros Hm Hn.
  destruct (binary_round_aux_spec s m e l Hm Hn)
    as (m3 & e3 & Hout & Hm3 & Hcan & _).
  rewrite Hout. unfold pack.
  destruct m3 as [| p | p]; try reflexivity.
  change (emax - prec) with 971.
  destruct (Z.leb_spec e3 971); [| reflexivity].
  destruct Hcan as [Hcan | Hcan]; [discriminate |].
  apply bounded_spec. rewrite fexp_eq in Hcan. split; assumption.
Qed.

(** *** Comparisons and magnitudes of valid numbers *)

Lemma valid_finite_bounds (s : bool) (m : positive) (e : Z) :
  valid (S754_finite s m e) = true ->
  -1074 <= e <= 971 /\ Zpos m < 2 ^ 53 /\ (-1074 < e -> 2 ^ 52 <= Zpos m).
Proof.
  intros H. apply bounded_spec in H. destruct H as [Hc He].
  pose proof (Zdigits2_bounds (Zpos m) ltac:(lia)) as [H1 H2].
  pose proof (Zdigits2_pos_pos m) as Hd.
  split; [lia |]. split.
  - pose proof (pow2_le_mono (Zdigits2 (Zpos m)) 53 ltac:(lia)). lia.
  - intros Hn. assert (Hd53 : Zdigits2 (Zpos m) = 53) by lia.
    rewrite Hd53 in H1. exact H1.
Qed.

(** On valid numbers the order of magnitudes is the lexicographic order of
    exponent and mantissa. *)
Lemma mag_lex (s s' : bool) (m m' : positive) (e e' : Z) :
  valid (S754_finite s m e) = true -> valid (S754_finite s' m' e') = true ->
  (scaled (Zpos m) e <= scaled (Zpos m') e' <->
   e < e' \/ (e = e' /\ (m <= m')%positive))
  /\ (scaled (Zpos m) e < scaled (Zpos m') e' <->
      e < e' \/ (e = e' /\ (m < m')%positive)).
Proof.
  intros Hv Hv'. pose proof bias_val as Hbias.
  destruct (valid_finite_bounds _ _ _ Hv) as (He & Hm & Hn).
  destruct (valid_finite_bounds _ _ _ Hv') as (He' & Hm' & Hn').
  assert (E53 : 2 ^ 53 = 2 * 2 ^ 52) by reflexivity.
  remember (2 ^ 52) as T eqn:ET.
  assert (HT : 0 < T) by (rewrite ET; reflexivity).
  assert (Hstep : forall (a b : positive) (x y : Z),
             -1074 <= x -> x < y -> Zpos a < 2 * T ->
             (-1074 < y -> T <= Zpos b) ->
             scaled (Zpos a) x < scaled (Zpos b) y).
  { intros a b x y Hx Hxy Ha Hb. unfold scaled.
    replace (y + bias) with (y - x + (x + bias)) by lia.
    rewrite (pow2_add (y - x) (x + bias)) by lia.
    pose proof (pow2_pos (x + bias) ltac:(lia)) as HA.
    pose proof (pow2_le_mono 1 (y - x) ltac:(lia)) as HB.
    change (2 ^ 1) with 2 in HB.
    remember (2 ^ (x + bias)) as A. remember (2 ^ (y - x)) as B.
    specialize (Hb ltac:(lia)).
    assert (2 * T <= Zpos b * B) by nia.
    assert (Zpos a * A < 2 * T * A) by (apply Z.mul_lt_mono_pos_r; lia).
    assert (2 * T * A <= Zpos b * B * A)
      by (apply Z.mul_le_mono_nonneg_r; lia).
    lia. }
  rewrite E53 in Hm, Hm'.
  destruct (Z.lt_trichotomy e e') as [Hlt | [Heq | Hgt]].
  - pose proof (Hstep m m' e e' ltac:(lia) Hlt Hm Hn').
    split; split; intros; try lia; left; assumption.
  - subst e'. unfold scaled.
    pose proof (pow2_pos (e + bias) ltac:(lia)) as HA.
    remember (2 ^ (e + bias)) as A.
    split; split; intros H.
    + right. split; [reflexivity |].
      apply Pos2Z.pos_le_pos. nia.
    + destruct H as [H | [_ H]]; [lia |].
      apply Z.mul_le_mono_nonneg_r; lia.
    + right. split; [reflexivity |].
      apply Pos2Z.pos_lt_pos. nia.
    + destruct H as [H | [_ H]]; [lia |].
      apply Z.mul_lt_mono_pos_r; lia.
  - pose proof (Hstep m' m e' e ltac:(lia) Hgt Hm' Hn).
    split; split; intros; lia.
Qed.

Lemma compare_finite_pos (m m' : positive) (e e' : Z) :
  SFcompare (S754_finite false m e) (S754_finite false m' e')
  = Some match e ?= e' with
         | Lt => Lt
         | Gt => Gt
         | Eq => (m ?= m')%positive
         end.
Proof. reflexivity. Qed.

(** [within F y] says that [y] is valid, finite and of magnitude at most
    that of [F]. *)
Lemma within_mag (mF : positive) (eF : Z) (y : number) :
  valid (S754_finite false mF eF) = true ->
  (within (S754_finite false mF eF) y = true <->
   valid y = true /\ is_finite y = true /\ mag y <= scaled (Zpos mF) eF).
Proof.
  intros HF. unfold within. rewrite andb_true_iff.
  pose proof bias_val as Hbias.
  destruct (valid_finite_bounds _ _ _ HF) as (HeF & _).
  destruct y as [s | s | | s m e]; cbn [abs SFabs is_finite mag].
  - split; [intros [H _] | intros [H _]]; split; try assumption;
      try reflexivity. split; [reflexivity |].
    apply Z.lt_le_incl, scaled_pos. lia.
  - split; [intros [_ H]; discriminate H | intros [_ [H _]]; discriminate H].
  - split; [intros [_ H]; discriminate H | intros [_ [H _]]; discriminate H].
  - unfold le, SFleb. rewrite compare_finite_pos.
    split.
    + intros [Hv Hc]. split; [assumption |]. split; [reflexivity |].
      apply (mag_lex s false m mF e eF Hv HF).
      destruct (Z.compare_spec e eF) as [Heq | Hlt | Hgt];
        try discriminate; [right | left; assumption].
      split; [assumption |].
      destruct (Pos.compare_spec m mF); try discriminate; lia.
    + intros (Hv & _ & Hm). split; [assumption |].
      apply (mag_lex s false m mF e eF Hv HF) in Hm.
      destruct Hm as [Hm | [-> Hm]].
      * rewrite (proj2 (Z.compare_lt_iff e eF) Hm). reflexivity.
      * rewrite Z.compare_refl.
        destruct (Pos.compare_spec m mF); try reflexivity; lia.
Qed.

(** *** Alignment and normalisation *)

Lemma iter_xO (p d : positive) :
  Zpos (Pos.iter xO p d) = Zpos p * 2 ^ Zpos d.
Proof.
  induction d as [| d IH] using Pos.peano_ind.
  - change (Pos.iter xO p 1) with (xO p). rewrite Pos2Z.inj_xO.
    change (2 ^ 1) with 2. lia.
  - rewrite Pos.iter_succ, Pos2Z.inj_xO, IH, Pos2Z.inj_succ.
    rewrite Z.pow_succ_r by lia. lia.
Qed.

Lemma shl_align_spec (mx : positive) (ex ex' : Z) :
  (ex' <= ex ->
   Zpos (fst (shl_align mx ex ex')) = Zpos mx * 2 ^ (ex - ex')
   /\ snd (shl_align mx ex ex') = ex')
  /\ (ex <= ex' -> shl_align mx ex ex' = (mx, ex)).
Proof.
  unfold shl_align.
  destruct (ex' - ex) as [| d | d] eqn:E; split; intros H;
    cbn [fst snd]; try reflexivity; try lia.
  - replace (ex - ex') with 0 by lia. split; [| lia].
    change (2 ^ 0) with 1. ring.
  - rewrite iter_xO. split; [| reflexivity]. do 2 f_equal. lia.
Qed.

(** A rounding of the exact value [z * 2^e]. *)
Lemma normalize_spec (z e : Z) (sz : bool) (mF : positive) (eF : Z) :
  -bias <= e ->
  valid (S754_finite false mF eF) = true ->
  Z.abs z * 2 ^ (e + bias) <= scaled (Zpos mF) eF ->
  let out := binary_normalize prec emax z e sz in
  within (S754_finite false mF eF) out = true
  /\ (z = 0 -> out = S754_zero sz)
  /\ (z <> 0 -> sign_bit out = (z <? 0))
  /\ (Z.max (Zdigits2 z + e - 53) (-1074) <= e ->
      mag out = Z.abs z * 2 ^ (e + bias)).
Proof.
  intros He HF Hle out. pose proof bias_val as Hbias.
  assert (Hmain : forall (s : bool) (p : positive),
             Zpos p * 2 ^ (e + bias) <= scaled (Zpos mF) eF ->
             within (S754_finite false mF eF) (binary_round prec emax s p e)
             = true
             /\ sign_bit (binary_round prec emax s p e) = s
             /\ (Z.max (Zdigits2 (Zpos p) + e - 53) (-1074) <= e ->
                 mag (binary_round prec emax s p e)
                 = Zpos p * 2 ^ (e + bias))).
  { intros s p Hp. unfold binary_round.
    pose proof (shl_align_spec p e (fexp prec emax (Zpos (digits2_pos p) + e)))
      as [S1 S2].
    change (Zpos (digits2_pos p)) with (Zdigits2 (Zpos p)) in *.
    rewrite fexp_eq in *.
    destruct (shl_align p e (Z.max (Zdigits2 (Zpos p) + e - 53) (-1074)))
      as [mz ez] eqn:Esh. cbn [fst snd] in S1.
    assert (Hval : scaled (Zpos mz) ez = Zpos p * 2 ^ (e + bias)
                   /\ -bias <= ez
                   /\ Z.max (Zdigits2 (Zpos mz) + ez - 53) (-1074) - ez >= 0
                   /\ (Z.max (Zdigits2 (Zpos p) + e - 53) (-1074) <= e ->
                       Z.max (Zdigits2 (Zpos mz) + ez - 53) (-1074) - ez = 0)).
    { destruct (Z_le_gt_dec (Z.max (Zdigits2 (Zpos p) + e - 53) (-1074)) e)
        as [Hsh | Hsh].
      - destruct (S1 Hsh) as [A B].
        assert (Hdz : Zdigits2 (Zpos mz)
                      = Zdigits2 (Zpos p)
                        + (e - Z.max (Zdigits2 (Zpos p) + e - 53) (-1074))).
        { apply Zdigits2_unique; [lia |]. rewrite A.
          pose proof (Zdigits2_bounds (Zpos p) ltac:(lia)) as [B1 B2].
          pose proof (Zdigits2_pos_pos p).
          remember (e - Z.max (Zdigits2 (Zpos p) + e - 53) (-1074)) as k.
          replace (Zdigits2 (Zpos p) + k - 1)
            with (Zdigits2 (Zpos p) - 1 + k) by lia.
          rewrite (pow2_add (Zdigits2 (Zpos p) - 1)),
            (pow2_add (Zdigits2 (Zpos p))) by lia.
          pose proof (pow2_pos k ltac:(lia)).
          split; [apply Z.mul_le_mono_nonneg_r; lia
                 | apply Z.mul_lt_mono_pos_r; lia]. }
        split.
        { unfold scaled. rewrite A, B.
          rewrite <- Z.mul_assoc, <- pow2_add by lia. do 2 f_equal. lia. }
        split; [lia |]. split; [lia |]. intros _. lia.
      - pose proof (S2 ltac:(lia)) as E. injection E as -> ->.
        split; [reflexivity |]. split; [lia |]. split; lia. }
    destruct Hval as (Hv1 & Hv2 & Hv3 & Hv4).
    pose proof (round_le s (Zpos mz) ez loc_Exact mF eF) as R.
    rewrite fexp_eq in R.
    destruct R as (R1 & R2 & R3 & R4 & R5); try lia; try assumption.
    { congruence. }
    split.
    { apply within_mag; [assumption |]. repeat split; assumption. }
    split.
    { destruct R5 as [-> | (m3 & e3 & ->)]; reflexivity. }
    intros Hx. rewrite R4; [assumption | reflexivity |].
    rewrite (Hv4 Hx). change (2 ^ 0) with 1. apply Z.mod_1_r. }
  destruct z as [| p | p]; unfold out; cbn [binary_normalize].
  - split.
    { apply within_mag; [assumption |]. cbn. repeat split.
      destruct (valid_finite_bounds _ _ _ HF) as (HeF & _).
      apply Z.lt_le_incl, scaled_pos. lia. }
    split; [reflexivity |]. split; [congruence |]. intros _. reflexivity.
  - destruct (Hmain false p Hle) as (A & B & C).
    split; [assumption |]. split; [discriminate |].
    split; [intros _; rewrite B; reflexivity | exact C].
  - destruct (Hmain true p Hle) as (A & B & C).
    split; [assumption |]. split; [discriminate |].
    split; [intros _; rewrite B; reflexivity | exact C].
Qed.

(** *** The arithmetic operations on valid numbers *)

Lemma Zdigits2_mul (a b : positive) :
  Zdigits2 (Zpos a) + Zdigits2 (Zpos b) - 1 <= Zdigits2 (Zpos (a * b)).
Proof.
  pose proof (Zdigits2_bounds (Zpos a) ltac:(lia)) as [A1 _].
  pose proof (Zdigits2_bounds (Zpos b) ltac:(lia)) as [B1 _].
  pose proof (Zdigits2_pos_pos a). pose proof (Zdigits2_pos_pos b).
  pose proof (pow2_pos (Zdigits2 (Zpos a) - 1) ltac:(lia)).
  pose proof (pow2_pos (Zdigits2 (Zpos b) - 1) ltac:(lia)).
  assert (2 ^ (Zdigits2 (Zpos a) - 1 + (Zdigits2 (Zpos b) - 1))
          <= Zpos (a * b)).
  { rewrite pow2_add by lia. rewrite Pos2Z.inj_mul.
    apply Z.mul_le_mono_nonneg; lia. }
  pose proof (Zdigits2_ge_pow (Zpos (a * b))
                (Zdigits2 (Zpos a) - 1 + (Zdigits2 (Zpos b) - 1))
                ltac:(lia) ltac:(assumption)).
  lia.
Qed.

(** The exact product of two valid numbers is never finer than the format
    allows. *)
Lemma mul_exponent (sx sy : bool) (mx my : positive) (ex ey : Z) :
  valid (S754_finite sx mx ex) = true -> valid (S754_finite sy my ey) = true ->
  0 <= fexp prec emax (Zdigits2 (Zpos (mx * my)) + (ex + ey)) - (ex + ey)
  /\ -bias <= ex + ey.
Proof.
  intros Hx Hy. pose proof bias_val as Hbias.
  apply bounded_spec in Hx, Hy. destruct Hx as [Hx _], Hy as [Hy _].
  pose proof (Zdigits2_mul mx my).
  pose proof (Zdigits2_pos_pos mx). pose proof (Zdigits2_pos_pos my).
  rewrite fexp_eq. lia.
Qed.

Lemma mul_valid (x y : number) :
  valid x = true -> valid y = true -> valid (mul x y) = true.
Proof.
  intros Hx Hy.
  destruct x as [sx | sx | | sx mx ex], y as [sy | sy | | sy my ey];
    try reflexivity.
  destruct (mul_exponent sx sy mx my ex ey Hx Hy) as [Hn _].
  apply round_valid; [lia | assumption].
Qed.

Lemma within_zero (mF : positive) (eF : Z) (s : bool) :
  valid (S754_finite false mF eF) = true ->
  within (S754_finite false mF eF) (S754_zero s) = true.
Proof. intros _. reflexivity. Qed.

(** A product stays within every valid bound of the exact product of the
    bounds of its factors. *)
Lemma mul_within (mX mY mF : positive) (eX eY eF : Z) (x y : number) :
  valid (S754_finite false mX eX) = true ->
  valid (S754_finite false mY eY) = true ->
  valid (S754_finite false mF eF) = true ->
  within (S754_finite false mX eX) x = true ->
  within (S754_finite false mY eY) y = true ->
  scaled (Zpos mX) eX * scaled (Zpos mY) eY
  <= scaled (Zpos mF) eF * 2 ^ bias ->
  within (S754_finite false mF eF) (mul x y) = true
  /\ sign_bit (mul x y) = xorb (sign_bit x) (sign_bit y).
Proof.
  intros HX HY HF Hx Hy Hle. pose proof bias_val as Hbias.
  apply within_mag in Hx, Hy; try assumption.
  destruct Hx as (Vx & Fx & Mx), Hy as (Vy & Fy & My).
  destruct x as [sx | sx | | sx mx ex], y as [sy | sy | | sy my ey];
    try discriminate; try (split; reflexivity).
  cbn [mag] in Mx, My.
  destruct (mul_exponent sx sy mx my ex ey Vx Vy) as [Hn He].
  destruct (valid_finite_bounds _ _ _ Vx) as (Bx & _).
  destruct (valid_finite_bounds _ _ _ Vy) as (By & _).
  pose proof (scaled_pos mx ex ltac:(lia)).
  pose proof (scaled_pos my ey ltac:(lia)).
  assert (Hprod : scaled (Zpos (mx * my)) (ex + ey) * 2 ^ bias
                  = scaled (Zpos mx) ex * scaled (Zpos my) ey).
  { unfold scaled. rewrite Pos2Z.inj_mul.
    replace (ex + ey + bias + bias) with ((ex + bias) + (ey + bias)) by lia.
    rewrite <- Z.mul_assoc, <- (pow2_add (ex + ey + bias) bias) by lia.
    replace (ex + ey + bias + bias) with ((ex + bias) + (ey + bias)) by lia.
    rewrite (pow2_add (ex + bias) (ey + bias)) by lia. ring. }
  pose proof (pow2_pos bias ltac:(lia)) as Hb.
  assert (Hs : scaled (Zpos (mx * my)) (ex + ey) <= scaled (Zpos mF) eF).
  { apply (Z.mul_le_mono_pos_r _ _ (2 ^ bias)); [assumption |].
    rewrite Hprod.
    transitivity (scaled (Zpos mX) eX * scaled (Zpos mY) eY);
      [| assumption].
    apply Z.mul_le_mono_nonneg; lia. }
  pose proof (round_le (xorb sx sy) (Zpos (mx * my)) (ex + ey) loc_Exact
                mF eF) as R.
  destruct R as (R1 & R2 & R3 & _ & R5); try assumption; try lia.
  { congruence. }
  change (mul (S754_finite sx mx ex) (S754_finite sy my ey))
    with (binary_round_aux prec emax (xorb sx sy) (Zpos (mx * my)) (ex + ey)
            loc_Exact).
  split.
  - apply within_mag; [assumption |]. repeat split; assumption.
  - destruct R5 as [-> | (m3 & e3 & ->)]; reflexivity.
Qed.

(** The quotient of two valid numbers, before it is rounded: the exponent
    is never finer than the format allows. *)
Lemma div_core_spec (mx my : positive) (ex ey : Z) :
  -1074 <= ex <= 971 -> -1074 <= ey <= 971 ->
  let '(q, e', l) := SFdiv_core_binary prec emax (Zpos mx) ex (Zpos my) ey in
  0 <= q /\ -bias <= e'
  /\ 0 <= fexp prec emax (Zdigits2 q + e') - e'
  /\ exists r, 0 <= r < Zpos my
               /\ Zpos mx * 2 ^ (ex - ey - e') = q * Zpos my + r
               /\ 0 <= ex - ey - e'
               /\ (l = loc_Exact <-> r = 0).
Proof.
  intros Hex Hey. pose proof bias_val as Hbias.
  unfold SFdiv_core_binary.
  set (dx := Zdigits2 (Zpos mx)). set (dy := Zdigits2 (Zpos my)).
  rewrite fexp_eq.
  remember (Z.min (Z.max (dx + ex - (dy + ey) - 53) (-1074)) (ex - ey))
    as e' eqn:Ee'.
  remember (ex - ey - e') as sh eqn:Esh.
  assert (Hsh : 0 <= sh) by lia.
  assert (Hm' : match sh with
                | Z0 => Zpos mx
                | Zpos _ => Z.shiftl (Zpos mx) sh
                | Zneg _ => 0
                end = Zpos mx * 2 ^ sh).
  { destruct sh as [| p | p]; try lia.
    apply Z.shiftl_mul_pow2. lia. }
  rewrite Hm'.
  pose proof (Z_div_mod (Zpos mx * 2 ^ sh) (Zpos my) ltac:(lia)) as Hdiv.
  destruct (Z.div_eucl (Zpos mx * 2 ^ sh) (Zpos my)) as [q r].
  destruct Hdiv as [Hqr Hr].
  pose proof (pow2_pos sh Hsh) as Hp.
  assert (Hq : 0 <= q) by nia.
  split; [assumption |]. split; [lia |]. split.
  - rewrite fexp_eq.
    destruct (Z_le_gt_dec e' (-1074)) as [| Hbig]; [lia |].
    assert (H53 : 53 - dx + dy <= sh) by lia.
    pose proof (Zdigits2_bounds (Zpos mx) ltac:(lia)) as [A1 _].
    pose proof (Zdigits2_bounds (Zpos my) ltac:(lia)) as [_ B2].
    fold dx in A1. fold dy in B2.
    pose proof (Zdigits2_pos_pos mx) as Hdx. fold dx in Hdx.
    pose proof (Zdigits2_pos_pos my) as Hdy. fold dy in Hdy.
    assert (Hlow : 2 ^ 52 * 2 ^ dy <= Zpos mx * 2 ^ sh).
    { rewrite <- pow2_add by lia.
      transitivity (2 ^ (dx - 1) * 2 ^ sh).
      - rewrite <- pow2_add by lia. apply pow2_le_mono. lia.
      - apply Z.mul_le_mono_nonneg_r; lia. }
    assert (Hq52 : 2 ^ 52 <= q).
    { pose proof (pow2_pos dy ltac:(lia)).
      assert (H52 : 0 < 2 ^ 52) by reflexivity.
      remember (2 ^ 52) as T. remember (2 ^ dy) as Dy.
      destruct (Z_le_gt_dec T q); [assumption | exfalso].
      assert (q + 1 <= T) by lia.
      assert ((q + 1) * Zpos my <= T * Zpos my)
        by (apply Z.mul_le_mono_nonneg_r; lia).
      assert (T * Zpos my < T * Dy) by (apply Z.mul_lt_mono_pos_l; lia).
      lia. }
    pose proof (Zdigits2_ge_pow q 52 ltac:(lia) Hq52). lia.
  - exists r. rewrite <- Esh. split; [lia |]. split; [lia |].
    split; [assumption |].
    unfold new_location, new_location_even, new_location_odd.
    destruct (Z.even (Zpos my)); destruct (Z.eqb_spec r 0);
      split; intros; try assumption; try reflexivity; try discriminate;
      try contradiction.
Qed.

Lemma div_valid (x y : number) :
  valid x = true -> valid y = true -> valid (div x y) = true.
Proof.
  intros Hx Hy.
  destruct x as [sx | sx | | sx mx ex], y as [sy | sy | | sy my ey];
    try reflexivity.
  destruct (valid_finite_bounds _ _ _ Hx) as (Bx & _).
  destruct (valid_finite_bounds _ _ _ Hy) as (By & _).
  pose proof (div_core_spec mx my ex ey Bx By) as C.
  unfold div, SFdiv.
  destruct (SFdiv_core_binary prec emax (Zpos mx) ex (Zpos my) ey)
    as [[q e'] l].
  destruct C as (Hq & _ & Hn & _).
  apply round_valid; assumption.
Qed.

(** A quotient stays within every valid bound of the exact quotient of a
    bound of the dividend by a lower bound of the divisor. *)
Lemma div_within (mX mL mF : positive) (eX eL eF : Z) (x y : number) :
  valid (S754_finite false mX eX) = true ->
  valid (S754_finite false mF eF) = true ->
  within (S754_finite false mX eX) x = true ->
  valid y = true -> is_finite y = true ->
  scaled (Zpos mL) eL <= mag y -> -bias <= eL ->
  scaled (Zpos mX) eX * 2 ^ bias
  <= scaled (Zpos mF) eF * scaled (Zpos mL) eL ->
  within (S754_finite false mF eF) (div x y) = true
  /\ sign_bit (div x y) = xorb (sign_bit x) (sign_bit y).
Proof.
  intros HX HF Hx Vy Fy HL HeL Hle. pose proof bias_val as Hbias.
  apply within_mag in Hx; try assumption.
  destruct Hx as (Vx & Fx & Mx).
  pose proof (scaled_pos mL eL HeL) as HLpos.
  destruct y as [sy | sy | | sy my ey]; try discriminate.
  { cbn [mag] in HL. lia. }
  destruct x as [sx | sx | | sx mx ex]; try discriminate.
  { split; reflexivity. }
  cbn [mag] in Mx, HL.
  destruct (valid_finite_bounds _ _ _ Vx) as (Bx & _).
  destruct (valid_finite_bounds _ _ _ Vy) as (By & _).
  pose proof (div_core_spec mx my ex ey Bx By) as C.
  unfold div, SFdiv.
  destruct (SFdiv_core_binary prec emax (Zpos mx) ex (Zpos my) ey)
    as [[q e'] l].
  destruct C as (Hq & He' & Hn & r & Hr & Hqr & Hsh & Hl).
  pose proof (pow2_pos bias ltac:(lia)) as Hb.
  pose proof (scaled_pos mx ex ltac:(lia)) as Hsx.
  pose proof (scaled_pos my ey ltac:(lia)) as Hsy.
  pose proof (scaled_pos mF eF) as HsF.
  destruct (valid_finite_bounds _ _ _ HF) as (BF & _).
  specialize (HsF ltac:(lia)).
  (* q * 2^e' * |y| + r * 2^.. = |x| *)
  assert (Hid : scaled q e' * scaled (Zpos my) ey
                + r * 2 ^ (e' + bias) * 2 ^ (ey + bias)
                = scaled (Zpos mx) ex * 2 ^ bias).
  { assert (Hpw : 2 ^ (ex + bias) * 2 ^ bias
                  = 2 ^ (ex - ey - e') * 2 ^ (e' + bias) * 2 ^ (ey + bias)).
    { rewrite <- !pow2_add by lia. f_equal. lia. }
    unfold scaled.
    rewrite <- (Z.mul_assoc (Zpos mx)), Hpw.
    replace (Zpos mx * (2 ^ (ex - ey - e') * 2 ^ (e' + bias)
                        * 2 ^ (ey + bias)))
      with (Zpos mx * 2 ^ (ex - ey - e') * 2 ^ (e' + bias)
            * 2 ^ (ey + bias)) by ring.
    rewrite Hqr. ring. }
  pose proof (pow2_pos (e' + bias) ltac:(lia)) as Hpe.
  pose proof (pow2_pos (ey + bias) ltac:(lia)) as Hpy.
  assert (Hrz : 0 <= r * 2 ^ (e' + bias) * 2 ^ (ey + bias)) by nia.
  assert (Hrpos : r <> 0 -> 0 < r * 2 ^ (e' + bias) * 2 ^ (ey + bias)) by nia.
  assert (Hchain : scaled (Zpos mx) ex * 2 ^ bias
                   <= scaled (Zpos mF) eF * scaled (Zpos my) ey).
  { transitivity (scaled (Zpos mX) eX * 2 ^ bias).
    - apply Z.mul_le_mono_nonneg_r; lia.
    - transitivity (scaled (Zpos mF) eF * scaled (Zpos mL) eL);
        [assumption |].
      apply Z.mul_le_mono_nonneg_l; lia. }
  assert (Hs : scaled q e' <= scaled (Zpos mF) eF).
  { apply (Z.mul_le_mono_pos_r _ _ (scaled (Zpos my) ey)); lia. }
  assert (Hs' : l <> loc_Exact -> scaled q e' < scaled (Zpos mF) eF).
  { intros Hne. assert (r <> 0) by (intros Hz; apply Hne, Hl, Hz).
    specialize (Hrpos ltac:(assumption)).
    apply (Z.mul_lt_mono_pos_r (scaled (Zpos my) ey)); lia. }
  pose proof (round_le (xorb sx sy) q e' l mF eF) as R.
  destruct R as (R1 & R2 & R3 & _ & R5); try assumption.
  split.
  - apply within_mag; [assumption |]. repeat split; assumption.
  - destruct R5 as [-> | (m3 & e3 & ->)]; reflexivity.
Qed.

Lemma aligned_scaled (m : positive) (e ez : Z) :
  ez <= e -> -bias <= ez ->
  Zpos (fst (shl_align m e ez)) * 2 ^ (ez + bias) = scaled (Zpos m) e.
Proof.
  intros H Hb. destruct (shl_align_spec m e ez) as [S1 _].
  destruct (S1 H) as [A _]. rewrite A. unfold scaled.
  rewrite <- Z.mul_assoc, <- pow2_add by lia. do 2 f_equal. lia.
Qed.

Lemma within_weaken (mX mF : positive) (eX eF : Z) (x : number) :
  valid (S754_finite false mX eX) = true ->
  valid (S754_finite false mF eF) = true ->
  scaled (Zpos mX) eX <= scaled (Zpos mF) eF ->
  within (S754_finite false mX eX) x = true ->
  within (S754_finite false mF eF) x = true.
Proof.
  intros HX HF Hle Hx. apply within_mag in Hx; [| assumption].
  apply within_mag; [assumption |].
  destruct Hx as (A & B & C). repeat split; try assumption. lia.
Qed.

Lemma within_neg (F x : number) : within F (neg x) = within F x.
Proof. destruct x; reflexivity. Qed.

(** Sums and differences stay within every valid bound of the sum of the
    bounds of their operands. *)
Lemma add_sub_within (mX mY mF : positive) (eX eY eF : Z) (x y : number) :
  valid (S754_finite false mX eX) = true ->
  valid (S754_finite false mY eY) = true ->
  valid (S754_finite false mF eF) = true ->
  within (S754_finite false mX eX) x = true ->
  within (S754_finite false mY eY) y = true ->
  scaled (Zpos mX) eX + scaled (Zpos mY) eY <= scaled (Zpos mF) eF ->
  within (S754_finite false mF eF) (add x y) = true
  /\ within (S754_finite false mF eF) (sub x y) = true.
Proof.
  intros HX HY HF Hx Hy Hle. pose proof bias_val as Hbias.
  destruct (valid_finite_bounds _ _ _ HX) as (BX & _).
  destruct (valid_finite_bounds _ _ _ HY) as (BY & _).
  pose proof (scaled_pos mX eX ltac:(lia)) as PX.
  pose proof (scaled_pos mY eY ltac:(lia)) as PY.
  assert (Wx : within (S754_finite false mF eF) x = true)
    by (apply (within_weaken mX mF eX eF); try assumption; lia).
  assert (Wy : within (S754_finite false mF eF) y = true)
    by (apply (within_weaken mY mF eY eF); try assumption; lia).
  assert (Wy' : within (S754_finite false mF eF) (neg y) = true)
    by (rewrite within_neg; assumption).
  apply within_mag in Hx, Hy; try assumption.
  destruct Hx as (Vx & Fx & Mx), Hy as (Vy & Fy & My).
  destruct x as [sx | sx | | sx mx ex], y as [sy | sy | | sy my ey];
    try discriminate.
  - split; destruct sx, sy; reflexivity.
  - split; assumption.
  - split; assumption.
  - cbn [mag] in Mx, My.
    destruct (valid_finite_bounds _ _ _ Vx) as (Bx & _).
    destruct (valid_finite_bounds _ _ _ Vy) as (By & _).
    pose proof (aligned_scaled mx ex (Z.min ex ey) ltac:(lia) ltac:(lia))
      as Ax.
    pose proof (aligned_scaled my ey (Z.min ex ey) ltac:(lia) ltac:(lia))
      as Ay.
    pose proof (pow2_pos (Z.min ex ey + bias) ltac:(lia)) as Hp.
    remember (Zpos (fst (shl_align mx ex (Z.min ex ey)))) as a.
    remember (Zpos (fst (shl_align my ey (Z.min ex ey)))) as b.
    assert (Ha : 0 < a) by (subst a; lia).
    assert (Hb : 0 < b) by (subst b; lia).
    assert (Hsum : (a + b) * 2 ^ (Z.min ex ey + bias)
                   <= scaled (Zpos mF) eF) by lia.
    split.
    + unfold add, SFadd. rewrite <- Heqa, <- Heqb.
      apply normalize_spec; [lia | assumption |].
      transitivity ((a + b) * 2 ^ (Z.min ex ey + bias)); [| assumption].
      apply Z.mul_le_mono_nonneg_r; [lia |].
      destruct sx, sy; cbn [cond_Zopp]; lia.
    + unfold sub, SFsub. rewrite <- Heqa, <- Heqb.
      apply normalize_spec; [lia | assumption |].
      transitivity ((a + b) * 2 ^ (Z.min ex ey + bias)); [| assumption].
      apply Z.mul_le_mono_nonneg_r; [lia |].
      destruct sx, sy; cbn [cond_Zopp]; lia.
Qed.

(** Adding a positive number of at least the magnitude of the other operand
    gives a result that is not negative. *)
Lemma add_pos_sign (mX my : positive) (eX ey : Z) (x : number) :
  valid (S754_finite false mX eX) = true ->
  valid (S754_finite false my ey) = true ->
  within (S754_finite false mX eX) x = true ->
  scaled (Zpos mX) eX <= scaled (Zpos my) ey ->
  sign_bit (add x (S754_finite false my ey)) = false.
Proof.
  intros HX Vy Hx Hle. pose proof bias_val as Hbias.
  apply within_mag in Hx; [| assumption].
  destruct Hx as (Vx & Fx & Mx).
  destruct x as [sx | sx | | sx mx ex]; try discriminate; [reflexivity |].
  cbn [mag] in Mx.
  destruct (valid_finite_bounds _ _ _ Vx) as (Bx & _).
  destruct (valid_finite_bounds _ _ _ Vy) as (By & _).
  pose proof (aligned_scaled mx ex (Z.min ex ey) ltac:(lia) ltac:(lia))
    as Ax.
  pose proof (aligned_scaled my ey (Z.min ex ey) ltac:(lia) ltac:(lia))
    as Ay.
  pose proof (pow2_pos (Z.min ex ey + bias) ltac:(lia)) as Hp.
  unfold add, SFadd.
  remember (Zpos (fst (shl_align mx ex (Z.min ex ey)))) as a.
  remember (Zpos (fst (shl_align my ey (Z.min ex ey)))) as b.
  assert (Hab : a <= b).
  { apply (Z.mul_le_mono_pos_r _ _ (2 ^ (Z.min ex ey + bias)));
      [assumption | lia]. }
  assert (Ha : 0 < a) by (subst a; lia).
  cbn [cond_Zopp].
  remember (cond_Zopp sx a + b) as z.
  assert (Hz : 0 <= z) by (subst z; destruct sx; cbn [cond_Zopp]; lia).
  destruct z as [| p | p]; try lia; [reflexivity |].
  cbn [binary_normalize]. unfold binary_round.
  destruct (shl_align p (Z.min ex ey) _) as [mz ez].
  unfold binary_round_aux.
  destruct (shr_fexp prec emax (Zpos mz) ez loc_Exact) as [mrs1 e1].
  destruct (shr_fexp prec emax _ e1 loc_Exact) as [mrs2 e2].
  destruct (shr_m mrs2); try reflexivity.
  destruct (e2 <=? emax - prec); reflexivity.
Qed.

(** *** The remainder *)

Lemma compare_zero_finite (s : bool) (m : positive) (e : Z) :
  SFcompare (S754_zero s) (S754_finite false m e) = Some Lt.
Proof. reflexivity. Qed.

(** The remainder of a finite, valid, non-negative dividend by a positive
    valid divisor lies in [0, divisor). *)
Lemma fmod_range (d : number) (mY : positive) (eY : Z) :
  valid d = true -> is_finite d = true -> sign_bit d = false ->
  valid (S754_finite false mY eY) = true ->
  le pzero (fmod d (S754_finite false mY eY)) = true
  /\ lt (fmod d (S754_finite false mY eY)) (S754_finite false mY eY) = true.
Proof.
  intros Vd Fd Sd VY. pose proof bias_val as Hbias.
  destruct d as [s | s | | s md ed]; try discriminate.
  { cbn in Sd. subst s. split; reflexivity. }
  cbn in Sd. subst s.
  destruct (valid_finite_bounds _ _ _ Vd) as (Bd & Md & _).
  destruct (valid_finite_bounds _ _ _ VY) as (BY & MY & _).
  unfold fmod.
  remember (Z.min ed eY) as e eqn:Ee.
  rewrite !Z.shiftl_mul_pow2 by lia.
  pose proof (pow2_pos (ed - e) ltac:(lia)) as Hp1.
  pose proof (pow2_pos (eY - e) ltac:(lia)) as Hp2.
  remember (Zpos md * 2 ^ (ed - e)) as N eqn:EN.
  remember (Zpos mY * 2 ^ (eY - e)) as D eqn:ED.
  assert (HN : 0 < N) by nia. assert (HD : 0 < D) by nia.
  pose proof (Z.rem_bound_pos N D ltac:(lia) HD) as [R1 R2].
  destruct (Z.eqb_spec (Z.rem N D) 0) as [Hz | Hnz]; [split; reflexivity |].
  cbn [cond_Zopp].
  remember (Z.rem N D) as r eqn:Er.
  assert (Hr53 : r < 2 ^ 53).
  { destruct (Z_le_gt_dec ed eY).
    - replace (ed - e) with 0 in EN by lia. change (2 ^ 0) with 1 in EN.
      assert (r <= N) by (rewrite Er; apply Z.rem_le; lia). lia.
    - replace (eY - e) with 0 in ED by lia. change (2 ^ 0) with 1 in ED.
      lia. }
  assert (HDs : D * 2 ^ (e + bias) = scaled (Zpos mY) eY).
  { rewrite ED. unfold scaled. rewrite <- Z.mul_assoc, <- pow2_add by lia.
    do 2 f_equal. lia. }
  pose proof (pow2_pos (e + bias) ltac:(lia)) as Hpe.
  pose proof (normalize_spec r e false mY eY ltac:(lia) VY) as Nm.
  cbv zeta in Nm. rewrite Z.abs_eq in Nm by lia.
  destruct Nm as (W & _ & Sg & Ex).
  { rewrite <- HDs. apply Z.mul_le_mono_nonneg_r; lia. }
  specialize (Sg Hnz).
  assert (Hmag : mag (binary_normalize prec emax r e false)
                 < scaled (Zpos mY) eY).
  { rewrite Ex.
    - rewrite <- HDs. apply Z.mul_lt_mono_pos_r; lia.
    - assert (Zdigits2 r <= 53) by (apply Zdigits2_le_pow; lia). lia. }
  apply within_mag in W; [| assumption]. destruct W as (Vo & Fo & _).
  destruct (binary_normalize prec emax r e false) as [s | s | | s m' e'];
    try discriminate.
  - split; reflexivity.
  - cbn in Sg. replace (r <? 0) with false in Sg
      by (symmetry; apply Z.ltb_ge; lia).
    subst s. split; [reflexivity |].
    cbn [mag] in Hmag. unfold lt, SFltb. rewrite compare_finite_pos.
    apply (mag_lex false false m' mY e' eY Vo VY) in Hmag.
    destruct Hmag as [Hm | [-> Hm]].
    + rewrite (proj2 (Z.compare_lt_iff e' eY) Hm). reflexivity.
    + rewrite Z.compare_refl.
      rewrite (proj2 (Pos.compare_lt_iff m' mY) Hm). reflexivity.
Qed.


(** ** Elementary facts on the arithmetic *)

Lemma mul_comm (x y : number) : mul x y = mul y x.
Proof.
  destruct x as [sx|sx| |sx mx ex], y as [sy|sy| |sy my ey]; simpl;
    try reflexivity; try (rewrite xorb_comm; reflexivity).
  rewrite xorb_comm, Pos.mul_comm, Z.add_comm. reflexivity.
Qed.

Lemma mul_nan_r (x : number) : mul x NaN = NaN.
Proof. destruct x; reflexivity. Qed.

Lemma add_nan_r (x : number) : add x NaN = NaN.
Proof. destruct x; reflexivity. Qed.

Lemma sub_nan_l (x : number) : sub NaN x = NaN.
Proof. destruct x; reflexivity. Qed.

Lemma div_nan_l (x : number) : div NaN x = NaN.
Proof. destruct x; reflexivity. Qed.

(** The constructor on two numbers and no radius stores them with the
    default radius. *)
Lemma LngLat_new_numbers (lon lat : number) :
  LngLat_new (VNum lon) (VNum lat) VUndefined = Ok (point lon lat earth_radius).
Proof. reflexivity. Qed.

(** The coercion of a distance or bearing argument never throws when it
    uses the [trim] method. *)
Lemma coerce_with_method_ok (v : value) :
  exists w,
    (if (typeof v =? "number")%string then Ok v
     else c <- and_then (typeof v =? "string")%string
                 (t <- method_trim v ;; Ok (negb (t =? "")%string)) ;;
          Ok (if c then VNum (ToNumber v) else VNum NaN)) = Ok w.
Proof.
  destruct v; simpl; eauto.
Qed.

(** ** The constructor (C2, C3) *)

(** C2.  The stored longitude is decided by a test on the latitude
    argument: a numeric longitude given with a string latitude is stored as
    NaN, and with a numeric latitude the longitude argument is stored as it
    is, whatever it is.  The two fields are not validated independently. *)
Theorem C2_longitude_depends_on_latitude :
  (forall (x : number) (s : string),
     exists p, LngLat_new (VNum x) (VStr s) VUndefined = Ok p
               /\ _lon p = VNum NaN)
  /\ (forall (lon : value) (y : number),
        exists p, LngLat_new lon (VNum y) VUndefined = Ok p
                  /\ _lon p = lon /\ _lat p = VNum y).
Proof.
  split.
  - intros x s. unfold LngLat_new. simpl.
    destruct (Str.trim s =? "")%string; simpl; eexists; split; reflexivity.
  - intros lon y. eexists. split; [reflexivity | split; reflexivity].
Qed.

(** C3.  A string radius makes the constructor throw, and a string first
    bearing makes [intersection] throw: both reach the call of the free
    identifier [trim]. *)
Theorem C3_string_radius_or_bearing_throws (M : MathLib) :
  (forall (lon lat : value) (s : string),
     LngLat_new lon lat (VStr s) = Throw (ReferenceError "trim"))
  /\ (forall (p1 p2 : LngLat) (s : string) (brng2 : value),
        intersection M p1 (VStr s) p2 brng2 = Throw (ReferenceError "trim")).
Proof.
  split.
  - intros lon lat s. unfold LngLat_new.
    destruct lat as [| | b | y | t]; simpl; try reflexivity;
      destruct lon as [| | b' | x | t']; simpl; try reflexivity;
      repeat match goal with
             | |- context [(Str.trim ?u =? "")%string] =>
                 destruct (Str.trim u =? "")%string; simpl
             end; reflexivity.
  - intros p1 p2 s brng2. reflexivity.
Qed.

(** ** Midpoint and destination (C4) *)

(** C4, as stated, fails: the midpoint computed from a point of radius 1737
    has radius 6371. *)
Lemma C4_counterexample :
  exists q, midpointTo RefMath.lib moon_point origin = Ok q
            /\ _radius moon_point = VNum (of_Z 1737)
            /\ _radius q = VNum (of_Z 6371).
Proof. eexists. split; [vm_compute; reflexivity | split; reflexivity]. Qed.

(** C4, amended.  From a point with numeric coordinates, [midpointTo] and
    [destinationPoint] (with a numeric bearing) return a point of the
    default radius 6371, whatever the radius of the receiver. *)
Theorem C4_results_have_default_radius (M : MathLib) (this other : LngLat)
  (lat1 lon1 lat2 b : number) (dist : value) :
  _lat this = VNum lat1 -> _lon this = VNum lon1 -> _lat other = VNum lat2 ->
  (exists q, midpointTo M this other = Ok q /\ _radius q = VNum earth_radius)
  /\ (exists q, destinationPoint M this (VNum b) dist = Ok q
                /\ _radius q = VNum earth_radius).
Proof.
  intros H1 H2 H3. split.
  - unfold midpointTo. rewrite H1, H2, H3. cbn [method_toRad bind].
    rewrite LngLat_new_numbers. eexists. split; reflexivity.
  - unfold destinationPoint.
    destruct (coerce_with_method_ok dist) as [w Hw]. rewrite Hw.
    rewrite H1, H2. cbn [method_toRad bind].
    rewrite LngLat_new_numbers. eexists. split; reflexivity.
Qed.

Lemma C4_results_have_default_radius_witness :
  (exists q, midpointTo RefMath.lib moon_point origin = Ok q
             /\ _radius q = VNum earth_radius)
  /\ (exists q, destinationPoint RefMath.lib moon_point (VNum (of_Z 90))
                  (VStr "100") = Ok q
                /\ _radius q = VNum earth_radius).
Proof.
  apply (C4_results_have_default_radius RefMath.lib moon_point origin
           one pzero pzero (of_Z 90) (VStr "100")); reflexivity.
Defined.

(** ** Intersection of two paths (C8) *)

(** C8.  From (50 N, 0 E) on bearing 60 and from (60 N, 0 E) on bearing 120
    the two paths cross near (54.0935 N, 14.7451 E): this is the point
    [intersection] returns when the second point is moved by a millionth
    of a degree to the east or to the west.  For the two points themselves
    no test for [null] fires and the point returned has NaN for both
    coordinates.  The points are 10 degrees apart; the arguments of the
    two arc cosines are rounded to 1.0000000000000007 and
    -1.0000000000000002, so both arc cosines are NaN, and only the first
    of them, [brngA], is replaced ([if (isNaN(brngA)) brngA = 0]): the
    second angle is NaN.  Two paths along the equator, both on bearing 90,
    are collinear, and the first point is returned, not [null]: the first
    angle is 0 but the sine of the second one is
    -1.2246467991473532e-16. *)
Theorem C8_intersection_returns_NaN_coordinates :
  let p1 := point pzero (of_Z 50) earth_radius in
  let p2 := point pzero (of_Z 60) earth_radius in
  let east := point (of_dec 1 (-6)) (of_Z 60) earth_radius in
  let west := point (neg (of_dec 1 (-6))) (of_Z 60) earth_radius in
  let lat1 := toRad (of_Z 50) in
  let lat2 := toRad (of_Z 60) in
  let dist12 := angular_distance RefMath.lib lat1 pzero lat2 pzero in
  let argA := div (sub (sin RefMath.lib lat2)
                       (mul (sin RefMath.lib lat1) (cos RefMath.lib dist12)))
                  (mul (sin RefMath.lib dist12) (cos RefMath.lib lat1)) in
  let argB := div (sub (sin RefMath.lib lat1)
                       (mul (sin RefMath.lib lat2) (cos RefMath.lib dist12)))
                  (mul (sin RefMath.lib dist12) (cos RefMath.lib lat2)) in
  let ten_east := point (of_Z 10) pzero earth_radius in
  let equator :=
    path_angles RefMath.lib pzero pzero pzero (toRad (of_Z 10))
      (angular_distance RefMath.lib pzero pzero pzero (toRad (of_Z 10)))
      (toRad (of_Z 90)) (toRad (of_Z 90)) in
  intersection RefMath.lib p1 (VNum (of_Z 60)) p2 (VNum (of_Z 120))
  = Ok (Some (point NaN NaN earth_radius))
  /\ (exists x y,
        intersection RefMath.lib p1 (VNum (of_Z 60)) east (VNum (of_Z 120))
        = Ok (Some (point x y earth_radius))
        /\ Str.NumberToString x = "14.745152258459292"
        /\ Str.NumberToString y = "54.0934916339202")
  /\ (exists x y,
        intersection RefMath.lib p1 (VNum (of_Z 60)) west (VNum (of_Z 120))
        = Ok (Some (point x y earth_radius))
        /\ Str.NumberToString x = "14.745151090271355"
        /\ Str.NumberToString y = "54.09349140679301")
  /\ (Str.NumberToString dist12 = "0.17453292519943286"
      /\ Str.NumberToString argA = "1.0000000000000007"
      /\ Str.NumberToString argB = "-1.0000000000000002"
      /\ acos RefMath.lib argA = NaN
      /\ acos RefMath.lib argB = NaN
      /\ snd (path_angles RefMath.lib lat1 pzero lat2 pzero dist12
                (toRad (of_Z 60)) (toRad (of_Z 120))) = NaN)
  /\ intersection RefMath.lib origin (VNum (of_Z 90)) ten_east
       (VNum (of_Z 90))
     = Ok (Some origin)
  /\ (fst equator = pzero
      /\ Str.NumberToString (sin RefMath.lib (snd equator))
         = "-1.2246467991473532e-16").
Proof.
  cbv zeta. split; [vm_compute; reflexivity |].
  split; [eexists; eexists; split; [vm_compute; reflexivity |];
          split; vm_compute; reflexivity |].
  split; [eexists; eexists; split; [vm_compute; reflexivity |];
          split; vm_compute; reflexivity |].
  split; [repeat split; vm_compute; reflexivity |].
  split; [vm_compute; reflexivity |].
  split; vm_compute; reflexivity.
Qed.

(** ** Rhumb lines *)

(** For points with numeric coordinates and radius, [rhumbDistanceTo]
    formats the rhumb-line distance of the specification: both give the
    same result, whatever the fuel. *)
Lemma rhumbDistanceTo_formula (M : MathLib) (fuel : nat)
  (this other : LngLat) (lat1 lon1 lat2 lon2 R : number) :
  _lat this = VNum lat1 -> _lon this = VNum lon1 -> _radius this = VNum R ->
  _lat other = VNum lat2 -> _lon other = VNum lon2 ->
  rhumbDistanceTo M fuel this other
  = toPrecisionFixed M fuel (spec_rhumb_distance M lat1 lon1 lat2 lon2 R)
      (of_Z 4).
Proof.
  intros H1 H2 H3 H4 H5. unfold rhumbDistanceTo.
  rewrite H1, H2, H3, H4, H5. cbn [method_toRad bind ToNumber].
  unfold spec_rhumb_distance, spec_q, spec_dPhi, spec_dLon_short.
  rewrite (mul_comm R).
  destruct (isNaN (div (toRad (sub lat2 lat1)) _)); reflexivity.
Qed.

Lemma RefMath_NaNPropagation : NaNPropagation RefMath.lib.
Proof. split; reflexivity. Qed.

(** *** Validity of sums and differences *)

Lemma binary_round_valid (s : bool) (p : positive) (e : Z) :
  valid (binary_round prec emax s p e) = true.
Proof.
  unfold binary_round.
  pose proof (shl_align_spec p e (fexp prec emax (Zpos (digits2_pos p) + e)))
    as [S1 S2].
  change (Zpos (digits2_pos p)) with (Zdigits2 (Zpos p)) in *.
  rewrite fexp_eq in *.
  destruct (shl_align p e (Z.max (Zdigits2 (Zpos p) + e - 53) (-1074)))
    as [mz ez] eqn:Esh. cbn [fst snd] in S1.
  apply round_valid; [lia |]. rewrite fexp_eq.
  destruct (Z_le_gt_dec (Z.max (Zdigits2 (Zpos p) + e - 53) (-1074)) e)
    as [Hsh | Hsh].
  - destruct (S1 Hsh) as [A B].
    assert (Hdz : Zdigits2 (Zpos mz)
                  = Zdigits2 (Zpos p)
                    + (e - Z.max (Zdigits2 (Zpos p) + e - 53) (-1074))).
    { apply Zdigits2_unique; [lia |]. rewrite A.
      pose proof (Zdigits2_bounds (Zpos p) ltac:(lia)) as [B1 B2].
      pose proof (Zdigits2_pos_pos p).
      remember (e - Z.max (Zdigits2 (Zpos p) + e - 53) (-1074)) as k.
      replace (Zdigits2 (Zpos p) + k - 1)
        with (Zdigits2 (Zpos p) - 1 + k) by lia.
      rewrite (pow2_add (Zdigits2 (Zpos p) - 1)),
        (pow2_add (Zdigits2 (Zpos p))) by lia.
      pose proof (pow2_pos k ltac:(lia)).
      split; [apply Z.mul_le_mono_nonneg_r; lia
             | apply Z.mul_lt_mono_pos_r; lia]. }
    lia.
  - pose proof (S2 ltac:(lia)) as E. injection E as -> ->. lia.
Qed.

Lemma normalize_valid (z e : Z) (sz : bool) :
  valid (binary_normalize prec emax z e sz) = true.
Proof.
  destruct z; cbn [binary_normalize]; [reflexivity | |];
    apply binary_round_valid.
Qed.

Lemma add_valid (x y : number) :
  valid x = true -> valid y = true -> valid (add x y) = true.
Proof.
  intros Hx Hy.
  destruct x as [sx | sx | | sx mx ex], y as [sy | sy | | sy my ey];
    try reflexivity; try assumption;
    try (destruct sx, sy; reflexivity).
  apply normalize_valid.
Qed.

Lemma sub_valid (x y : number) :
  valid x = true -> valid y = true -> valid (sub x y) = true.
Proof.
  intros Hx Hy.
  destruct x as [sx | sx | | sx mx ex], y as [sy | sy | | sy my ey];
    try reflexivity; try assumption;
    try (destruct sx, sy; reflexivity).
  apply normalize_valid.
Qed.

Lemma toRad_valid (x : number) : valid x = true -> valid (toRad x) = true.
Proof.
  intros H. unfold toRad. apply div_valid; [| reflexivity].
  apply mul_valid; [assumption | reflexivity].
Qed.

Lemma within_finite (mF : positive) (eF : Z) (y : number) :
  within (S754_finite false mF eF) y = true ->
  valid y = true /\ is_finite y = true /\ isNaN y = false.
Proof.
  unfold within. rewrite andb_true_iff. intros [V L].
  destruct y; try discriminate; repeat split; assumption.
Qed.

(** *** The constants of the program as bounds *)

Lemma one_eq : one = S754_finite false 4503599627370496 (-52).
Proof. reflexivity. Qed.

Lemma two_eq : two = S754_finite false 4503599627370496 (-51).
Proof. reflexivity. Qed.

Lemma PI_eq : PI = S754_finite false 7074237752028440 (-51).
Proof. reflexivity. Qed.

Lemma n180_eq : of_Z 180 = S754_finite false 6333186975989760 (-45).
Proof. reflexivity. Qed.

Lemma n360_eq : of_Z 360 = S754_finite false 6333186975989760 (-44).
Proof. reflexivity. Qed.

Lemma n566_eq : of_Z 566 = S754_finite false 4978588650569728 (-43).
Proof. reflexivity. Qed.

Lemma n181_eq : of_Z 181 = S754_finite false 6368371348078592 (-45).
Proof. reflexivity. Qed.

Lemma n541_eq : of_Z 541 = S754_finite false 4758686325014528 (-43).
Proof. reflexivity. Qed.

Lemma n750_eq : of_Z 750 = S754_finite false 6597069766656000 (-43).
Proof. reflexivity. Qed.

Lemma n326_eq : of_Z 326 = S754_finite false 5735052650479616 (-44).
Proof. reflexivity. Qed.

Lemma LOG10E_eq : LOG10E = S754_finite false 7823553867474190 (-54).
Proof. reflexivity. Qed.

(** ** Ranges of the quantities of the program *)

Ltac by_computation := apply Z.leb_le; vm_compute; reflexivity.

Lemma unit_mul (x y : number) :
  within one x = true -> within one y = true ->
  within one (mul x y) = true
  /\ sign_bit (mul x y) = xorb (sign_bit x) (sign_bit y).
Proof.
  rewrite one_eq. intros Hx Hy.
  apply (mul_within 4503599627370496 4503599627370496 4503599627370496
           (-52) (-52) (-52)); try reflexivity; try assumption;
    try by_computation.
Qed.

Lemma unit_sub (x y : number) :
  within one x = true -> within one y = true ->
  within two (sub x y) = true.
Proof.
  rewrite one_eq, two_eq. intros Hx Hy.
  apply (add_sub_within 4503599627370496 4503599627370496 4503599627370496
           (-52) (-52) (-51)); try reflexivity; try assumption;
    try by_computation.
Qed.

(** An angle of [-PI, PI] is at most 181 degrees in magnitude. *)
Lemma toDeg_within (b : number) :
  within PI b = true -> within (of_Z 181) (toDeg b) = true.
Proof.
  rewrite PI_eq, n181_eq. intros Hb. unfold toDeg.
  assert (H1 : within (S754_finite false 4978588650569728 (-43))
                 (mul b (of_Z 180)) = true).
  { apply (mul_within 7074237752028440 6333186975989760 4978588650569728
             (-51) (-45) (-43)); try reflexivity; try assumption;
      try by_computation. }
  rewrite PI_eq.
  apply (div_within 4978588650569728 7074237752028440 6368371348078592
           (-43) (-51) (-45)); try reflexivity; try assumption;
    try by_computation.
Qed.

(** [(t + 360) % 360] for a [t] of at most 181 in magnitude lies in
    [0, 360). *)
Lemma normalise_degrees (t : number) :
  within (of_Z 181) t = true ->
  le pzero (fmod (add t (of_Z 360)) (of_Z 360)) = true
  /\ lt (fmod (add t (of_Z 360)) (of_Z 360)) (of_Z 360) = true.
Proof.
  rewrite n181_eq, n360_eq. intros Ht.
  assert (Hd : within (S754_finite false 4758686325014528 (-43))
                 (add t (S754_finite false 6333186975989760 (-44))) = true).
  { apply (add_sub_within 6368371348078592 6333186975989760 4758686325014528
             (-45) (-44) (-43)); try reflexivity; try assumption;
      try by_computation. }
  assert (Hs : sign_bit (add t (S754_finite false 6333186975989760 (-44)))
               = false).
  { apply (add_pos_sign 6368371348078592 6333186975989760 (-45) (-44));
      try reflexivity; try assumption; try by_computation. }
  apply within_finite in Hd. destruct Hd as (Vd & Fd & _).
  apply fmod_range; try assumption. reflexivity.
Qed.

Section Bearing.

Variable M : MathLib.
Hypothesis HM : BoundedRanges M.

(** The initial bearing in degrees, from latitudes and a longitude
    difference in radians that are finite numbers. *)
Lemma bearing_range (lat1 lat2 dLon : number) :
  valid lat1 = true -> valid lat2 = true -> valid dLon = true ->
  is_finite lat1 = true -> is_finite lat2 = true -> is_finite dLon = true ->
  let y := mul (sin M dLon) (cos M lat2) in
  let x := sub (mul (cos M lat1) (sin M lat2))
               (mul (mul (sin M lat1) (cos M lat2)) (cos M dLon)) in
  let r := fmod (add (toDeg (atan2 M y x)) (of_Z 360)) (of_Z 360) in
  le pzero r = true /\ lt r (of_Z 360) = true.
Proof.
  intros V1 V2 V3 F1 F2 F3 y x r.
  pose proof (sin_range M HM lat1 V1 F1) as S1.
  pose proof (sin_range M HM lat2 V2 F2) as S2.
  pose proof (sin_range M HM dLon V3 F3) as S3.
  pose proof (cos_range M HM lat1 V1 F1) as C1.
  pose proof (cos_range M HM lat2 V2 F2) as C2.
  pose proof (cos_range M HM dLon V3 F3) as C3.
  assert (Hy : within one y = true) by (apply unit_mul; assumption).
  assert (Hx : within two x = true).
  { apply unit_sub; [apply unit_mul; assumption |].
    apply unit_mul; [apply unit_mul |]; assumption. }
  rewrite one_eq in Hy. rewrite two_eq in Hx.
  apply within_finite in Hy, Hx.
  destruct Hy as (Vy & _ & Ny), Hx as (Vx & _ & Nx).
  pose proof (atan2_range M HM y x Vy Vx Ny Nx) as Hb.
  apply normalise_degrees, toDeg_within, Hb.
Qed.

End Bearing.

(** ** The reference Math library meets the assumptions *)

Lemma valid_abs (x : number) : valid (abs x) = valid x.
Proof. destruct x; reflexivity. Qed.

Lemma valid_neg (x : number) : valid (neg x) = valid x.
Proof. destruct x; reflexivity. Qed.

Lemma neg_involutive (x : number) : neg (neg x) = x.
Proof. destruct x as [[] | [] | | [] m e]; reflexivity. Qed.

Lemma within_with_sign (F x : number) (s : bool) :
  within F (RefMath.with_sign s x) = within F x.
Proof. destruct s; [apply within_neg | reflexivity]. Qed.

Lemma scaled_one : scaled 4503599627370496 (-52) = 2 ^ bias.
Proof. vm_compute. reflexivity. Qed.

(** A fixed-point value of at most [k] in magnitude rounds to a number
    within the bound [k]. *)
Lemma of_fx_within (k : Z) (mF : positive) (eF : Z) (z : Z) :
  valid (S754_finite false mF eF) = true ->
  k * 2 ^ bias <= scaled (Zpos mF) eF ->
  Z.abs z <= k * RefMath.fx_one ->
  within (S754_finite false mF eF) (RefMath.of_fx z) = true.
Proof.
  intros HF Hk Hz. pose proof bias_val as Hbias.
  unfold RefMath.of_fx.
  apply normalize_spec; [change RefMath.P with 160; lia | assumption |].
  transitivity (k * 2 ^ bias); [| assumption].
  replace (2 ^ bias) with (RefMath.fx_one * 2 ^ (- RefMath.P + bias)).
  - rewrite Z.mul_assoc. apply Z.mul_le_mono_nonneg_r; [| assumption].
    apply Z.lt_le_incl, pow2_pos. change RefMath.P with 160. lia.
  - unfold RefMath.fx_one. rewrite Z.shiftl_mul_pow2, Z.mul_1_l
      by (change RefMath.P with 160; lia).
    rewrite <- pow2_add by (change RefMath.P with 160; lia).
    f_equal; lia.
Qed.

Lemma clamp1_bound (z : Z) : Z.abs (RefMath.clamp1 z) <= 1 * RefMath.fx_one.
Proof.
  unfold RefMath.clamp1.
  assert (0 < RefMath.fx_one) by reflexivity. lia.
Qed.

Lemma clamp_log_bound (z : Z) :
  Z.abs (RefMath.clamp_log z) <= 750 * RefMath.fx_one.
Proof.
  unfold RefMath.clamp_log.
  assert (0 < RefMath.fx_one) by reflexivity. lia.
Qed.

Lemma unit_of_fx (z : Z) :
  within one (RefMath.of_fx (RefMath.clamp1 z)) = true.
Proof.
  rewrite one_eq.
  apply (of_fx_within 1); [reflexivity | | apply clamp1_bound].
  rewrite scaled_one. lia.
Qed.

Lemma tiny_within_one (s : bool) (m : positive) (e : Z) :
  valid (S754_finite s m e) = true -> RefMath.tiny m e = true ->
  within one (S754_finite s m e) = true.
Proof.
  intros V T. pose proof bias_val as Hbias. rewrite one_eq.
  apply within_mag; [reflexivity |]. split; [assumption |].
  split; [reflexivity |]. cbn [mag]. rewrite scaled_one.
  destruct (valid_finite_bounds _ _ _ V) as (Be & _).
  pose proof (scaled_digits (Zpos m) e ltac:(lia) ltac:(lia)) as [_ H].
  unfold RefMath.tiny in T. apply Z.ltb_lt in T.
  change (Zpos (digits2_pos m)) with (Zdigits2 (Zpos m)) in T.
  pose proof (Zdigits2_pos_pos m).
  pose proof (pow2_le_mono (Zdigits2 (Zpos m) + e + bias) bias ltac:(lia)).
  lia.
Qed.

Lemma clamp_pi_within (u : number) :
  valid u = true -> within PI (RefMath.clamp_pi u) = true.
Proof.
  intros V. unfold RefMath.clamp_pi.
  destruct (le (abs u) PI) eqn:E; [| reflexivity].
  unfold within. rewrite V, E. reflexivity.
Qed.

Lemma RefMath_SpecialValues : SpecialValues RefMath.lib.
Proof. split; reflexivity. Qed.

Lemma RefMath_OddSine : OddSine RefMath.lib.
Proof.
  intros x. destruct x as [s | s | | s m e]; try reflexivity.
  cbn [neg SFopp sin RefMath.lib RefMath.sin abs SFabs].
  destruct (RefMath.tiny m e); [reflexivity |].
  destruct s; cbn [negb RefMath.with_sign]; [| reflexivity].
  symmetry. apply neg_involutive.
Qed.

Lemma RefMath_BoundedRanges : BoundedRanges RefMath.lib.
Proof.
  split.
  - intros x V F. destruct x as [s | s | | s m e]; try discriminate;
      [reflexivity |].
    cbn [sin RefMath.lib RefMath.sin].
    destruct (RefMath.tiny m e) eqn:T.
    + apply tiny_within_one; assumption.
    + rewrite within_with_sign. apply unit_of_fx.
  - intros x V F. destruct x as [s | s | | s m e]; try discriminate;
      [reflexivity |].
    cbn [cos RefMath.lib RefMath.cos]. apply unit_of_fx.
  - intros y x Vy Vx Ny Nx.
    cbn [atan2 RefMath.lib].
    destruct y as [sy | sy | | sy my ey], x as [sx | sx | | sx mx ex];
      try discriminate; cbn [RefMath.atan2];
      lazymatch goal with
      | |- context [RefMath.angle_of] => idtac
      | _ => destruct sy, sx; vm_compute; reflexivity
      end.
    rewrite within_with_sign. apply clamp_pi_within.
    destruct sx; [apply normalize_valid |].
    destruct (_ <? _); [| apply normalize_valid].
    apply div_valid; rewrite valid_abs; assumption.
  - intros m e V. cbn [log RefMath.lib RefMath.log].
    rewrite n750_eq.
    apply (of_fx_within 750); [reflexivity | | apply clamp_log_bound].
    by_computation.
Qed.

(** ** Initial bearing (C6) *)

(** C6, as stated, fails: a latitude of 1e308 is finite, its conversion to
    radians overflows, and the bearing from that point is NaN, which is not
    in [0, 360). *)
Lemma C6_counterexample :
  is_finite (of_dec 1 308) = true
  /\ bearingTo RefMath.lib far_point origin = Ok NaN
  /\ le pzero NaN = false.
Proof. split; [reflexivity |]. split; [vm_compute |]; reflexivity. Qed.

(** C6, amended.  For two points whose coordinates are binary64 numbers
    such that the two latitudes and the difference of the longitudes remain
    finite when converted to radians, [bearingTo] returns a number of
    [0, 360). *)
Theorem C6_bearingTo_range (M : MathLib) (this other : LngLat)
  (lat1 lon1 lat2 lon2 : number) :
  BoundedRanges M ->
  _lat this = VNum lat1 -> _lon this = VNum lon1 ->
  _lat other = VNum lat2 -> _lon other = VNum lon2 ->
  valid lat1 = true -> valid lon1 = true ->
  valid lat2 = true -> valid lon2 = true ->
  is_finite (toRad lat1) = true -> is_finite (toRad lat2) = true ->
  is_finite (toRad (sub lon2 lon1)) = true ->
  exists b, bearingTo M this other = Ok b
            /\ le pzero b = true /\ lt b (of_Z 360) = true.
Proof.
  intros HM H1 H2 H3 H4 V1 V2 V3 V4 F1 F2 F3.
  unfold bearingTo. rewrite H1, H2, H3, H4.
  cbn [method_toRad bind ToNumber].
  eexists. split; [reflexivity |].
  apply (bearing_range M HM); try assumption;
    apply toRad_valid; try assumption.
  apply sub_valid; assumption.
Qed.

Lemma C6_bearingTo_range_witness :
  exists b, bearingTo RefMath.lib london moon_point = Ok b
            /\ le pzero b = true /\ lt b (of_Z 360) = true.
Proof.
  apply (C6_bearingTo_range RefMath.lib london moon_point
           (of_dec 515136 (-4)) (neg (of_dec 983 (-4))) one pzero
           RefMath_BoundedRanges); reflexivity.
Defined.

(** ** Great-circle distance (C1, C7) *)

Lemma sub_diag (x : number) : is_finite x = true -> sub x x = pzero.
Proof.
  destruct x as [[] | s | | s m e]; try discriminate; try reflexivity.
  intros _. unfold sub, SFsub. rewrite Z.sub_diag. reflexivity.
Qed.

Lemma mul_zero_r (x : number) (s : bool) :
  is_finite x = true -> mul x (S754_zero s) = S754_zero (xorb (sign_bit x) s).
Proof. destruct x; try discriminate; reflexivity. Qed.

Section DistanceToSelf.

Variable M : MathLib.
Hypothesis HS : SpecialValues M.
Hypothesis HR : BoundedRanges M.

(** The haversine term of a point with itself is [+0]. *)
Lemma haversine_self (lat lon : number) :
  valid lat = true -> is_finite lat = true -> is_finite lon = true ->
  add (mul (sin M (div (sub lat lat) two)) (sin M (div (sub lat lat) two)))
      (mul (mul (mul (cos M lat) (cos M lat)) (sin M (div (sub lon lon) two)))
           (sin M (div (sub lon lon) two)))
  = pzero.
Proof.
  intros V F1 F2. rewrite !sub_diag by assumption.
  change (div pzero two) with pzero.
  replace (sin M pzero) with pzero by (symmetry; apply (sin_zero M HS)).
  pose proof (cos_range M HR lat V F1) as C.
  destruct (unit_mul _ _ C C) as [W S].
  rewrite xorb_nilpotent in S.
  rewrite one_eq in W. apply within_finite in W. destruct W as (_ & Fc & _).
  change pzero with (S754_zero false).
  rewrite (mul_zero_r _ false Fc), S. reflexivity.
Qed.

Lemma distance_self_is_zero (lat lon R : number) :
  valid lat = true -> is_finite lat = true -> is_finite lon = true ->
  is_finite R = true ->
  exists s,
    mul R
      (mul two
         (atan2 M
            (sqrt
               (add (mul (sin M (div (sub lat lat) two))
                         (sin M (div (sub lat lat) two)))
                    (mul (mul (mul (cos M lat) (cos M lat))
                              (sin M (div (sub lon lon) two)))
                         (sin M (div (sub lon lon) two)))))
            (sqrt
               (sub one
                  (add (mul (sin M (div (sub lat lat) two))
                            (sin M (div (sub lat lat) two)))
                       (mul (mul (mul (cos M lat) (cos M lat))
                                 (sin M (div (sub lon lon) two)))
                            (sin M (div (sub lon lon) two))))))))
    = S754_zero s.
Proof.
  intros V F1 F2 FR. rewrite haversine_self by assumption.
  change (sqrt pzero) with pzero.
  change (sqrt (sub one pzero)) with (S754_finite false 4503599627370496 (-52)).
  replace (atan2 M pzero (S754_finite false 4503599627370496 (-52)))
    with pzero by (symmetry; apply (atan2_zero_pos M HS)).
  change (mul two pzero) with (S754_zero false).
  rewrite (mul_zero_r R false FR). eexists. reflexivity.
Qed.

End DistanceToSelf.

(** Formatting a zero with four digits. *)
Lemma toPrecisionFixed_zero (M : MathLib) (s : bool) (fuel : nat) :
  (5 <= fuel)%nat ->
  toPrecisionFixed M fuel (S754_zero s) (of_Z 4) = Ok "0.0000"%string.
Proof.
  intros H. do 5 (destruct fuel as [| fuel]; [lia |]).
  destruct s; reflexivity.
Qed.

(** C1, as stated, fails: at the origin the distance of a point to itself
    is formatted as ["0.0000"], never as ["0.000"]; and from a point whose
    latitude (1e308) overflows in radians it is ["NaN"]. *)
Lemma C1_counterexample :
  distanceTo RefMath.lib 5 origin origin VUndefined = Ok "0.0000"%string
  /\ ~ (exists fuel, distanceTo RefMath.lib fuel origin origin VUndefined
                     = Ok "0.000"%string)
  /\ is_finite (of_dec 1 308) = true
  /\ distanceTo RefMath.lib 5 far_point far_point VUndefined
     = Ok "NaN"%string.
Proof.
  split; [vm_compute; reflexivity |]. split.
  - intros [fuel H].
    do 5 (destruct fuel as [| fuel]; [vm_compute in H; discriminate H |]).
    vm_compute in H. discriminate H.
  - split; [reflexivity | vm_compute; reflexivity].
Qed.

(** C1, amended.  For every point whose latitude, longitude and radius are
    finite binary64 numbers, and whose latitude and longitude remain finite
    when converted to radians, [distanceTo] of the point to itself with the
    default precision returns ["0.0000"]. *)
Theorem C1_distanceTo_self (M : MathLib) (p : LngLat) (lat lon R : number)
  (fuel : nat) :
  SpecialValues M -> BoundedRanges M ->
  _lat p = VNum lat -> _lon p = VNum lon -> _radius p = VNum R ->
  valid lat = true ->
  is_finite (toRad lat) = true -> is_finite (toRad lon) = true ->
  is_finite R = true ->
  (5 <= fuel)%nat ->
  distanceTo M fuel p p VUndefined = Ok "0.0000"%string.
Proof.
  intros HS HR H1 H2 H3 V F1 F2 F3 Hf.
  unfold distanceTo. rewrite H1, H2, H3.
  cbn [typeof String.eqb Ascii.eqb Bool.eqb method_toRad bind ToNumber].
  destruct (distance_self_is_zero M HS HR (toRad lat) (toRad lon) R
              (toRad_valid lat V) F1 F2 F3) as [s Hs].
  rewrite Hs. apply toPrecisionFixed_zero. assumption.
Qed.

Lemma C1_distanceTo_self_witness :
  distanceTo RefMath.lib 5 london london VUndefined = Ok "0.0000"%string.
Proof.
  apply (C1_distanceTo_self RefMath.lib london (of_dec 515136 (-4))
           (neg (of_dec 983 (-4))) earth_radius 5
           RefMath_SpecialValues RefMath_BoundedRanges);
    try reflexivity; try lia.
Defined.

(** *** Symmetry *)

Lemma round_aux_opp (s : bool) (m e : Z) (l : location) :
  binary_round_aux prec emax (negb s) m e l
  = neg (binary_round_aux prec emax s m e l).
Proof.
  unfold binary_round_aux.
  destruct (shr_fexp prec emax m e l) as [mrs1 e1].
  destruct (shr_fexp prec emax _ e1 loc_Exact) as [mrs2 e2].
  destruct (shr_m mrs2); try reflexivity.
  destruct (e2 <=? emax - prec); reflexivity.
Qed.

Lemma normalize_opp (z e : Z) :
  z <> 0 ->
  binary_normalize prec emax (- z) e false
  = neg (binary_normalize prec emax z e false).
Proof.
  intros Hz. destruct z as [| p | p]; [contradiction | |];
    cbn [Z.opp binary_normalize]; unfold binary_round;
    destruct (shl_align p e _) as [mz ez].
  - apply (round_aux_opp false).
  - rewrite (round_aux_opp false). symmetry. apply neg_involutive.
Qed.

Lemma mul_neg_r (x y : number) : mul x (neg y) = neg (mul x y).
Proof.
  destruct x as [sx | sx | | sx mx ex], y as [sy | sy | | sy my ey];
    cbn [neg SFopp mul SFmul]; try reflexivity;
    try (destruct sx, sy; reflexivity).
  rewrite <- round_aux_opp. f_equal. destruct sx, sy; reflexivity.
Qed.

Lemma mul_neg_l (x y : number) : mul (neg x) y = neg (mul x y).
Proof. rewrite mul_comm, mul_neg_r, mul_comm. reflexivity. Qed.

Lemma mul_neg_neg (x y : number) : mul (neg x) (neg y) = mul x y.
Proof. rewrite mul_neg_l, mul_neg_r. apply neg_involutive. Qed.

Lemma div_neg_l (x y : number) : div (neg x) y = neg (div x y).
Proof.
  destruct x as [sx | sx | | sx mx ex], y as [sy | sy | | sy my ey];
    cbn [neg SFopp div SFdiv]; try reflexivity;
    try (destruct sx, sy; reflexivity).
  destruct (SFdiv_core_binary prec emax (Zpos mx) ex (Zpos my) ey)
    as [[q e'] l].
  rewrite <- round_aux_opp. f_equal. destruct sx, sy; reflexivity.
Qed.

(** Exchanging the operands of a difference changes its sign, or nothing
    when the difference is [+0] both ways. *)
Lemma sub_exchange (x y : number) :
  sub y x = sub x y \/ sub y x = neg (sub x y).
Proof.
  destruct x as [sx | sx | | sx mx ex], y as [sy | sy | | sy my ey];
    try (left; reflexivity); try (right; reflexivity);
    try (destruct sx, sy; (left; reflexivity) || (right; reflexivity)).
  unfold sub, SFsub. rewrite (Z.min_comm ey ex).
  remember (cond_Zopp sx (Zpos (fst (shl_align mx ex (Z.min ex ey))))) as a.
  remember (cond_Zopp sy (Zpos (fst (shl_align my ey (Z.min ex ey))))) as b.
  destruct (Z.eq_dec (a - b) 0) as [Hz | Hz].
  - left. replace (b - a) with 0 by lia. rewrite Hz. reflexivity.
  - right. replace (b - a) with (- (a - b)) by lia.
    apply normalize_opp. assumption.
Qed.

Section Symmetry.

Variable M : MathLib.
Hypothesis Hodd : OddSine M.

Lemma sin_half_neg (u : number) :
  sin M (div (neg u) two) = neg (sin M (div u two)).
Proof. rewrite div_neg_l. apply Hodd. Qed.

(** The haversine term does not depend on the order of the two points. *)
Lemma haversine_symmetric (lat1 lon1 lat2 lon2 : number) :
  add (mul (sin M (div (sub lat2 lat1) two)) (sin M (div (sub lat2 lat1) two)))
      (mul (mul (mul (cos M lat1) (cos M lat2))
                (sin M (div (sub lon2 lon1) two)))
           (sin M (div (sub lon2 lon1) two)))
  = add (mul (sin M (div (sub lat1 lat2) two))
             (sin M (div (sub lat1 lat2) two)))
        (mul (mul (mul (cos M lat2) (cos M lat1))
                  (sin M (div (sub lon1 lon2) two)))
             (sin M (div (sub lon1 lon2) two))).
Proof.
  rewrite (mul_comm (cos M lat2) (cos M lat1)).
  destruct (sub_exchange lat1 lat2) as [E1 | E1];
    destruct (sub_exchange lon1 lon2) as [E2 | E2];
    rewrite E1, E2; rewrite ?sin_half_neg;
    rewrite ?mul_neg_r, ?mul_neg_l, ?neg_involutive; reflexivity.
Qed.

End Symmetry.

(** C7, as stated, fails: between the origin (radius 6371) and a point one
    degree north of it on a sphere of radius 1737, the distance is
    ["111.2"] one way and ["30.32"] the other. *)
Lemma C7_counterexample :
  distanceTo RefMath.lib 10 origin moon_point VUndefined
  = Ok "111.2"%string
  /\ distanceTo RefMath.lib 10 moon_point origin VUndefined
     = Ok "30.32"%string.
Proof. split; vm_compute; reflexivity. Qed.

(** C7, amended.  For two points of the same radius, [distanceTo] gives the
    same result in both directions (the same string, or the same exception
    when a coordinate is not a number), provided the sine of the host is an
    odd function. *)
Theorem C7_distanceTo_symmetric_same_radius (M : MathLib) (fuel : nat)
  (p1 p2 : LngLat) (precision : value) :
  OddSine M ->
  _radius p1 = _radius p2 ->
  distanceTo M fuel p1 p2 precision = distanceTo M fuel p2 p1 precision.
Proof.
  intros Hodd HR. unfold distanceTo. rewrite HR.
  destruct (_lat p1) as [| | b1 | x1 | s1];
    try (destruct (_lat p2), (_lon p2); reflexivity).
  destruct (_lon p1) as [| | b2 | y1 | s2];
    try (destruct (_lat p2), (_lon p2); reflexivity).
  destruct (_lat p2) as [| | b3 | x2 | s3]; try reflexivity.
  destruct (_lon p2) as [| | b4 | y2 | s4]; try reflexivity.
  cbn [method_toRad bind].
  rewrite (haversine_symmetric M Hodd (toRad x1) (toRad y1) (toRad x2)
             (toRad y2)).
  reflexivity.
Qed.

Lemma C7_distanceTo_symmetric_same_radius_witness :
  distanceTo RefMath.lib 10 origin london VUndefined
  = distanceTo RefMath.lib 10 london origin VUndefined.
Proof.
  apply (C7_distanceTo_symmetric_same_radius RefMath.lib 10 origin london
           VUndefined RefMath_OddSine).
  reflexivity.
Defined.

(** ** Fixed-point formatting (C5) *)

Lemma same_eq (x y : number) : same x y = true -> x = y.
Proof.
  destruct x as [a | a | | a m e], y as [b | b | | b m' e'];
    try discriminate; cbn [same]; intros H; try reflexivity.
  - apply Bool.eqb_prop in H. congruence.
  - apply Bool.eqb_prop in H. congruence.
  - apply andb_true_iff in H. destruct H as [H H3].
    apply andb_true_iff in H. destruct H as [H1 H2].
    apply Bool.eqb_prop in H1. apply Pos.eqb_eq in H2. apply Z.eqb_eq in H3.
    congruence.
Qed.

Lemma in_scales (k : Z) : 1 <= k <= 326 -> In k scales.
Proof.
  intros H. unfold scales. apply in_map_iff. exists (Z.to_nat k).
  split; [lia |]. apply in_seq. lia.
Qed.

(** Counting down and up by one is exact on the small integers, and so is
    the difference of a scale and a shorter length. *)
Lemma count_down_table :
  forallb (fun k => gt (of_Z k) pzero
                    && same (sub (of_Z k) one) (of_Z (k - 1))) scales
  = true.
Proof. vm_compute. reflexivity. Qed.

Lemma count_up_table :
  forallb (fun k => lt (of_Z (- k)) pzero
                    && negb (gt (of_Z (- k)) pzero)
                    && same (add (of_Z (- k)) one) (of_Z (- k + 1))) scales
  = true.
Proof. vm_compute. reflexivity. Qed.

Lemma difference_table :
  forallb (fun c =>
             forallb (fun j => same (sub (of_Z c) (of_Z (c - j))) (of_Z j))
               (map Z.of_nat (seq 1 (Z.to_nat c)))) scales
  = true.
Proof. vm_compute. reflexivity. Qed.

Lemma count_down (k : Z) :
  1 <= k <= 326 ->
  gt (of_Z k) pzero = true /\ sub (of_Z k) one = of_Z (k - 1).
Proof.
  intros H. pose proof count_down_table as T.
  rewrite forallb_forall in T. specialize (T k (in_scales k H)).
  apply andb_true_iff in T. destruct T as [T1 T2].
  split; [assumption | apply same_eq, T2].
Qed.

Lemma count_up (k : Z) :
  1 <= k <= 326 ->
  lt (of_Z (- k)) pzero = true /\ gt (of_Z (- k)) pzero = false
  /\ add (of_Z (- k)) one = of_Z (- k + 1).
Proof.
  intros H. pose proof count_up_table as T.
  rewrite forallb_forall in T. specialize (T k (in_scales k H)).
  apply andb_true_iff in T. destruct T as [T T3].
  apply andb_true_iff in T. destruct T as [T1 T2].
  apply negb_true_iff in T2.
  repeat split; [assumption | assumption | apply same_eq, T3].
Qed.

Lemma difference_small (c len : Z) :
  1 <= c <= 326 -> 0 <= len < c ->
  sub (of_Z c) (of_Z len) = of_Z (c - len).
Proof.
  intros Hc Hl. pose proof difference_table as T.
  rewrite forallb_forall in T. specialize (T c (in_scales c Hc)).
  rewrite forallb_forall in T. specialize (T (c - len)).
  replace (c - (c - len)) with len in T by lia.
  apply same_eq, T. apply in_map_iff. exists (Z.to_nat (c - len)).
  split; [lia |]. apply in_seq. lia.
Qed.

(** [while (l-- > 0) n = n + '0'] ends when [l] is a small integer, with
    the same string whatever fuel is left. *)
Lemma pad_right_terminates (k : nat) :
  forall n : string,
    (k <= 326)%nat ->
    exists n', forall fuel, (k < fuel)%nat ->
                            pad_right fuel (of_Z (Z.of_nat k)) n = Ok n'.
Proof.
  induction k as [| k IH]; intros n Hk.
  - exists n. intros fuel Hf. destruct fuel as [| fuel]; [lia |]. reflexivity.
  - destruct (IH (n ++ "0")%string ltac:(lia)) as [n' Hn'].
    exists n'. intros fuel Hf. destruct fuel as [| fuel]; [lia |].
    destruct (count_down (Z.of_nat (S k)) ltac:(lia)) as [G D].
    cbn [pad_right]. rewrite G, D.
    replace (Z.of_nat (S k) - 1) with (Z.of_nat k) by lia.
    apply Hn'. lia.
Qed.

(** [while (scale++ < 0) n = '0' + n] ends when [scale] is a small
    integer. *)
Lemma pad_left_terminates (k : nat) :
  forall n : string,
    (k <= 326)%nat ->
    exists n', forall fuel, (k < fuel)%nat ->
                            pad_left fuel (of_Z (- Z.of_nat k)) n = Ok n'.
Proof.
  induction k as [| k IH]; intros n Hk.
  - exists n. intros fuel Hf. destruct fuel as [| fuel]; [lia |]. reflexivity.
  - destruct (IH ("0" ++ n)%string ltac:(lia)) as [n' Hn'].
    exists n'. intros fuel Hf. destruct fuel as [| fuel]; [lia |].
    destruct (count_up (Z.of_nat (S k)) ltac:(lia)) as (G & _ & D).
    cbn [pad_left]. rewrite G, D.
    replace (- Z.of_nat (S k) + 1) with (- Z.of_nat k) by lia.
    apply Hn'. lia.
Qed.

Lemma scaled_326 : scaled 5735052650479616 (-44) = 326 * 2 ^ bias.
Proof. vm_compute. reflexivity. Qed.

Lemma scaled_2p53 : scaled 4503599627370496 1 = 2 ^ 53 * 2 ^ bias.
Proof. vm_compute. reflexivity. Qed.

(** The ceiling of a number of magnitude at most 326 is a zero or a small
    integer. *)
Lemma ceil_small (v : number) :
  within (of_Z 326) v = true ->
  (exists s, ceil v = S754_zero s)
  \/ (exists c, 1 <= c <= 326 /\ (ceil v = of_Z c \/ ceil v = of_Z (- c))).
Proof.
  rewrite n326_eq. intros W. pose proof bias_val as Hbias.
  apply within_mag in W; [| reflexivity]. destruct W as (V & Fi & Mg).
  destruct v as [s | s | | s m e]; try discriminate.
  { left. exists s. reflexivity. }
  cbn [mag] in Mg. rewrite scaled_326 in Mg. unfold scaled in Mg.
  destruct (valid_finite_bounds _ _ _ V) as (Be & Bm & Bn).
  pose proof (pow2_pos (e + bias) ltac:(lia)) as Hp.
  unfold ceil. destruct (Z.leb_spec 0 e) as [He | He].
  - exfalso. specialize (Bn ltac:(lia)).
    pose proof (pow2_le_mono bias (e + bias) ltac:(lia)) as Hq.
    pose proof (pow2_pos bias ltac:(lia)) as Hb.
    change (2 ^ 52) with 4503599627370496 in Bn.
    remember (2 ^ bias) as Q. remember (2 ^ (e + bias)) as P. nia.
  - assert (Hk : Zpos m <= 326 * 2 ^ (- e)).
    { apply (Z.mul_le_mono_pos_r _ _ (2 ^ (e + bias))); [assumption |].
      rewrite <- Z.mul_assoc, <- pow2_add by lia.
      replace (- e + (e + bias)) with bias by lia. exact Mg. }
    pose proof (pow2_pos (- e) ltac:(lia)) as Hpk.
    rewrite Z.shiftr_div_pow2 by lia.
    destruct s; cbn [signedZ cond_Zopp].
    + rewrite Z.opp_involutive.
      assert (Hq : 0 <= Zpos m / 2 ^ (- e) <= 326).
      { split; [apply Z.div_pos; lia |].
        apply Z.div_le_upper_bound; lia. }
      destruct (Z.eqb_spec (- (Zpos m / 2 ^ (- e))) 0) as [E | E].
      * left. exists true. reflexivity.
      * right. exists (Zpos m / 2 ^ (- e)). split; [lia |].
        right. reflexivity.
    + change (- Z.pos m) with (Zneg m).
      assert (Hq : -326 <= Zneg m / 2 ^ (- e) < 0).
      { split; [apply Z.div_le_lower_bound; lia |].
        apply Z.div_lt_upper_bound; lia. }
      destruct (Z.eqb_spec (- (Zneg m / 2 ^ (- e))) 0) as [E | E]; [lia |].
      right. exists (- (Zneg m / 2 ^ (- e))). split; [lia |].
      left. reflexivity.
Qed.

(** The decimal scale of a positive finite number. *)
Lemma scale_small (M : MathLib) (m : positive) (e : Z) :
  BoundedRanges M -> valid (S754_finite false m e) = true ->
  within (of_Z 326) (mul (log M (S754_finite false m e)) LOG10E) = true.
Proof.
  intros HR V. pose proof (log_range M HR m e V) as L.
  rewrite n750_eq in L. rewrite n326_eq, LOG10E_eq.
  destruct (mul_within 6597069766656000 7823553867474190 5735052650479616
              (-43) (-54) (-44) (log M (S754_finite false m e))
              (S754_finite false 7823553867474190 (-54))) as [W _];
    try reflexivity; try assumption; try by_computation.
Qed.

(** An integer below [2^53] is a number exactly. *)
Lemma of_Z_small_exact (c : Z) :
  0 < c < 2 ^ 53 ->
  exists m e, of_Z c = S754_finite false m e
              /\ valid (S754_finite false m e) = true
              /\ scaled (Zpos m) e = c * 2 ^ bias.
Proof.
  intros Hc. pose proof bias_val as Hbias.
  pose proof (pow2_pos bias ltac:(lia)) as Hb.
  destruct (normalize_spec c 0 false 4503599627370496 1)
    as (W & _ & Sg & Mg); [lia | reflexivity | |].
  { rewrite scaled_2p53. replace (0 + bias) with bias by lia.
    apply Z.mul_le_mono_nonneg_r; lia. }
  fold (of_Z c) in W, Sg, Mg.
  apply within_mag in W; [| reflexivity]. destruct W as (V & Fi & _).
  specialize (Sg ltac:(lia)).
  assert (Hd : Z.max (Zdigits2 c + 0 - 53) (-1074) <= 0).
  { pose proof (Zdigits2_le_pow c 53 ltac:(lia) ltac:(lia)). lia. }
  specialize (Mg Hd).
  replace (0 + bias) with bias in Mg by lia.
  replace (Z.abs c) with c in Mg by lia.
  destruct (Z.ltb_spec c 0); [lia |].
  destruct (of_Z c) as [s | s | | s m e]; try discriminate.
  - cbn [mag] in Mg. lia.
  - cbn [sign_bit] in Sg. subst s. exists m, e. repeat split; assumption.
Qed.

(** An integer of at least [2^53] rounds to a number of at least [2^52],
    or to +Infinity. *)
Lemma of_Z_large (c : Z) :
  2 ^ 53 <= c ->
  of_Z c = S754_infinity false
  \/ exists m e, of_Z c = S754_finite false m e
                 /\ valid (S754_finite false m e) = true
                 /\ 2 ^ 52 * 2 ^ bias <= scaled (Zpos m) e.
Proof.
  intros Hc. pose proof bias_val as Hbias.
  destruct c as [| p | p]; try (change (2 ^ 53) with 9007199254740992 in Hc; lia).
  unfold of_Z. cbn [binary_normalize]. unfold binary_round.
  pose proof (shl_align_spec p 0 (fexp prec emax (Zpos (digits2_pos p) + 0)))
    as [_ S2].
  change (Zpos (digits2_pos p)) with (Zdigits2 (Zpos p)) in *.
  rewrite fexp_eq in *.
  pose proof (Zdigits2_ge_pow (Zpos p) 53 ltac:(lia) Hc) as Hd.
  pose proof (Zdigits2_bounds (Zpos p) ltac:(lia)) as [B1 B2].
  rewrite (S2 ltac:(lia)).
  destruct (binary_round_aux_spec false (Zpos p) 0 loc_Exact ltac:(lia))
    as (m3 & e3 & Hout & Hm3 & Hcan & He3 & Hval & _).
  { rewrite fexp_eq. lia. }
  rewrite fexp_eq in He3, Hval.
  replace (Z.max (Zdigits2 (Zpos p) + 0 - 53) (-1074) - 0)
    with (Zdigits2 (Zpos p) - 53) in * by lia.
  remember (Zdigits2 (Zpos p) - 53) as n eqn:En.
  pose proof (pow2_pos n ltac:(lia)) as Hpn.
  assert (Hq : 2 ^ 52 <= Zpos p / 2 ^ n).
  { apply Z.div_le_lower_bound; [assumption |].
    rewrite <- pow2_add by lia.
    replace (n + 52) with (Zdigits2 (Zpos p) - 1) by lia. exact B1. }
  assert (Hlow : 2 ^ 52 * 2 ^ n <= m3 * 2 ^ (e3 - 0)).
  { change (2 ^ 52) with 4503599627370496 in *.
    destruct Hval as [-> | ->]; apply Z.mul_le_mono_nonneg_r; lia. }
  replace (e3 - 0) with e3 in Hlow by lia.
  pose proof (pow2_pos e3 ltac:(lia)) as Hpe.
  rewrite Hout. unfold pack.
  destruct m3 as [| q | q]; try lia.
  change (emax - prec) with 971.
  destruct (Z.leb_spec e3 971) as [Hle | Hgt]; [| left; reflexivity].
  right. exists q, e3. split; [reflexivity |]. split.
  - destruct Hcan as [Hcan | Hcan]; [discriminate |].
    apply bounded_spec. rewrite fexp_eq in Hcan. split; assumption.
  - unfold scaled. rewrite (pow2_add e3 bias) by lia.
    pose proof (pow2_pos bias ltac:(lia)) as Hb.
    pose proof (pow2_le_mono 0 n ltac:(lia)) as Hn1.
    change (2 ^ 0) with 1 in Hn1.
    rewrite Z.mul_assoc. apply Z.mul_le_mono_nonneg_r; [lia |].
    change (2 ^ 52) with 4503599627370496 in *. nia.
Qed.

(** The difference of a positive number and one at least as large is not
    positive. *)
Lemma sub_le_not_positive (mx my : positive) (ex ey : Z) :
  valid (S754_finite false mx ex) = true ->
  valid (S754_finite false my ey) = true ->
  scaled (Zpos mx) ex <= scaled (Zpos my) ey ->
  gt (sub (S754_finite false mx ex) (S754_finite false my ey)) pzero = false.
Proof.
  intros Vx Vy Hle. pose proof bias_val as Hbias.
  destruct (valid_finite_bounds _ _ _ Vx) as (Bx & _).
  destruct (valid_finite_bounds _ _ _ Vy) as (By & _).
  pose proof (aligned_scaled mx ex (Z.min ex ey) ltac:(lia) ltac:(lia))
    as Ax.
  pose proof (aligned_scaled my ey (Z.min ex ey) ltac:(lia) ltac:(lia))
    as Ay.
  pose proof (pow2_pos (Z.min ex ey + bias) ltac:(lia)) as Hp.
  unfold sub, SFsub.
  remember (Zpos (fst (shl_align mx ex (Z.min ex ey)))) as a.
  remember (Zpos (fst (shl_align my ey (Z.min ex ey)))) as b.
  assert (Hab : a <= b).
  { apply (Z.mul_le_mono_pos_r _ _ (2 ^ (Z.min ex ey + bias)));
      [assumption | lia]. }
  cbn [cond_Zopp].
  remember (a - b) as z.
  destruct z as [| p | p]; try lia; [reflexivity |].
  cbn [binary_normalize]. unfold binary_round.
  destruct (shl_align p (Z.min ex ey) _) as [mz ez].
  unfold binary_round_aux.
  destruct (shr_fexp prec emax (Zpos mz) ez loc_Exact) as [mrs1 e1].
  destruct (shr_fexp prec emax _ e1 loc_Exact) as [mrs2 e2].
  destruct (shr_m mrs2); try reflexivity.
  destruct (e2 <=? emax - prec); reflexivity.
Qed.

(** [scale - n.length] is not positive when the string is at least as long
    as the scale. *)
Lemma difference_not_positive (c len : Z) :
  1 <= c <= 326 -> c <= len ->
  gt (sub (of_Z c) (of_Z len)) pzero = false.
Proof.
  intros Hc Hl. pose proof bias_val as Hbias.
  pose proof (pow2_pos bias ltac:(lia)) as Hb.
  change (2 ^ 53) with 9007199254740992 in *.
  destruct (of_Z_small_exact c) as (mx & ex & Ex & Vx & Sx).
  { change (2 ^ 53) with 9007199254740992. lia. }
  rewrite Ex.
  destruct (Z_lt_ge_dec len (2 ^ 53)) as [Hs | Hg].
  - destruct (of_Z_small_exact len) as (my & ey & Ey & Vy & Sy); [lia |].
    rewrite Ey. apply sub_le_not_positive; try assumption.
    rewrite Sx, Sy. apply Z.mul_le_mono_nonneg_r; lia.
  - destruct (of_Z_large len ltac:(lia)) as [Ey | (my & ey & Ey & Vy & Sy)];
      rewrite Ey; [reflexivity |].
    apply sub_le_not_positive; try assumption.
    rewrite Sx. etransitivity; [| exact Sy].
    apply Z.mul_le_mono_nonneg_r; [lia |].
    change (2 ^ 52) with 4503599627370496. lia.
Qed.

(** Once the scale is a zero or a small integer, the padding loops end and
    the sign is put in front of the digits. *)
Lemma format_tail_terminates (sign : string) (scale : number) (n : string) :
  (exists s, scale = S754_zero s)
  \/ (exists c, 1 <= c <= 326 /\ (scale = of_Z c \/ scale = of_Z (- c))) ->
  exists r, forall fuel, (400 <= fuel)%nat ->
    (n' <- (if gt scale pzero then
              let l := sub scale (of_Z (Str.length n)) in
              n1 <- pad_right fuel l n ;;
              Ok (if lt scale (of_Z (Str.length n1))
                  then Str.slice_to n1 scale ++ "." ++ Str.slice_from n1 scale
                  else n1)
            else
              n1 <- pad_left fuel scale n ;;
              Ok ("0." ++ n1)) ;;
     Ok (sign ++ n'))%string = Ok (sign ++ r)%string.
Proof.
  intros [[s ->] | (c & Hc & [-> | ->])].
  - exists ("0." ++ n)%string. intros fuel Hf.
    destruct fuel as [| fuel]; [lia |]. destruct s; reflexivity.
  - destruct (count_down c Hc) as [G _].
    assert (Hlen : 0 <= Str.length n) by (unfold Str.length; lia).
    destruct (Z_lt_ge_dec (Str.length n) c) as [Hs | Hg].
    + destruct (pad_right_terminates (Z.to_nat (c - Str.length n)) n
                  ltac:(lia)) as [n1 Hn1].
      exists (if lt (of_Z c) (of_Z (Str.length n1))
              then Str.slice_to n1 (of_Z c) ++ "." ++ Str.slice_from n1 (of_Z c)
              else n1)%string.
      intros fuel Hf. rewrite G. cbv zeta.
      rewrite (difference_small c (Str.length n)) by lia.
      replace (c - Str.length n)
        with (Z.of_nat (Z.to_nat (c - Str.length n))) by lia.
      rewrite Hn1 by lia. reflexivity.
    + exists (if lt (of_Z c) (of_Z (Str.length n))
              then Str.slice_to n (of_Z c) ++ "." ++ Str.slice_from n (of_Z c)
              else n)%string.
      intros fuel Hf. destruct fuel as [| fuel]; [lia |].
      rewrite G. cbv zeta. cbn [pad_right].
      rewrite (difference_not_positive c (Str.length n)) by lia.
      reflexivity.
  - destruct (count_up c Hc) as (_ & G & _).
    destruct (pad_left_terminates (Z.to_nat c) n ltac:(lia)) as [n1 Hn1].
    exists ("0." ++ n1)%string. intros fuel Hf. rewrite G.
    replace (- c) with (- Z.of_nat (Z.to_nat c)) by lia.
    rewrite Hn1 by lia. reflexivity.
Qed.

(** Every finite number other than zero is formatted, at every precision:
    both loops end, and the string is the sign followed by the digits. *)
Lemma toPrecisionFixed_finite (M : MathLib) (s : bool) (m : positive)
  (e : Z) (precision : number) :
  BoundedRanges M -> valid (S754_finite s m e) = true ->
  exists r, forall fuel, (400 <= fuel)%nat ->
    toPrecisionFixed M fuel (S754_finite s m e) precision
    = Ok ((if s then "-" else "") ++ r)%string.
Proof.
  intros HR V.
  assert (V' : valid (S754_finite false m e) = true) by exact V.
  pose proof (ceil_small _ (scale_small M m e HR V')) as Hsc.
  destruct (format_tail_terminates (if s then "-" else "") _
              (Str.NumberToString
                 (round (mul (S754_finite false m e)
                           (pow M (of_Z 10)
                              (sub precision
                                 (ceil (mul (log M (S754_finite false m e))
                                          LOG10E)))))))
              Hsc) as [r Hr].
  exists r. intros fuel Hf. destruct s; exact (Hr fuel Hf).
Qed.

(** Every finite negative number is formatted, and its string starts with
    the sign. *)
Lemma toPrecisionFixed_negative (M : MathLib) (x precision : number) :
  BoundedRanges M ->
  valid x = true -> is_finite x = true -> lt x pzero = true ->
  exists r, forall fuel, (400 <= fuel)%nat ->
    toPrecisionFixed M fuel x precision = Ok (String "-" r).
Proof.
  intros HR V Fi L.
  destruct x as [s | s | | s m e]; try discriminate.
  destruct s; [| discriminate].
  exact (toPrecisionFixed_finite M true m e precision HR V).
Qed.

Lemma toPrecisionFixed_nan (M : MathLib) (fuel : nat) (precision : number) :
  toPrecisionFixed M fuel NaN precision = Ok "NaN"%string.
Proof. reflexivity. Qed.

(** At precision 4 every number that is not an infinity is formatted. *)
Lemma toPrecisionFixed_terminates (M : MathLib) (d : number) :
  BoundedRanges M -> valid d = true -> is_finite d || isNaN d = true ->
  exists r, forall fuel, (400 <= fuel)%nat ->
    toPrecisionFixed M fuel d (of_Z 4) = Ok r.
Proof.
  intros HR V Fi. destruct d as [s | s | | s m e]; try discriminate.
  - exists "0.0000"%string. intros fuel Hf.
    apply toPrecisionFixed_zero. lia.
  - exists "NaN"%string. intros fuel Hf. reflexivity.
  - destruct (toPrecisionFixed_finite M s m e (of_Z 4) HR V) as [r Hr].
    eexists. exact Hr.
Qed.

Lemma pad_right_infinite (fuel : nat) :
  forall n, pad_right fuel pInf n = OutOfFuel.
Proof.
  induction fuel as [| fuel IH]; intros n; [reflexivity |].
  cbn [pad_right]. change (gt pInf pzero) with true.
  change (sub pInf one) with pInf. cbv iota. apply IH.
Qed.

(** An infinity is never formatted: its scale is +Infinity, and
    [l = scale - n.length] stays +Infinity in [while (l-- > 0)]. *)
Lemma toPrecisionFixed_infinite (s : bool) (fuel : nat) :
  toPrecisionFixed RefMath.lib fuel (S754_infinity s) (of_Z 4) = OutOfFuel.
Proof.
  assert (E : toPrecisionFixed RefMath.lib fuel (S754_infinity s) (of_Z 4)
              = (n <- (n1 <- pad_right fuel pInf "NaN" ;;
                       Ok (if lt pInf (of_Z (Str.length n1))
                           then Str.slice_to n1 pInf ++ "."
                                ++ Str.slice_from n1 pInf
                           else n1)) ;;
                 Ok ((if s then "-" else "") ++ n))%string).
  { unfold toPrecisionFixed. cbv zeta.
    change (isNaN (S754_infinity s)) with false. cbv iota.
    replace (if lt (S754_infinity s) pzero
             then neg (S754_infinity s) else S754_infinity s)
      with pInf by (destruct s; reflexivity).
    replace (lt (S754_infinity s) pzero) with s by (destruct s; reflexivity).
    change (eq pInf pzero) with false. cbv iota.
    replace (ceil (mul (log RefMath.lib pInf) LOG10E)) with pInf
      by (vm_compute; reflexivity).
    change (gt pInf pzero) with true. cbv iota.
    replace (Str.NumberToString
               (round (mul pInf (pow RefMath.lib (of_Z 10)
                                   (sub (of_Z 4) pInf)))))
      with "NaN"%string by (vm_compute; reflexivity).
    replace (sub pInf (of_Z (Str.length "NaN"))) with pInf
      by (vm_compute; reflexivity).
    reflexivity. }
  rewrite E, pad_right_infinite. reflexivity.
Qed.

(** With the reference Math library, 0 at precision 4 gives ["0.0000"],
    1234.5678 at precision 4 gives ["1235"] and 0.012345 at precision 3
    gives ["0.0123"].  For every Math library whose logarithm of a positive
    finite number is finite, every finite negative number [x] is formatted,
    at every precision, as a string that starts with ["-"] (the loops end,
    with the same string whatever fuel is left).  NaN gives ["NaN"]. *)
Theorem toPrecisionFixed_vectors (M : MathLib) (x precision : number) :
  BoundedRanges M ->
  valid x = true -> is_finite x = true -> lt x pzero = true ->
  (forall fuel, (5 <= fuel)%nat ->
     toPrecisionFixed M fuel pzero (of_Z 4) = Ok "0.0000"%string)
  /\ (forall fuel, (5 <= fuel)%nat ->
        toPrecisionFixed RefMath.lib fuel (of_dec 12345678 (-4)) (of_Z 4)
        = Ok "1235"%string)
  /\ (forall fuel, (5 <= fuel)%nat ->
        toPrecisionFixed RefMath.lib fuel (of_dec 12345 (-6)) (of_Z 3)
        = Ok "0.0123"%string)
  /\ (exists r, forall fuel, (400 <= fuel)%nat ->
        toPrecisionFixed M fuel x precision = Ok (String "-" r))
  /\ (forall fuel p, toPrecisionFixed M fuel NaN p = Ok "NaN"%string).
Proof.
  intros HR V Fi L. split; [| split; [| split; [| split]]].
  - intros fuel Hf. apply toPrecisionFixed_zero. assumption.
  - intros fuel Hf. do 5 (destruct fuel as [| fuel]; [lia |]).
    vm_compute. reflexivity.
  - intros fuel Hf. do 5 (destruct fuel as [| fuel]; [lia |]).
    vm_compute. reflexivity.
  - apply toPrecisionFixed_negative; assumption.
  - intros fuel p. apply toPrecisionFixed_nan.
Qed.

Example toPrecisionFixed_vectors_reference :
  (forall fuel, (5 <= fuel)%nat ->
     toPrecisionFixed RefMath.lib fuel pzero (of_Z 4) = Ok "0.0000"%string)
  /\ (forall fuel, (5 <= fuel)%nat ->
        toPrecisionFixed RefMath.lib fuel (of_dec 12345678 (-4)) (of_Z 4)
        = Ok "1235"%string)
  /\ (forall fuel, (5 <= fuel)%nat ->
        toPrecisionFixed RefMath.lib fuel (of_dec 12345 (-6)) (of_Z 3)
        = Ok "0.0123"%string)
  /\ (exists r, forall fuel, (400 <= fuel)%nat ->
        toPrecisionFixed RefMath.lib fuel (neg (of_dec 12345678 (-4)))
          (of_Z 4)
        = Ok (String "-" r))
  /\ (forall fuel p, toPrecisionFixed RefMath.lib fuel NaN p
                     = Ok "NaN"%string).
Proof.
  apply (toPrecisionFixed_vectors RefMath.lib
           (neg (of_dec 12345678 (-4))) (of_Z 4) RefMath_BoundedRanges);
    reflexivity.
Qed.

(** C5.  [(-Infinity).toPrecisionFixed(4)] returns no string: -Infinity is
    a negative input ([this < 0] holds), and whatever the fuel the loop
    [while (l-- > 0) n = n + '0'] is still running when it is spent. *)
Theorem C5_negative_infinity_is_never_formatted :
  lt nInf pzero = true
  /\ (forall fuel, toPrecisionFixed RefMath.lib fuel nInf (of_Z 4)
                   = OutOfFuel)
  /\ ~ (exists fuel r,
          toPrecisionFixed RefMath.lib fuel nInf (of_Z 4)
          = Ok (String "-" r)).
Proof.
  split; [reflexivity |]. split.
  - intros fuel. apply (toPrecisionFixed_infinite true).
  - intros (fuel & r & H).
    pose proof (toPrecisionFixed_infinite true fuel) as E.
    change (S754_infinity true) with nInf in E. rewrite E in H.
    discriminate H.
Qed.

(** *** The rhumb-line distance returned as a string (C9) *)

(** A finite latitude can overflow: from the origin to the point of
    latitude 1e308 the latitude difference overflows in radians, the
    distance is +Infinity, and [rhumbDistanceTo] returns no string. *)
Lemma rhumbDistanceTo_overflow :
  is_finite (of_dec 1 308) = true
  /\ _lat far_point = VNum (of_dec 1 308)
  /\ ~ (exists fuel s,
          rhumbDistanceTo RefMath.lib fuel origin far_point = Ok s).
Proof.
  split; [reflexivity |]. split; [reflexivity |]. intros (fuel & s & H).
  rewrite (rhumbDistanceTo_formula RefMath.lib fuel origin far_point
             pzero pzero (of_dec 1 308) pzero earth_radius) in H;
    try reflexivity.
  replace (spec_rhumb_distance RefMath.lib pzero pzero (of_dec 1 308) pzero
             earth_radius) with pInf in H by (vm_compute; reflexivity).
  pose proof (toPrecisionFixed_infinite false fuel) as E.
  change (S754_infinity false) with pInf in E. rewrite E in H.
  discriminate H.
Qed.

(** Whenever the rhumb-line distance of the specification is a finite
    number or NaN, [rhumbDistanceTo] returns a string, the one
    [toPrecisionFixed(4)] makes of that distance. *)
Lemma rhumbDistanceTo_returns (M : MathLib) (this other : LngLat)
  (lat1 lon1 lat2 lon2 R : number) :
  BoundedRanges M ->
  _lat this = VNum lat1 -> _lon this = VNum lon1 -> _radius this = VNum R ->
  _lat other = VNum lat2 -> _lon other = VNum lon2 ->
  valid (spec_rhumb_distance M lat1 lon1 lat2 lon2 R) = true ->
  is_finite (spec_rhumb_distance M lat1 lon1 lat2 lon2 R)
  || isNaN (spec_rhumb_distance M lat1 lon1 lat2 lon2 R) = true ->
  exists s, forall fuel, (400 <= fuel)%nat ->
    rhumbDistanceTo M fuel this other = Ok s
    /\ toPrecisionFixed M fuel
         (spec_rhumb_distance M lat1 lon1 lat2 lon2 R) (of_Z 4) = Ok s.
Proof.
  intros HR H1 H2 H3 H4 H5 V Fi.
  destruct (toPrecisionFixed_terminates M _ HR V Fi) as [s Hs].
  exists s. intros fuel Hf.
  rewrite (rhumbDistanceTo_formula M fuel this other lat1 lon1 lat2 lon2 R)
    by assumption.
  split; apply Hs; assumption.
Qed.

(** C9.  The distance [rhumbDistanceTo] formats is the one the claim gives
    (lemma [rhumbDistanceTo_formula]), but what is returned is not always
    that distance to 4 significant digits.  From the origin to the point
    of longitude 0.08993 on the equator the distance is 9.999759753145169
    km and the string returned is ["1.0000"], which has five digits and
    reads as a tenth of the distance: the scale, 1, is taken from the
    distance, and the digits are then rounded up to 10000.  In the same
    way [toPrecisionFixed(4)] makes ["100.00"] of 1000.  From latitude
    51.5 to latitude 51.50000000000001, one degree of longitude apart,
    [dPhi] is 0 and [dLat] is not, so that [q] and the distance are
    +Infinity, and no string is returned, whatever the fuel. *)
Theorem C9_rhumbDistanceTo_is_not_formatted_to_4_digits :
  let near := point (of_dec 8993 (-5)) pzero earth_radius in
  let p := point pzero (of_dec 515 (-1)) earth_radius in
  let q := point one (of_dec 5150000000000001 (-14)) earth_radius in
  let lat1 := of_dec 515 (-1) in
  let lat2 := of_dec 5150000000000001 (-14) in
  Str.NumberToString
    (spec_rhumb_distance RefMath.lib pzero pzero pzero (of_dec 8993 (-5))
       earth_radius) = "9.999759753145169"%string
  /\ (forall fuel, (1 <= fuel)%nat ->
        rhumbDistanceTo RefMath.lib fuel origin near = Ok "1.0000"%string)
  /\ (forall fuel, (1 <= fuel)%nat ->
        toPrecisionFixed RefMath.lib fuel (of_Z 1000) (of_Z 4)
        = Ok "100.00"%string)
  /\ (spec_dPhi RefMath.lib (toRad lat1) (toRad lat2) = pzero
      /\ Str.NumberToString (toRad (sub lat2 lat1))
         = "1.2401310215141802e-16"%string
      /\ spec_q RefMath.lib (toRad lat1) (toRad (sub lat2 lat1))
           (spec_dPhi RefMath.lib (toRad lat1) (toRad lat2)) = pInf
      /\ spec_rhumb_distance RefMath.lib lat1 pzero lat2 one earth_radius
         = pInf)
  /\ (forall fuel, rhumbDistanceTo RefMath.lib fuel p q = OutOfFuel).
Proof.
  cbv zeta. split; [vm_compute; reflexivity |].
  split; [intros fuel Hf; destruct fuel as [| fuel]; [lia |];
          vm_compute; reflexivity |].
  split; [intros fuel Hf; destruct fuel as [| fuel]; [lia |];
          vm_compute; reflexivity |].
  assert (E : spec_rhumb_distance RefMath.lib (of_dec 515 (-1)) pzero
                (of_dec 5150000000000001 (-14)) one earth_radius = pInf)
    by (vm_compute; reflexivity).
  split; [repeat split; try exact E; vm_compute; reflexivity |].
  intros fuel.
  rewrite (rhumbDistanceTo_formula RefMath.lib fuel _ _
             (of_dec 515 (-1)) pzero (of_dec 5150000000000001 (-14)) one
             earth_radius); try reflexivity.
  rewrite E. apply (toPrecisionFixed_infinite false).
Qed.

(** * Further properties of the program *)

(** ** [String.prototype.trim] *)

Lemma append_assoc (s t u : string) :
  ((s ++ t) ++ u)%string = (s ++ (t ++ u))%string.
Proof.
  induction s as [| c r IH]; cbn [append]; [reflexivity |].
  rewrite IH. reflexivity.
Qed.

Lemma rev_append_app (s acc : string) :
  Str.rev_append s acc = (Str.rev s ++ acc)%string.
Proof.
  unfold Str.rev. revert acc.
  induction s as [| c r IH]; intros acc; [reflexivity |].
  cbn [Str.rev_append]. rewrite (IH (String c EmptyString)), IH.
  rewrite append_assoc. reflexivity.
Qed.

Lemma append_empty_r (s : string) : (s ++ "")%string = s.
Proof. induction s as [| c r IH]; cbn; [reflexivity | rewrite IH; reflexivity]. Qed.

Lemma rev_cons (c : ascii) (r : string) :
  Str.rev (String c r) = (Str.rev r ++ String c EmptyString)%string.
Proof. unfold Str.rev at 1. cbn [Str.rev_append]. apply rev_append_app. Qed.

Lemma rev_app (s t : string) :
  Str.rev (s ++ t) = (Str.rev t ++ Str.rev s)%string.
Proof.
  induction s as [| c r IH]; cbn [append].
  - change (Str.rev "") with EmptyString. rewrite append_empty_r. reflexivity.
  - rewrite !rev_cons, IH, append_assoc. reflexivity.
Qed.

Lemma rev_involutive (s : string) : Str.rev (Str.rev s) = s.
Proof.
  induction s as [| c r IH]; [reflexivity |].
  rewrite rev_cons, rev_app, IH. reflexivity.
Qed.

(** The leading white space of a string and what [trim_left] keeps. *)
Lemma trim_left_split (s : string) :
  exists a, s = (a ++ Str.trim_left s)%string
            /\ forallb Str.is_space (list_ascii_of_string a) = true.
Proof.
  induction s as [| c r IH].
  - exists EmptyString. split; reflexivity.
  - cbn [Str.trim_left]. destruct (Str.is_space c) eqn:E.
    + destruct IH as (a & Ha & Sa). exists (String c a). split.
      * cbn [append]. rewrite <- Ha. reflexivity.
      * cbn [list_ascii_of_string forallb]. rewrite E, Sa. reflexivity.
    + exists EmptyString. split; reflexivity.
Qed.

Lemma trim_left_head (s : string) (c : ascii) (r : string) :
  Str.trim_left s = String c r -> Str.is_space c = false.
Proof.
  induction s as [| d t IH]; [discriminate |].
  cbn [Str.trim_left]. destruct (Str.is_space d) eqn:E; [exact IH |].
  intros H. injection H as -> _. exact E.
Qed.

Lemma trim_left_fixed (c : ascii) (r : string) :
  Str.is_space c = false -> Str.trim_left (String c r) = String c r.
Proof. intros E. cbn [Str.trim_left]. rewrite E. reflexivity. Qed.

Lemma trim_left_app (x y : string) (c : ascii) :
  Str.is_space c = false ->
  Str.trim_left (x ++ String c y) = (Str.trim_left x ++ String c y)%string.
Proof.
  intros E. induction x as [| d t IH]; cbn [append].
  - apply trim_left_fixed, E.
  - cbn [Str.trim_left]. destruct (Str.is_space d); [exact IH | reflexivity].
Qed.

Lemma forallb_space_rev (a : string) :
  forallb Str.is_space (list_ascii_of_string a) = true ->
  forallb Str.is_space (list_ascii_of_string (Str.rev a)) = true.
Proof.
  induction a as [| c r IH]; [reflexivity |].
  cbn [list_ascii_of_string forallb]. intros H.
  apply andb_true_iff in H. destruct H as [Hc Hr].
  rewrite rev_cons.
  assert (G : forall u v,
             forallb Str.is_space (list_ascii_of_string u) = true ->
             forallb Str.is_space (list_ascii_of_string v) = true ->
             forallb Str.is_space (list_ascii_of_string (u ++ v)) = true).
  { induction u as [| d t IHu]; intros v Hu Hv; [exact Hv |].
    cbn [append list_ascii_of_string forallb] in *.
    apply andb_true_iff in Hu. destruct Hu as [Hd Ht].
    rewrite Hd. apply IHu; assumption. }
  apply G; [apply IH, Hr |].
  cbn [list_ascii_of_string forallb]. rewrite Hc. reflexivity.
Qed.

(** The trailing white space of a string and what [trim_right] keeps. *)
Lemma trim_right_split (s : string) :
  exists b, s = (Str.trim_right s ++ b)%string
            /\ forallb Str.is_space (list_ascii_of_string b) = true.
Proof.
  unfold Str.trim_right.
  destruct (trim_left_split (Str.rev s)) as (a & Ha & Sa).
  exists (Str.rev a). split; [| apply forallb_space_rev, Sa].
  rewrite <- rev_app, <- Ha. symmetry. apply rev_involutive.
Qed.

(** [trim_right] keeps the first character of a string that does not start
    with white space. *)
Lemma trim_right_head (c : ascii) (r : string) :
  Str.is_space c = false ->
  exists r', Str.trim_right (String c r) = String c r'.
Proof.
  intros E. unfold Str.trim_right. rewrite rev_cons.
  rewrite (trim_left_app _ EmptyString c E), rev_app.
  eexists. reflexivity.
Qed.

(** X1.  [trim] removes white space at the two ends and nothing else: the
    string is its trimmed part between two runs of white space, and the
    trimmed part neither starts nor ends with a white-space character. *)
Theorem trim_removes_the_white_space_at_both_ends (s : string) :
  (exists a b,
     s = (a ++ Str.trim s ++ b)%string
     /\ forallb Str.is_space (list_ascii_of_string a) = true
     /\ forallb Str.is_space (list_ascii_of_string b) = true)
  /\ (forall c r, Str.trim s = String c r -> Str.is_space c = false)
  /\ (forall c r, Str.rev (Str.trim s) = String c r ->
                  Str.is_space c = false).
Proof.
  split; [| split].
  - destruct (trim_left_split s) as (a & Ha & Sa).
    destruct (trim_right_split (Str.trim_left s)) as (b & Hb & Sb).
    exists a, b. split; [| split; assumption].
    unfold Str.trim. rewrite <- Hb. exact Ha.
  - intros c r H. unfold Str.trim in H.
    destruct (Str.trim_left s) as [| d t] eqn:L; [discriminate H |].
    pose proof (trim_left_head s d t L) as E.
    destruct (trim_right_head d t E) as [r' Hr']. rewrite Hr' in H.
    injection H as -> _. exact E.
  - intros c r H. unfold Str.trim, Str.trim_right in H.
    rewrite rev_involutive in H. exact (trim_left_head _ c r H).
Qed.

(** X2.  Trimming twice is trimming once. *)
Theorem trim_is_idempotent (s : string) :
  Str.trim (Str.trim s) = Str.trim s.
Proof.
  assert (R : forall t, Str.trim_right (Str.trim_right t) = Str.trim_right t).
  { intros t. unfold Str.trim_right. rewrite rev_involutive.
    destruct (Str.trim_left (Str.rev t)) as [| c r] eqn:L; [reflexivity |].
    rewrite (trim_left_fixed c r (trim_left_head _ c r L)). reflexivity. }
  assert (L : Str.trim_left (Str.trim s) = Str.trim s).
  { unfold Str.trim.
    destruct (Str.trim_left s) as [| d t] eqn:L; [reflexivity |].
    pose proof (trim_left_head s d t L) as E.
    destruct (trim_right_head d t E) as [r' Hr'].
    rewrite Hr'. apply trim_left_fixed, E. }
  unfold Str.trim at 1. rewrite L. unfold Str.trim. apply R.
Qed.

(** ** The constructor and the accessors *)

Lemma string_eqb_empty (s : string) : (s =? "")%string = true -> s = EmptyString.
Proof. destruct s; [reflexivity | discriminate]. Qed.

(** X3.  Given two strings, the constructor stores a blank one (empty, or
    white space only) as NaN, and any other string as its numeric coercion;
    the numeric coercion of a blank string itself is 0 (a string is not
    blank, or it coerces to 0). *)
Theorem constructor_on_strings (s t : string) :
  LngLat_new (VStr t) (VStr s) VUndefined
  = Ok (point (if (Str.trim t =? "")%string then NaN
               else Str.StringToNumber t)
              (if (Str.trim s =? "")%string then NaN
               else Str.StringToNumber s)
              earth_radius)
  /\ ((Str.trim s =? "")%string = false \/ ToNumber (VStr s) = pzero).
Proof.
  split.
  - unfold LngLat_new.
    cbn [typeof String.eqb Ascii.eqb Bool.eqb and_then method_trim bind].
    destruct (Str.trim s =? "")%string, (Str.trim t =? "")%string;
      reflexivity.
  - destruct (Str.trim s =? "")%string eqn:H; [right | left; reflexivity].
    apply string_eqb_empty in H.
    cbn [ToNumber]. unfold Str.StringToNumber. rewrite H. reflexivity.
Qed.

(** X4.  A point made of two numbers gives them back: [lat()] and [lon()]
    without a format return the latitude and the longitude, [toArray()]
    the pair longitude, latitude (in this order), and [toLngLat()] the two
    numbers in the same order, separated by a comma.  A number of digits of
    0 is falsy and requests nothing: [toLngLat(0)] and [toArray(0)] return
    the same, unrounded, and [toFixed] is not called. *)
Theorem accessors_return_the_coordinates
  (Geo_toLat Geo_toLng : value -> value -> value -> result value)
  (toFixed : number -> value -> result string) (x y : number) :
  exists p,
    LngLat_new (VNum x) (VNum y) VUndefined = Ok p
    /\ lat Geo_toLat p VUndefined VUndefined = Ok (VNum y)
    /\ lon Geo_toLng p VUndefined VUndefined = Ok (VNum x)
    /\ toArray toFixed p VUndefined = Ok [VNum x; VNum y]
    /\ toLngLat toFixed p VUndefined
       = Ok (Str.NumberToString x ++ "," ++ Str.NumberToString y)%string
    /\ toArray toFixed p (VNum pzero) = Ok [VNum x; VNum y]
    /\ toLngLat toFixed p (VNum pzero)
       = Ok (Str.NumberToString x ++ "," ++ Str.NumberToString y)%string.
Proof.
  exists (point x y earth_radius). repeat split.
Qed.

(** ** The order of binary64 numbers *)

Ltac split_compare :=
  repeat match goal with
         | H : context [Pos.compare_cont Eq ?a ?b] |- _ =>
             change (Pos.compare_cont Eq a b) with (Pos.compare a b) in H
         | |- context [Pos.compare_cont Eq ?a ?b] =>
             change (Pos.compare_cont Eq a b) with (Pos.compare a b)
         | H : context [Z.compare ?a ?b] |- _ =>
             destruct (Z.compare_spec a b); cbn [CompOpp] in H
         | H : context [Pos.compare ?a ?b] |- _ =>
             destruct (Pos.compare_spec a b); cbn [CompOpp] in H
         | |- context [Z.compare ?a ?b] =>
             destruct (Z.compare_spec a b); cbn [CompOpp]
         | |- context [Pos.compare ?a ?b] =>
             destruct (Pos.compare_spec a b); cbn [CompOpp]
         end;
  try discriminate; try reflexivity; try lia.

Lemma le_refl (x : number) : isNaN x = false -> le x x = true.
Proof.
  destruct x as [s | s | | s m e]; try discriminate; intros _;
    unfold le, SFleb, SFcompare; try (destruct s; reflexivity).
  destruct s; rewrite Z.compare_refl;
    change (Pos.compare_cont Eq m m) with (Pos.compare m m);
    rewrite Pos.compare_refl; reflexivity.
Qed.

Lemma le_trans (x y z : number) :
  le x y = true -> le y z = true -> le x z = true.
Proof.
  unfold le, SFleb, SFcompare.
  destruct x as [sx | sx | | sx mx ex], y as [sy | sy | | sy my ey],
    z as [sz | sz | | sz mz ez];
    try discriminate; try reflexivity;
    try destruct sx; try destruct sy; try destruct sz;
    try discriminate; try reflexivity;
    intros H1 H2; split_compare.
Qed.

(** Of two numbers neither of which is NaN, one is less than the other or
    the other is at most the one. *)
Lemma not_lt_le (x y : number) :
  isNaN x = false -> isNaN y = false -> negb (lt x y) = le y x.
Proof.
  unfold lt, le, SFltb, SFleb, SFcompare.
  destruct x as [sx | sx | | sx mx ex], y as [sy | sy | | sy my ey];
    try discriminate; intros _ _;
    try destruct sx; try destruct sy; try reflexivity;
    split_compare.
Qed.

Lemma le_not_nan (x y : number) :
  le x y = true -> isNaN x = false /\ isNaN y = false.
Proof.
  destruct x, y; try discriminate; intros _; split; reflexivity.
Qed.

(** [a >= b] and [a <= b] on two numbers. *)
Lemma greater_equal_numbers (a b : number) :
  greater_equal (VNum a) (VNum b) = le b a.
Proof.
  unfold greater_equal, less_than. cbn [ToNumber].
  destruct (isNaN a) eqn:Na.
  - destruct a; try discriminate. destruct b; reflexivity.
  - destruct (isNaN b) eqn:Nb.
    + destruct b; try discriminate. reflexivity.
    + cbn [orb]. rewrite <- (not_lt_le a b Na Nb).
      destruct (lt a b); reflexivity.
Qed.

Lemma less_equal_numbers (a b : number) :
  less_equal (VNum a) (VNum b) = le a b.
Proof.
  unfold less_equal, less_than. cbn [ToNumber].
  destruct (isNaN b) eqn:Nb.
  - destruct b; try discriminate. destruct a; reflexivity.
  - destruct (isNaN a) eqn:Na.
    + destruct a; try discriminate. reflexivity.
    + cbn [orb]. rewrite <- (not_lt_le b a Nb Na).
      destruct (lt b a); reflexivity.
Qed.

(** ** [inSquare] *)

Lemma inSquare_numbers (lon lat r lon1 lat1 r1 lon2 lat2 r2 : number) :
  inSquare (point lon lat r) (point lon1 lat1 r1) (point lon2 lat2 r2)
  = le lat1 lat && le lat lat2 && le lon1 lon && le lon lon2.
Proof.
  unfold inSquare, point. cbn [_lat _lon].
  rewrite !greater_equal_numbers, !less_equal_numbers. reflexivity.
Qed.

(** X5.  A NaN coordinate, of the point or of a corner, puts the point
    outside the square; and a point lies in the square of which it is both
    corners exactly when neither of its coordinates is NaN. *)
Theorem inSquare_rejects_NaN (lon lat r lon1 lat1 r1 lon2 lat2 r2 : number) :
  isNaN lat || isNaN lon || isNaN lat1 || isNaN lon1
  || isNaN lat2 || isNaN lon2 = true ->
  inSquare (point lon lat r) (point lon1 lat1 r1) (point lon2 lat2 r2) = false
  /\ inSquare (point lon1 lat1 r1) (point lon1 lat1 r1) (point lon1 lat1 r1)
     = negb (isNaN lat1) && negb (isNaN lon1).
Proof.
  intros H. split.
  - rewrite inSquare_numbers.
    destruct (le lat1 lat) eqn:A; [| reflexivity].
    destruct (le lat lat2) eqn:B; [| reflexivity].
    destruct (le lon1 lon) eqn:C; [| reflexivity].
    destruct (le lon lon2) eqn:D; [| reflexivity].
    apply le_not_nan in A, B, C, D.
    destruct A as [A1 A2], B as [B1 B2], C as [C1 C2], D as [D1 D2].
    rewrite A1, A2, B2, C1, C2, D2 in H. discriminate H.
  - rewrite inSquare_numbers.
    destruct (isNaN lat1) eqn:A.
    + destruct lat1; try discriminate. reflexivity.
    + rewrite (le_refl lat1 A). destruct (isNaN lon1) eqn:B.
      * destruct lon1; try discriminate. reflexivity.
      * rewrite (le_refl lon1 B). reflexivity.
Qed.

Lemma inSquare_rejects_NaN_witness :
  inSquare (point NaN one earth_radius) origin (point two two earth_radius)
  = false
  /\ inSquare origin origin origin = negb (isNaN pzero) && negb (isNaN pzero).
Proof.
  apply (inSquare_rejects_NaN NaN one earth_radius pzero pzero earth_radius
           two two earth_radius).
  reflexivity.
Defined.

(** X6.  A square that contains a point has its corners in order: the
    south-west corner is at most the north-east corner in latitude and in
    longitude, and both corners lie in the square.  A square given with
    its corners exchanged in latitude or in longitude contains no point. *)
Theorem inSquare_corners_are_ordered
  (lon lat r lon1 lat1 r1 lon2 lat2 r2 : number) :
  inSquare (point lon lat r) (point lon1 lat1 r1) (point lon2 lat2 r2) = true ->
  le lat1 lat2 = true /\ le lon1 lon2 = true
  /\ lt lat2 lat1 = false /\ lt lon2 lon1 = false
  /\ inSquare (point lon1 lat1 r1) (point lon1 lat1 r1) (point lon2 lat2 r2)
     = true
  /\ inSquare (point lon2 lat2 r2) (point lon1 lat1 r1) (point lon2 lat2 r2)
     = true.
Proof.
  rewrite !inSquare_numbers. intros H.
  apply andb_true_iff in H. destruct H as [H D].
  apply andb_true_iff in H. destruct H as [H C].
  apply andb_true_iff in H. destruct H as [A B].
  pose proof (le_trans _ _ _ A B) as L1.
  pose proof (le_trans _ _ _ C D) as L2.
  destruct (le_not_nan _ _ L1) as [N1 N2].
  destruct (le_not_nan _ _ L2) as [N3 N4].
  split; [exact L1 |]. split; [exact L2 |].
  split.
  { apply negb_true_iff. rewrite (not_lt_le lat2 lat1 N2 N1). exact L1. }
  split.
  { apply negb_true_iff. rewrite (not_lt_le lon2 lon1 N4 N3). exact L2. }
  rewrite L1, L2, !le_refl by assumption. split; reflexivity.
Qed.

Lemma inSquare_corners_are_ordered_witness :
  le pzero two = true /\ le pzero two = true
  /\ lt two pzero = false /\ lt two pzero = false
  /\ inSquare origin origin (point two two earth_radius) = true
  /\ inSquare (point two two earth_radius) origin
       (point two two earth_radius) = true.
Proof.
  apply (inSquare_corners_are_ordered one one earth_radius pzero pzero
           earth_radius two two earth_radius).
  reflexivity.
Defined.

(** X7.  Squares nest: a point of a square whose two corners lie in a
    second square lies in the second square. *)
Theorem inSquare_of_a_larger_square
  (lon lat r lon1 lat1 r1 lon2 lat2 r2 lon3 lat3 r3 lon4 lat4 r4 : number) :
  inSquare (point lon lat r) (point lon1 lat1 r1) (point lon2 lat2 r2) = true ->
  inSquare (point lon1 lat1 r1) (point lon3 lat3 r3) (point lon4 lat4 r4)
  = true ->
  inSquare (point lon2 lat2 r2) (point lon3 lat3 r3) (point lon4 lat4 r4)
  = true ->
  inSquare (point lon lat r) (point lon3 lat3 r3) (point lon4 lat4 r4) = true.
Proof.
  rewrite !inSquare_numbers. intros H1 H2 H3.
  apply andb_true_iff in H1. destruct H1 as [H1 D1].
  apply andb_true_iff in H1. destruct H1 as [H1 C1].
  apply andb_true_iff in H1. destruct H1 as [A1 B1].
  apply andb_true_iff in H2. destruct H2 as [H2 _].
  apply andb_true_iff in H2. destruct H2 as [H2 C2].
  apply andb_true_iff in H2. destruct H2 as [A2 _].
  apply andb_true_iff in H3. destruct H3 as [H3 D3].
  apply andb_true_iff in H3. destruct H3 as [H3 _].
  apply andb_true_iff in H3. destruct H3 as [_ B3].
  rewrite (le_trans _ _ _ A2 A1), (le_trans _ _ _ B1 B3),
    (le_trans _ _ _ C2 C1), (le_trans _ _ _ D1 D3).
  reflexivity.
Qed.

Lemma inSquare_of_a_larger_square_witness :
  inSquare (point one one earth_radius) (point pzero pzero earth_radius)
    (point (of_Z 3) (of_Z 3) earth_radius) = true.
Proof.
  apply (inSquare_of_a_larger_square one one earth_radius
           one one earth_radius two two earth_radius
           pzero pzero earth_radius (of_Z 3) (of_Z 3) earth_radius);
    reflexivity.
Defined.

(** ** [toString] *)

(** X8.  A point one of whose coordinates is not a number (NaN, or a stored
    string that is not numeric) prints as ["-,-"], whatever the format, and
    [Geo] is not consulted; so does every point constructed without a
    latitude. *)
Theorem toString_of_an_invalid_point
  (Geo_toLat Geo_toLng : value -> value -> value -> result value)
  (p : LngLat) (format dp : value) :
  isNaN (ToNumber (_lat p)) = true \/ isNaN (ToNumber (_lon p)) = true ->
  toString Geo_toLat Geo_toLng p format dp = Ok "-,-"%string
  /\ (forall x : value,
        exists q, LngLat_new x VUndefined VUndefined = Ok q
                  /\ toString Geo_toLat Geo_toLng q format dp
                     = Ok "-,-"%string).
Proof.
  intros H. split.
  - unfold toString.
    destruct H as [H | H]; rewrite H; [reflexivity |].
    rewrite orb_true_r. reflexivity.
  - intros x. unfold LngLat_new.
    cbn [typeof String.eqb Ascii.eqb Bool.eqb and_then bind].
    destruct x as [| | b | x | t];
      cbn [typeof String.eqb Ascii.eqb Bool.eqb and_then method_trim bind];
      eexists; split; reflexivity.
Qed.

Lemma toString_of_an_invalid_point_witness :
  toString (fun _ _ _ => Throw TypeError) (fun _ _ _ => Throw TypeError)
    (point NaN one earth_radius) (VStr "d") VUndefined = Ok "-,-"%string
  /\ (forall x : value,
        exists q, LngLat_new x VUndefined VUndefined = Ok q
                  /\ toString (fun _ _ _ => Throw TypeError)
                       (fun _ _ _ => Throw TypeError) q (VStr "d") VUndefined
                     = Ok "-,-"%string).
Proof.
  apply (toString_of_an_invalid_point (fun _ _ _ => Throw TypeError)
           (fun _ _ _ => Throw TypeError) (point NaN one earth_radius)).
  right. reflexivity.
Defined.

(** ** Invalid coordinates in the distance and bearing methods *)

Lemma add_nan_l (x : number) : add NaN x = NaN.
Proof. destruct x; reflexivity. Qed.

Lemma sub_nan_r (x : number) : sub x NaN = NaN.
Proof. destruct x; reflexivity. Qed.

Lemma mul_nan_l (x : number) : mul NaN x = NaN.
Proof. destruct x; reflexivity. Qed.

Lemma isNaN_eq (x : number) : isNaN x = true -> x = NaN.
Proof. destruct x; try discriminate; reflexivity. Qed.

(** X9.  [distanceTo] on points with a NaN coordinate returns the string
    ["NaN"]: NaN runs through the haversine formula, for every radius and
    every precision. *)
Theorem distanceTo_of_a_NaN_coordinate (M : MathLib) (fuel : nat)
  (lon1 lat1 R1 lon2 lat2 R2 : number) (precision : value) :
  NaNPropagation M ->
  isNaN lat1 || isNaN lon1 || isNaN lat2 || isNaN lon2 = true ->
  distanceTo M fuel (point lon1 lat1 R1) (point lon2 lat2 R2) precision
  = Ok "NaN"%string.
Proof.
  intros HM H. unfold distanceTo, point.
  cbn [_lat _lon _radius method_toRad bind ToNumber].
  assert (E : add (mul (sin M (div (sub (toRad lat2) (toRad lat1)) two))
                       (sin M (div (sub (toRad lat2) (toRad lat1)) two)))
                  (mul (mul (mul (cos M (toRad lat1)) (cos M (toRad lat2)))
                            (sin M (div (sub (toRad lon2) (toRad lon1)) two)))
                       (sin M (div (sub (toRad lon2) (toRad lon1)) two)))
              = NaN).
  { destruct (isNaN lat1) eqn:A.
    { rewrite (isNaN_eq _ A). change (toRad NaN) with NaN.
      rewrite sub_nan_r, div_nan_l, (sin_nan M HM), mul_nan_l, add_nan_l.
      reflexivity. }
    destruct (isNaN lat2) eqn:B.
    { rewrite (isNaN_eq _ B). change (toRad NaN) with NaN.
      rewrite sub_nan_l, div_nan_l, (sin_nan M HM), mul_nan_l, add_nan_l.
      reflexivity. }
    destruct (isNaN lon1) eqn:C.
    { rewrite (isNaN_eq _ C). change (toRad NaN) with NaN.
      rewrite sub_nan_r, div_nan_l, (sin_nan M HM), !mul_nan_r, add_nan_r.
      reflexivity. }
    cbn [orb] in H. rewrite (isNaN_eq _ H). change (toRad NaN) with NaN.
    rewrite sub_nan_l, div_nan_l, (sin_nan M HM), !mul_nan_r, add_nan_r.
    reflexivity. }
  rewrite E. change (sqrt NaN) with NaN.
  rewrite (atan2_nan M HM), !mul_nan_r. reflexivity.
Qed.

Lemma distanceTo_of_a_NaN_coordinate_witness :
  distanceTo RefMath.lib 0 (point NaN one earth_radius) london VUndefined
  = Ok "NaN"%string.
Proof.
  apply (distanceTo_of_a_NaN_coordinate RefMath.lib 0 NaN one earth_radius
           (neg (of_dec 983 (-4))) (of_dec 515136 (-4)) earth_radius
           VUndefined RefMath_NaNPropagation).
  reflexivity.
Defined.

(** X10.  A string longitude given with a numeric latitude is stored as the
    string.  On such a point the methods that convert the longitude itself
    to radians ([distanceTo], [midpointTo], [destinationPoint],
    [rhumbDestinationPoint]) throw a TypeError, while [bearingTo], which
    subtracts the longitudes first, works as on the number the string
    denotes. *)
Theorem string_longitude_is_stored_and_breaks_methods (M : MathLib)
  (s : string) (y : number) (fuel : nat) (q : LngLat) (a b : value) :
  exists p,
    LngLat_new (VStr s) (VNum y) VUndefined = Ok p
    /\ _lon p = VStr s
    /\ distanceTo M fuel p q a = Throw TypeError
    /\ midpointTo M p q = Throw TypeError
    /\ destinationPoint M p a b = Throw TypeError
    /\ rhumbDestinationPoint M p a b = Throw TypeError
    /\ bearingTo M p q
       = bearingTo M (point (Str.StringToNumber s) y earth_radius) q.
Proof.
  eexists. split; [reflexivity |]. split; [reflexivity |].
  split; [reflexivity |]. split; [reflexivity |]. split; [| split].
  - unfold destinationPoint. cbn [_lat _lon _radius].
    destruct b as [| | c | x | t];
      cbn [typeof String.eqb Ascii.eqb Bool.eqb and_then method_trim bind];
      try destruct (Str.trim t =? "")%string;
      cbn [negb bind]; destruct a; reflexivity.
  - reflexivity.
  - reflexivity.
Qed.

(** ** Degrees and radians *)

(** A number within a bound is the bound itself, up to its sign, or lies
    within the number just below the bound. *)
Lemma within_pred (mF mF' : positive) (eF : Z) (x : number) :
  valid (S754_finite false mF eF) = true ->
  valid (S754_finite false mF' eF) = true ->
  Zpos mF' = Zpos mF - 1 ->
  within (S754_finite false mF eF) x = true ->
  (exists s, x = S754_finite s mF eF)
  \/ within (S754_finite false mF' eF) x = true.
Proof.
  intros VF VF' Hp W.
  apply within_mag in W; [| assumption]. destruct W as (V & Fi & Mg).
  destruct x as [s | s | | s m e]; try discriminate.
  - right. reflexivity.
  - cbn [mag] in Mg.
    destruct (mag_lex s false m mF e eF V VF) as [L _].
    apply L in Mg.
    destruct (Pos.eq_dec m mF) as [-> | Hne].
    + destruct Mg as [Mg | [-> _]].
      * right. apply within_mag; [assumption |].
        split; [assumption |]. split; [reflexivity |]. cbn [mag].
        destruct (mag_lex s false mF mF' e eF V VF') as [L' _].
        apply L'. left. assumption.
      * left. exists s. reflexivity.
    + right. apply within_mag; [assumption |].
      split; [assumption |]. split; [reflexivity |]. cbn [mag].
      destruct (mag_lex s false m mF' e eF V VF') as [L' _].
      apply L'. destruct Mg as [Mg | [-> Mg]]; [left; assumption |].
      right. split; [reflexivity |]. lia.
Qed.

(** The product of a number of at most 180 and a number of at most [PI] in
    magnitude is at most the product of 180 and [PI], rounded. *)
Lemma mul_180_pi_within (x y : number) :
  within (of_Z 180) x = true -> within PI y = true ->
  within (S754_finite false 4974073419394997 (-43)) (mul x y) = true.
Proof.
  rewrite n180_eq, PI_eq. intros Hx Hy.
  apply (mul_within 6333186975989760 7074237752028440 4974073419394997
           (-45) (-51) (-43)); try reflexivity; try assumption;
    try by_computation.
Qed.

(** An angle of [-PI, PI] is an angle of [-180, 180] degrees. *)
Lemma toDeg_within_180 (b : number) :
  within PI b = true -> within (of_Z 180) (toDeg b) = true.
Proof.
  intros Hb. unfold toDeg.
  assert (H1 : within (S754_finite false 4974073419394997 (-43))
                 (mul b (of_Z 180)) = true).
  { rewrite mul_comm. apply mul_180_pi_within; [reflexivity | assumption]. }
  destruct (within_pred 4974073419394997 4974073419394996 (-43) _
              ltac:(reflexivity) ltac:(reflexivity) ltac:(reflexivity) H1)
    as [[s Hs] | H2].
  - rewrite Hs. destruct s; vm_compute; reflexivity.
  - rewrite n180_eq, PI_eq.
    apply (div_within 4974073419394996 7074237752028440 6333186975989760
             (-43) (-51) (-45)); try reflexivity; try assumption;
      try by_computation.
Qed.

(** A number of [-180, 180] degrees is an angle of [-PI, PI]. *)
Lemma toRad_within_PI (x : number) :
  within (of_Z 180) x = true -> within PI (toRad x) = true.
Proof.
  intros Hx. unfold toRad.
  assert (H1 : within (S754_finite false 4974073419394997 (-43))
                 (mul x PI) = true).
  { apply mul_180_pi_within; [assumption | reflexivity]. }
  destruct (within_pred 4974073419394997 4974073419394996 (-43) _
              ltac:(reflexivity) ltac:(reflexivity) ltac:(reflexivity) H1)
    as [[s Hs] | H2].
  - rewrite Hs. destruct s; vm_compute; reflexivity.
  - rewrite n180_eq, PI_eq.
    apply (div_within 4974073419394996 6333186975989760 7074237752028440
             (-43) (-45) (-51)); try reflexivity; try assumption;
      try by_computation.
Qed.

(** X11.  [toRad] and [toDeg] are odd functions, they take [-180, 180] into
    [-PI, PI] and [-PI, PI] into [-180, 180] (the rounding of the product
    and of the quotient never leaves these intervals), and 180 degrees is
    exactly [Math.PI]. *)
Theorem toRad_and_toDeg_keep_the_ranges (x y : number) :
  within (of_Z 180) x = true -> within PI y = true ->
  within PI (toRad x) = true
  /\ within (of_Z 180) (toDeg y) = true
  /\ toRad (neg x) = neg (toRad x)
  /\ toDeg (neg y) = neg (toDeg y)
  /\ toRad (of_Z 180) = PI
  /\ toDeg PI = of_Z 180.
Proof.
  intros Hx Hy. split; [| split; [| split; [| split; [| split]]]].
  - apply toRad_within_PI, Hx.
  - apply toDeg_within_180, Hy.
  - unfold toRad. rewrite mul_neg_l, div_neg_l. reflexivity.
  - unfold toDeg. rewrite mul_neg_l, div_neg_l. reflexivity.
  - vm_compute. reflexivity.
  - vm_compute. reflexivity.
Qed.

Lemma toRad_and_toDeg_keep_the_ranges_witness :
  within PI (toRad (of_Z 90)) = true
  /\ within (of_Z 180) (toDeg one) = true
  /\ toRad (neg (of_Z 90)) = neg (toRad (of_Z 90))
  /\ toDeg (neg one) = neg (toDeg one)
  /\ toRad (of_Z 180) = PI
  /\ toDeg PI = of_Z 180.
Proof.
  apply (toRad_and_toDeg_keep_the_ranges (of_Z 90) one); reflexivity.
Defined.

(** ** The final bearing and the rhumb-line bearing *)

Lemma valid_with_sign (s : bool) (x : number) :
  valid (RefMath.with_sign s x) = valid x.
Proof. destruct s; [apply valid_neg | reflexivity]. Qed.

Lemma RefMath_HostNumbers : HostNumbers RefMath.lib.
Proof.
  split.
  - intros x V. destruct x as [s | s | | s m e]; try reflexivity.
    cbn [sin RefMath.lib RefMath.sin].
    destruct (RefMath.tiny m e); [exact V |].
    rewrite valid_with_sign. apply normalize_valid.
  - intros x V. destruct x as [s | s | | s m e]; try reflexivity.
    apply normalize_valid.
  - intros x V. destruct x as [s | s | | s m e]; try reflexivity.
    cbn [tan RefMath.lib RefMath.tan].
    destruct (RefMath.tiny m e); [exact V |].
    destruct (RefMath.sincos_fx _) as [sn cs].
    rewrite valid_with_sign.
    destruct (cs =? 0); [reflexivity | apply normalize_valid].
  - intros x V. destruct x as [s | s | | s m e]; try reflexivity.
    cbn [asin RefMath.lib RefMath.asin].
    destruct (gt _ one); [reflexivity |].
    destruct (RefMath.tiny m e); [exact V |].
    rewrite valid_with_sign. apply normalize_valid.
  - intros x V. destruct x as [s | s | | s m e]; try reflexivity.
    + destruct s; reflexivity.
    + cbn [log RefMath.lib RefMath.log].
      destruct s; [reflexivity | apply normalize_valid].
  - intros y. destruct y; reflexivity.
  - reflexivity.
Qed.

Section Angles.

Variable M : MathLib.
Hypothesis HR : BoundedRanges M.
Hypothesis HN : NaNPropagation M.
Hypothesis HH : HostNumbers M.

(** An arctangent of two binary64 numbers is NaN or an angle of
    [-PI, PI]. *)
Lemma atan2_total (y x : number) :
  valid y = true -> valid x = true ->
  atan2 M y x = NaN \/ within PI (atan2 M y x) = true.
Proof.
  intros Vy Vx.
  destruct (isNaN y) eqn:Ny.
  { left. rewrite (isNaN_eq _ Ny). apply (atan2_nan M HN). }
  destruct (isNaN x) eqn:Nx.
  { left. rewrite (isNaN_eq _ Nx). apply (atan2_nan_r M HH). }
  right. apply (atan2_range M HR); assumption.
Qed.

(** The angle of [bearingTo] and [finalBearingTo]. *)
Lemma bearing_angle_total (lat1 lat2 dLon : number) :
  valid lat1 = true -> valid lat2 = true -> valid dLon = true ->
  let y := mul (sin M dLon) (cos M lat2) in
  let x := sub (mul (cos M lat1) (sin M lat2))
               (mul (mul (sin M lat1) (cos M lat2)) (cos M dLon)) in
  atan2 M y x = NaN \/ within PI (atan2 M y x) = true.
Proof.
  intros V1 V2 V3 y x.
  pose proof (sin_valid M HH) as S. pose proof (cos_valid M HH) as C.
  apply atan2_total.
  - apply mul_valid; [apply S | apply C]; assumption.
  - apply sub_valid; [apply mul_valid; [apply C | apply S]; assumption |].
    apply mul_valid; [apply mul_valid; [apply S | apply C] | apply C];
      assumption.
Qed.

(** [(t + 180) % 360] for a [t] of [-180, 180] lies in [0, 360). *)
Lemma reverse_degrees (t : number) :
  within (of_Z 180) t = true ->
  le pzero (fmod (add t (of_Z 180)) (of_Z 360)) = true
  /\ lt (fmod (add t (of_Z 180)) (of_Z 360)) (of_Z 360) = true.
Proof.
  rewrite n180_eq, n360_eq. intros Ht.
  assert (Hd : within (S754_finite false 6333186975989760 (-44))
                 (add t (S754_finite false 6333186975989760 (-45))) = true).
  { apply (add_sub_within 6333186975989760 6333186975989760 6333186975989760
             (-45) (-45) (-44)); try reflexivity; try assumption;
      try by_computation. }
  assert (Hs : sign_bit (add t (S754_finite false 6333186975989760 (-45)))
               = false).
  { apply (add_pos_sign 6333186975989760 6333186975989760 (-45) (-45));
      try reflexivity; try assumption; try by_computation. }
  apply within_finite in Hd. destruct Hd as (Vd & Fd & _).
  apply fmod_range; try assumption. reflexivity.
Qed.

End Angles.

(** X12.  [finalBearingTo] on two points with numeric coordinates returns
    NaN or a number of [0, 360); it is a number of [0, 360) when the two
    latitudes and the difference of the longitudes remain finite in
    radians. *)
Theorem finalBearingTo_range (M : MathLib)
  (lon1 lat1 R1 lon2 lat2 R2 : number) :
  BoundedRanges M -> NaNPropagation M -> HostNumbers M ->
  valid lat1 = true -> valid lon1 = true ->
  valid lat2 = true -> valid lon2 = true ->
  exists b,
    finalBearingTo M (point lon1 lat1 R1) (point lon2 lat2 R2) = Ok b
    /\ (b = NaN \/ (le pzero b = true /\ lt b (of_Z 360) = true))
    /\ (is_finite (toRad lat1) = true -> is_finite (toRad lat2) = true ->
        is_finite (toRad (sub lon1 lon2)) = true ->
        le pzero b = true /\ lt b (of_Z 360) = true).
Proof.
  intros HR HN HH V1 V2 V3 V4.
  unfold finalBearingTo, point.
  cbn [_lat _lon method_toRad bind ToNumber].
  eexists. split; [reflexivity |].
  pose proof (toRad_valid lat1 V1) as W1.
  pose proof (toRad_valid lat2 V3) as W2.
  pose proof (toRad_valid _ (sub_valid lon1 lon2 V2 V4)) as W3.
  split.
  - destruct (bearing_angle_total M HR HN HH (toRad lat2) (toRad lat1)
                (toRad (sub lon1 lon2)) W2 W1 W3) as [E | W].
    + left. rewrite E. reflexivity.
    + right. apply reverse_degrees, toDeg_within_180, W.
  - intros F1 F2 F3.
    pose proof (sin_range M HR _ W1 F1) as S1.
    pose proof (sin_range M HR _ W2 F2) as S2.
    pose proof (sin_range M HR _ W3 F3) as S3.
    pose proof (cos_range M HR _ W1 F1) as C1.
    pose proof (cos_range M HR _ W2 F2) as C2.
    pose proof (cos_range M HR _ W3 F3) as C3.
    apply reverse_degrees, toDeg_within_180.
    assert (Hy : within one (mul (sin M (toRad (sub lon1 lon2)))
                               (cos M (toRad lat1))) = true)
      by (apply unit_mul; assumption).
    assert (Hx : within two
                   (sub (mul (cos M (toRad lat2)) (sin M (toRad lat1)))
                        (mul (mul (sin M (toRad lat2)) (cos M (toRad lat1)))
                             (cos M (toRad (sub lon1 lon2))))) = true).
    { apply unit_sub; [apply unit_mul; assumption |].
      apply unit_mul; [apply unit_mul |]; assumption. }
    rewrite one_eq in Hy. rewrite two_eq in Hx.
    apply within_finite in Hy, Hx.
    destruct Hy as (Vy & _ & Ny), Hx as (Vx & _ & Nx).
    apply (atan2_range M HR); assumption.
Qed.

Lemma finalBearingTo_range_witness :
  exists b,
    finalBearingTo RefMath.lib london moon_point = Ok b
    /\ (b = NaN \/ (le pzero b = true /\ lt b (of_Z 360) = true))
    /\ (is_finite (toRad (of_dec 515136 (-4))) = true ->
        is_finite (toRad one) = true ->
        is_finite (toRad (sub (neg (of_dec 983 (-4))) pzero)) = true ->
        le pzero b = true /\ lt b (of_Z 360) = true).
Proof.
  apply (finalBearingTo_range RefMath.lib (neg (of_dec 983 (-4)))
           (of_dec 515136 (-4)) earth_radius pzero one (of_Z 1737)
           RefMath_BoundedRanges RefMath_NaNPropagation RefMath_HostNumbers);
    reflexivity.
Defined.

(** X13.  [rhumbBearingTo] on two points with numeric coordinates returns
    NaN or a number of [0, 360). *)
Theorem rhumbBearingTo_range (M : MathLib)
  (lon1 lat1 R1 lon2 lat2 R2 : number) :
  BoundedRanges M -> NaNPropagation M -> HostNumbers M ->
  valid lat1 = true -> valid lon1 = true ->
  valid lat2 = true -> valid lon2 = true ->
  exists b,
    rhumbBearingTo M (point lon1 lat1 R1) (point lon2 lat2 R2) = Ok b
    /\ (b = NaN \/ (le pzero b = true /\ lt b (of_Z 360) = true)).
Proof.
  intros HR HN HH V1 V2 V3 V4.
  unfold rhumbBearingTo, point.
  cbn [_lat _lon method_toRad bind ToNumber].
  eexists. split; [reflexivity |].
  pose proof (toRad_valid lat1 V1) as W1.
  pose proof (toRad_valid lat2 V3) as W2.
  pose proof (toRad_valid _ (sub_valid lon2 lon1 V4 V2)) as W3.
  assert (VP : valid PI = true) by reflexivity.
  assert (V2P : valid (mul two PI) = true) by reflexivity.
  assert (Vq : valid (div PI (of_Z 4)) = true) by reflexivity.
  assert (Vh : forall u, valid u = true ->
                         valid (tan M (add (div u two) (div PI (of_Z 4))))
                         = true).
  { intros u Vu. apply (tan_valid M HH), add_valid; [| exact Vq].
    apply div_valid; [exact Vu | reflexivity]. }
  match goal with
  | |- context [atan2 M ?dl ?dp] =>
      destruct (atan2_total M HR HN HH dl dp) as [E | W]
  end.
  - destruct (gt (abs (toRad (sub lon2 lon1))) PI); [| exact W3].
    destruct (gt (toRad (sub lon2 lon1)) pzero).
    + rewrite valid_neg. apply sub_valid; assumption.
    + apply add_valid; assumption.
  - apply (log_valid M HH), div_valid; apply Vh; assumption.
  - left. rewrite E. reflexivity.
  - right. apply normalise_degrees, toDeg_within, W.
Qed.

Lemma rhumbBearingTo_range_witness :
  exists b,
    rhumbBearingTo RefMath.lib london moon_point = Ok b
    /\ (b = NaN \/ (le pzero b = true /\ lt b (of_Z 360) = true)).
Proof.
  apply (rhumbBearingTo_range RefMath.lib (neg (of_dec 983 (-4)))
           (of_dec 515136 (-4)) earth_radius pzero one (of_Z 1737)
           RefMath_BoundedRanges RefMath_NaNPropagation RefMath_HostNumbers);
    reflexivity.
Defined.

(** ** The rhumb-line distance of a point to itself *)

Lemma div_zero_l (v : number) :
  div pzero v = NaN \/ exists s, div pzero v = S754_zero s.
Proof.
  destruct v as [s | s | | s m e]; cbn;
    try (left; reflexivity); right; eexists; reflexivity.
Qed.

Lemma mul_zero_l (x : number) (s : bool) :
  is_finite x = true -> mul (S754_zero s) x = S754_zero (xorb s (sign_bit x)).
Proof. destruct x; try discriminate; reflexivity. Qed.

(** The term [q*q*dLon*dLon] of the rhumb-line distance when the longitudes
    are equal. *)
Lemma rhumb_term_zero (q : number) :
  within one q = true -> mul (mul (mul q q) pzero) pzero = pzero.
Proof.
  intros W. destruct (unit_mul _ _ W W) as [W2 S2].
  rewrite xorb_nilpotent in S2.
  rewrite one_eq in W2. apply within_finite in W2.
  destruct W2 as (_ & F2 & _).
  change pzero with (S754_zero false).
  rewrite (mul_zero_r _ false F2), S2. reflexivity.
Qed.

(** X14.  The rhumb-line distance of a point to itself is ["0.0000"],
    whatever the Math library returns for the logarithm and the tangents:
    for a point whose coordinates and radius are finite and whose latitude
    remains finite in radians. *)
Theorem rhumbDistanceTo_self (M : MathLib) (lon lat R : number) (fuel : nat) :
  BoundedRanges M ->
  valid lat = true -> is_finite lat = true -> is_finite (toRad lat) = true ->
  is_finite lon = true -> is_finite R = true ->
  (5 <= fuel)%nat ->
  rhumbDistanceTo M fuel (point lon lat R) (point lon lat R)
  = Ok "0.0000"%string.
Proof.
  intros HR V F1 F2 F3 F4 Hf.
  unfold rhumbDistanceTo, point.
  cbn [_lat _lon _radius method_toRad bind ToNumber].
  rewrite !sub_diag by assumption.
  change (toRad pzero) with pzero. change (toRad (abs pzero)) with pzero.
  change (gt pzero PI) with false. cbv iota.
  change (mul pzero pzero) with pzero.
  match goal with
  | |- context [div pzero ?v] =>
      assert (Q : within one
                    (if negb (isNaN (div pzero v)) then div pzero v
                     else cos M (toRad lat)) = true)
  end.
  { match goal with
    | |- context [div pzero ?v] => destruct (div_zero_l v) as [E | [s E]]
    end; rewrite E; cbn [isNaN negb].
    - apply (cos_range M HR); [apply toRad_valid |]; assumption.
    - reflexivity. }
  rewrite (rhumb_term_zero _ Q).
  change (sqrt (add pzero pzero)) with (S754_zero false).
  rewrite (mul_zero_l R false F4).
  apply toPrecisionFixed_zero. assumption.
Qed.

Lemma rhumbDistanceTo_self_witness :
  rhumbDistanceTo RefMath.lib 5 london london = Ok "0.0000"%string.
Proof.
  apply (rhumbDistanceTo_self RefMath.lib (neg (of_dec 983 (-4)))
           (of_dec 515136 (-4)) earth_radius 5 RefMath_BoundedRanges);
    try reflexivity; lia.
Defined.

(** ** Two paths from the same point *)

(** X15.  [intersection] of two paths that start from the same point is
    [null], whatever the two bearings: the angular distance of the point to
    itself is zero. *)
Theorem intersection_of_paths_from_one_point (M : MathLib)
  (lon lat R R' b1 b2 : number) :
  SpecialValues M -> BoundedRanges M -> HostNumbers M ->
  valid lat = true ->
  is_finite (toRad lat) = true -> is_finite (toRad lon) = true ->
  intersection M (point lon lat R) (VNum b1) (point lon lat R') (VNum b2)
  = Ok None.
Proof.
  intros HS HR HH V F1 F2.
  unfold intersection, point.
  cbn [_lat _lon typeof String.eqb Ascii.eqb Bool.eqb bind method_toRad].
  unfold angular_distance.
  rewrite (haversine_self M HS HR (toRad lat) (toRad lon)
             (toRad_valid lat V) F1 F2).
  change (sqrt pzero) with pzero. rewrite (asin_zero M HH).
  reflexivity.
Qed.

Lemma intersection_of_paths_from_one_point_witness :
  intersection RefMath.lib london (VNum (of_Z 10))
    (point (neg (of_dec 983 (-4))) (of_dec 515136 (-4)) (of_Z 1737))
    (VNum (of_Z 200))
  = Ok None.
Proof.
  apply (intersection_of_paths_from_one_point RefMath.lib
           (neg (of_dec 983 (-4))) (of_dec 515136 (-4)) earth_radius
           (of_Z 1737) (of_Z 10) (of_Z 200)
           RefMath_SpecialValues RefMath_BoundedRanges RefMath_HostNumbers);
    reflexivity.
Defined.

(** ** Formatting zero *)

Lemma gt_zero_truthy (x : number) : gt x pzero = true -> truthy x = true.
Proof. destruct x as [s | s | | s m e]; try discriminate; reflexivity. Qed.

(** [while (precision--) n += '0'] on a small natural number. *)
Lemma pad_precision_counts (k : nat) :
  forall (fuel : nat) (n : string),
    (k <= 326)%nat -> (k < fuel)%nat ->
    pad_precision fuel (of_Z (Z.of_nat k)) n = Ok (n ++ Str.zeros k)%string.
Proof.
  induction k as [| k IH]; intros fuel n Hk Hf.
  - destruct fuel as [| fuel]; [lia |]. cbn. rewrite append_empty_r.
    reflexivity.
  - destruct fuel as [| fuel]; [lia |].
    destruct (count_down (Z.of_nat (S k)) ltac:(lia)) as [G D].
    cbn [pad_precision]. rewrite (gt_zero_truthy _ G), D.
    replace (Z.of_nat (S k) - 1) with (Z.of_nat k) by lia.
    rewrite IH by lia. cbn [Str.zeros]. rewrite append_assoc. reflexivity.
Qed.

(** X16.  Zero (of either sign) at a precision of [k] digits, for a natural
    number [k] up to 326, is ["0."] followed by [k] zeros: the loop
    [while (precision--)] runs [k] times. *)
Theorem toPrecisionFixed_of_zero (M : MathLib) (s : bool) (k fuel : nat) :
  (k <= 326)%nat -> (k < fuel)%nat ->
  toPrecisionFixed M fuel (S754_zero s) (of_Z (Z.of_nat k))
  = Ok ("0." ++ Str.zeros k)%string.
Proof.
  intros Hk Hf.
  assert (E : toPrecisionFixed M fuel (S754_zero s) (of_Z (Z.of_nat k))
              = pad_precision fuel (of_Z (Z.of_nat k)) "0.")
    by (destruct s; reflexivity).
  rewrite E. apply pad_precision_counts; assumption.
Qed.

Lemma toPrecisionFixed_of_zero_witness :
  toPrecisionFixed RefMath.lib 3 nzero (of_Z (Z.of_nat 2))
  = Ok ("0." ++ Str.zeros 2)%string.
Proof.
  apply (toPrecisionFixed_of_zero RefMath.lib true 2 3); lia.
Defined.

(** Subtracting one from a negative number gives a negative number. *)
Lemma sub_one_negative (x : number) :
  valid x = true -> lt x pzero = true -> lt (sub x one) pzero = true.
Proof.
  intros V L. pose proof bias_val as Hbias.
  destruct x as [s | s | | s m e]; try discriminate.
  { destruct s; [reflexivity | discriminate]. }
  destruct s; [| discriminate]. clear L.
  destruct (valid_finite_bounds _ _ _ V) as (Be & _).
  rewrite one_eq. unfold sub, SFsub. cbn [cond_Zopp negb].
  remember (Z.min e (-52)) as ez eqn:Eez.
  pose proof (aligned_scaled 4503599627370496 (-52) ez ltac:(lia) ltac:(lia))
    as Ab.
  rewrite scaled_one in Ab.
  remember (Zpos (fst (shl_align m e ez))) as a eqn:Ea.
  remember (Zpos (fst (shl_align 4503599627370496 (-52) ez))) as b eqn:Eb.
  assert (Ha : 0 < a) by (subst a; lia).
  assert (Hb : b = 2 ^ (- ez)).
  { replace bias with (- ez + (ez + bias)) in Ab at 2 by lia.
    rewrite (pow2_add (- ez) (ez + bias)) in Ab by lia.
    pose proof (pow2_pos (ez + bias) ltac:(lia)).
    apply (Z.mul_cancel_r _ _ (2 ^ (ez + bias))); [lia | exact Ab]. }
  remember (- a - b) as z eqn:Ez.
  pose proof (pow2_pos (- ez) ltac:(lia)) as Hpb.
  destruct z as [| p | p]; try lia.
  assert (Hp : 2 ^ (- ez) <= Zpos p) by lia.
  cbn [binary_normalize]. unfold binary_round.
  pose proof (shl_align_spec p ez
                (fexp prec emax (Zpos (digits2_pos p) + ez))) as [S1 S2].
  change (Zpos (digits2_pos p)) with (Zdigits2 (Zpos p)) in *.
  rewrite fexp_eq in *.
  pose proof (Zdigits2_bounds (Zpos p) ltac:(lia)) as [B1 B2].
  pose proof (Zdigits2_pos_pos p) as Hd.
  assert (Hde : 0 < Zdigits2 (Zpos p) + ez).
  { pose proof (Zdigits2_ge_pow (Zpos p) (- ez) ltac:(lia) Hp). lia. }
  destruct (shl_align p ez (Z.max (Zdigits2 (Zpos p) + ez - 53) (-1074)))
    as [mz ez'] eqn:Esh. cbn [fst snd] in S1.
  assert (Hnz : exists q e3,
             binary_round_aux prec emax true (Zpos mz) ez' loc_Exact
             = pack true (Zpos q) e3).
  { destruct (Z_le_gt_dec (Z.max (Zdigits2 (Zpos p) + ez - 53) (-1074)) ez)
      as [Hsh | Hsh].
    - destruct (S1 Hsh) as [A B].
      assert (Hdz : Zdigits2 (Zpos mz)
                    = Zdigits2 (Zpos p)
                      + (ez - Z.max (Zdigits2 (Zpos p) + ez - 53) (-1074))).
      { apply Zdigits2_unique; [lia |]. rewrite A.
        remember (ez - Z.max (Zdigits2 (Zpos p) + ez - 53) (-1074)) as k.
        replace (Zdigits2 (Zpos p) + k - 1)
          with (Zdigits2 (Zpos p) - 1 + k) by lia.
        rewrite (pow2_add (Zdigits2 (Zpos p) - 1)),
          (pow2_add (Zdigits2 (Zpos p))) by lia.
        pose proof (pow2_pos k ltac:(lia)).
        split; [apply Z.mul_le_mono_nonneg_r; lia
               | apply Z.mul_lt_mono_pos_r; lia]. }
      destruct (binary_round_aux_spec true (Zpos mz) ez' loc_Exact
                  ltac:(lia)) as (m3 & e3 & Hout & Hm3 & _ & _ & Hval & _).
      { rewrite fexp_eq. lia. }
      rewrite fexp_eq in Hval.
      replace (Z.max (Zdigits2 (Zpos mz) + ez' - 53) (-1074) - ez') with 0
        in Hval by lia.
      change (2 ^ 0) with 1 in Hval. rewrite Z.div_1_r in Hval.
      destruct m3 as [| q | q]; [lia | | lia].
      exists q, e3. exact Hout.
    - pose proof (S2 ltac:(lia)) as E. injection E as -> ->.
      destruct (binary_round_aux_spec true (Zpos p) ez loc_Exact
                  ltac:(lia)) as (m3 & e3 & Hout & Hm3 & _ & _ & Hval & _).
      { rewrite fexp_eq. lia. }
      rewrite fexp_eq in Hval.
      remember (Z.max (Zdigits2 (Zpos p) + ez - 53) (-1074) - ez) as n.
      pose proof (pow2_pos n ltac:(lia)) as Hpn.
      assert (Hq : 1 <= Zpos p / 2 ^ n).
      { apply Z.div_le_lower_bound; [assumption |]. rewrite Z.mul_1_r.
        destruct (Z_le_gt_dec (Zdigits2 (Zpos p) + ez - 53) (-1074)).
        - transitivity (2 ^ (- ez)); [| assumption].
          apply pow2_le_mono. lia.
        - transitivity (2 ^ (Zdigits2 (Zpos p) - 1)); [| assumption].
          apply pow2_le_mono. lia. }
      destruct m3 as [| q | q]; [| | lia].
      + exfalso. destruct Hval as [Hval | Hval]; nia.
      + exists q, e3. exact Hout. }
  destruct Hnz as (q & e3 & Hout). rewrite Hout. unfold pack.
  destruct (e3 <=? emax - prec); reflexivity.
Qed.

Lemma negative_truthy (x : number) : lt x pzero = true -> truthy x = true.
Proof.
  destruct x as [s | s | | s m e]; try discriminate; try reflexivity.
Qed.

Lemma pad_precision_negative (fuel : nat) :
  forall (x : number) (n : string),
    valid x = true -> lt x pzero = true -> pad_precision fuel x n = OutOfFuel.
Proof.
  induction fuel as [| fuel IH]; intros x n V L; [reflexivity |].
  cbn [pad_precision]. rewrite (negative_truthy x L).
  apply IH; [apply sub_valid; [assumption | reflexivity] |].
  apply sub_one_negative; assumption.
Qed.

Lemma pad_precision_infinite (fuel : nat) :
  forall n, pad_precision fuel pInf n = OutOfFuel.
Proof.
  induction fuel as [| fuel IH]; intros n; [reflexivity |].
  cbn [pad_precision truthy pInf]. change (sub pInf one) with pInf.
  apply IH.
Qed.

(** X17.  Zero is never formatted at a negative precision or at the
    precision +Infinity: [while (precision--)] ends only when the counter
    is exactly zero, which it never is again. *)
Theorem toPrecisionFixed_of_zero_never_returns (M : MathLib) (s : bool)
  (precision : number) (fuel : nat) :
  valid precision = true ->
  lt precision pzero = true \/ precision = pInf ->
  toPrecisionFixed M fuel (S754_zero s) precision = OutOfFuel.
Proof.
  intros V H.
  assert (E : toPrecisionFixed M fuel (S754_zero s) precision
              = pad_precision fuel precision "0.")
    by (destruct s; reflexivity).
  rewrite E. destruct H as [L | ->].
  - apply pad_precision_negative; assumption.
  - apply pad_precision_infinite.
Qed.

Lemma toPrecisionFixed_of_zero_never_returns_witness :
  toPrecisionFixed RefMath.lib 1000 pzero (neg one) = OutOfFuel.
Proof.
  apply (toPrecisionFixed_of_zero_never_returns RefMath.lib false (neg one)
           1000); [reflexivity | left; reflexivity].
Defined.

(** ** [getSquarePoints] *)

Lemma destinationPoint_numeric (M : MathLib) (lon lat R b : number)
  (dist : value) :
  exists x y,
    destinationPoint M (point lon lat R) (VNum b) dist
    = Ok (point x y earth_radius).
Proof.
  unfold destinationPoint.
  destruct (coerce_with_method_ok dist) as [w Hw]. rewrite Hw.
  cbn [point _lat _lon _radius method_toRad bind].
  rewrite LngLat_new_numbers. eexists. eexists. reflexivity.
Qed.

(** X18.  From a point with numeric coordinates, [getSquarePoints] returns
    eight entries, under the keys n, ne, e, es, s, sw, w, wn in this order
    (there is no key se or nw): the destination points at the bearings 0,
    45, ..., 315, each of the default radius whatever the radius of the
    receiver.  With [format] the boolean [true], and with no other value,
    the entries are the strings ["lon,lat"] of these points. *)
Theorem getSquarePoints_entries (M : MathLib)
  (toFixed : number -> value -> result string) (lon lat R : number)
  (distance format : value) :
  exists f : Z -> LngLat,
    (forall b,
       destinationPoint M (point lon lat R) (VNum (of_Z b)) distance
       = Ok (f b)
       /\ _radius (f b) = VNum earth_radius)
    /\ (exists o,
          getSquarePoints M toFixed (point lon lat R) distance format = Ok o
          /\ o = map (fun kb : string * Z =>
                        (fst kb,
                         match format with
                         | VBool true =>
                             EString (ToString (_lon (f (snd kb))) ++ ","
                                      ++ ToString (_lat (f (snd kb))))
                         | _ => EPoint (f (snd kb))
                         end))
                   [("n", 0); ("ne", 45); ("e", 90); ("es", 135);
                    ("s", 180); ("sw", 225); ("w", 270); ("wn", 315)]
          /\ lookup "se" o = None /\ lookup "nw" o = None
          /\ lookup "es" o <> None /\ lookup "wn" o <> None).
Proof.
  exists (fun b =>
            match destinationPoint M (point lon lat R) (VNum (of_Z b))
                    distance with
            | Ok p => p
            | _ => point lon lat R
            end).
  assert (F : forall b,
             exists x y,
               destinationPoint M (point lon lat R) (VNum (of_Z b)) distance
               = Ok (point x y earth_radius)
               /\ match destinationPoint M (point lon lat R)
                          (VNum (of_Z b)) distance with
                  | Ok p => p
                  | _ => point lon lat R
                  end = point x y earth_radius).
  { intros b.
    destruct (destinationPoint_numeric M lon lat R (of_Z b) distance)
      as (x & y & E).
    exists x, y. rewrite E. split; reflexivity. }
  split.
  - intros b. destruct (F b) as (x & y & E1 & E2).
    rewrite E2. split; [exact E1 | reflexivity].
  - unfold getSquarePoints, square_entries. cbv zeta.
    destruct (F 0) as (x0 & y0 & A0 & B0).
    destruct (F 45) as (x1 & y1 & A1 & B1).
    destruct (F 90) as (x2 & y2 & A2 & B2).
    destruct (F 135) as (x3 & y3 & A3 & B3).
    destruct (F 180) as (x4 & y4 & A4 & B4).
    destruct (F 225) as (x5 & y5 & A5 & B5).
    destruct (F 270) as (x6 & y6 & A6 & B6).
    destruct (F 315) as (x7 & y7 & A7 & B7).
    cbn [map fst snd].
    rewrite B0, B1, B2, B3, B4, B5, B6, B7.
    destruct format as [| | [|] | u | t];
      rewrite A0, A1, A2, A3, A4, A5, A6, A7;
      cbn [bind toLngLat ToBoolean point _lat _lon];
      (eexists; split; [reflexivity |]; split; [reflexivity |];
       repeat split; discriminate).
Qed.

(** ** The longitude of a destination point *)

Lemma fmod_valid (d y : number) :
  valid d = true -> valid y = true -> valid (fmod d y) = true.
Proof.
  intros Vd Vy.
  destruct d as [sd | sd | | sd md ed], y as [sy | sy | | sy my ey];
    try reflexivity; try assumption.
  unfold fmod. destruct (_ =? 0); [reflexivity | apply normalize_valid].
Qed.

(** The remainder of a non-negative number by a positive one is a zero or a
    positive number below the divisor. *)
Lemma fmod_below (d : number) (mY : positive) (eY : Z) :
  valid d = true -> is_finite d = true -> sign_bit d = false ->
  valid (S754_finite false mY eY) = true ->
  (exists s, fmod d (S754_finite false mY eY) = S754_zero s)
  \/ (exists m e,
        fmod d (S754_finite false mY eY) = S754_finite false m e
        /\ valid (S754_finite false m e) = true
        /\ scaled (Zpos m) e < scaled (Zpos mY) eY).
Proof.
  intros Vd Fd Sd VY.
  pose proof (fmod_valid d _ Vd VY) as Vr.
  destruct (fmod_range d mY eY Vd Fd Sd VY) as [L U].
  destruct (fmod d (S754_finite false mY eY)) as [s | s | | s m e];
    try discriminate.
  - left. exists s. reflexivity.
  - destruct s; try discriminate.
  - destruct s; [discriminate |].
    right. exists m, e. split; [reflexivity |]. split; [exact Vr |].
    apply (mag_lex false false m mY e eY Vr VY).
    unfold lt, SFltb in U. rewrite compare_finite_pos in U.
    destruct (Z.compare_spec e eY) as [-> | Hlt | Hgt]; try discriminate.
    + right. split; [reflexivity |].
      destruct (Pos.compare_spec m mY); try discriminate. assumption.
    + left. assumption.
Qed.

(** A number of [0, 2 P) less [P] is within [P]. *)
Lemma sub_half_turn (mP : positive) (eP : Z) (r : number) :
  valid (S754_finite false mP eP) = true ->
  valid (S754_finite false mP (eP + 1)) = true ->
  (exists s, r = S754_zero s)
  \/ (exists m e,
        r = S754_finite false m e
        /\ valid (S754_finite false m e) = true
        /\ scaled (Zpos m) e < scaled (Zpos mP) (eP + 1)) ->
  within (S754_finite false mP eP) (sub r (S754_finite false mP eP)) = true.
Proof.
  intros VP VP2 H. pose proof bias_val as Hbias.
  destruct (valid_finite_bounds _ _ _ VP) as (BP & _).
  destruct H as [[s ->] | (m & e & -> & Vr & Hlt)].
  - apply within_mag; [assumption |]. split; [exact VP |].
    split; [reflexivity |]. cbn [sub SFsub mag]. lia.
  - destruct (valid_finite_bounds _ _ _ Vr) as (Br & _).
    pose proof (aligned_scaled m e (Z.min e eP) ltac:(lia) ltac:(lia)) as Ar.
    pose proof (aligned_scaled mP eP (Z.min e eP) ltac:(lia) ltac:(lia))
      as AP.
    pose proof (pow2_pos (Z.min e eP + bias) ltac:(lia)) as Hp.
    assert (H2 : scaled (Zpos mP) (eP + 1) = 2 * scaled (Zpos mP) eP).
    { unfold scaled. replace (eP + 1 + bias) with (eP + bias + 1) by lia.
      rewrite pow2_succ by lia. ring. }
    pose proof (scaled_pos m e ltac:(lia)) as Pr.
    unfold sub, SFsub. cbn [cond_Zopp].
    remember (Zpos (fst (shl_align m e (Z.min e eP)))) as a.
    remember (Zpos (fst (shl_align mP eP (Z.min e eP)))) as b.
    apply normalize_spec; [lia | assumption |].
    pose proof (scaled_pos mP eP ltac:(lia)) as PP.
    remember (2 ^ (Z.min e eP + bias)) as P2.
    remember (scaled (Zpos m) e) as Sr. remember (scaled (Zpos mP) eP) as SP.
    destruct (Z.abs_spec (a - b)) as [[_ E] | [_ E]]; rewrite E; lia.
Qed.

Lemma two_pi_eq : mul two PI = S754_finite false 7074237752028440 (-50).
Proof. vm_compute. reflexivity. Qed.

Lemma three_pi_eq :
  mul (of_Z 3) PI = S754_finite false 5305678314021330 (-49).
Proof. vm_compute. reflexivity. Qed.

(** [(lon + 3 pi) % (2 pi) - pi], in degrees, for a [lon] of at most
    [2 pi] in magnitude. *)
Lemma normalise_longitude (l : number) :
  within (mul two PI) l = true ->
  within (of_Z 180)
    (toDeg (sub (fmod (add l (mul (of_Z 3) PI)) (mul two PI)) PI)) = true.
Proof.
  rewrite two_pi_eq, three_pi_eq. intros Hl.
  assert (Hd : within (S754_finite false 4503599627370496 (-48))
                 (add l (S754_finite false 5305678314021330 (-49))) = true).
  { apply (add_sub_within 7074237752028440 5305678314021330 4503599627370496
             (-50) (-49) (-48)); try reflexivity; try assumption;
      try by_computation. }
  assert (Hs : sign_bit (add l (S754_finite false 5305678314021330 (-49)))
               = false).
  { apply (add_pos_sign 7074237752028440 5305678314021330 (-50) (-49));
      try reflexivity; try assumption; try by_computation. }
  apply within_finite in Hd. destruct Hd as (Vd & Fd & _).
  apply toDeg_within_180. rewrite PI_eq.
  apply (sub_half_turn 7074237752028440 (-51)); try reflexivity.
  apply (fmod_below _ 7074237752028440 (-50)); try assumption. reflexivity.
Qed.

(** X19.  [destinationPoint] from a point whose longitude is in
    [-180, 180], with a numeric bearing and distance, returns a longitude
    that is NaN or in [-180, 180]: the normalisation
    [(lon2 + 3 pi) % (2 pi) - pi] brings it back. *)
Theorem destinationPoint_longitude_range (M : MathLib)
  (lon lat R b d : number) :
  BoundedRanges M -> NaNPropagation M -> HostNumbers M ->
  valid lon = true -> valid lat = true -> valid R = true ->
  valid b = true -> valid d = true ->
  within (of_Z 180) lon = true ->
  exists x y,
    destinationPoint M (point lon lat R) (VNum b) (VNum d)
    = Ok (point x y earth_radius)
    /\ (x = NaN \/ within (of_Z 180) x = true).
Proof.
  intros HR HN HH V1 V2 V3 V4 V5 W.
  unfold destinationPoint, point.
  cbn [_lat _lon _radius typeof String.eqb Ascii.eqb Bool.eqb bind
       method_toRad ToNumber].
  rewrite LngLat_new_numbers. eexists. eexists. split; [reflexivity |].
  pose proof (sin_valid M HH) as S. pose proof (cos_valid M HH) as C.
  pose proof (toRad_valid lat V2) as W1.
  pose proof (toRad_valid b V4) as W2.
  pose proof (div_valid d R V5 V3) as W3.
  match goal with
  | |- context [atan2 M ?y ?x] =>
      destruct (atan2_total M HR HN HH y x) as [E | A]
  end.
  - apply mul_valid; [apply mul_valid; [apply S | apply S] | apply C];
      assumption.
  - apply sub_valid; [apply C; assumption |].
    apply mul_valid; [apply S; assumption |].
    apply S, (asin_valid M HH), add_valid.
    + apply mul_valid; [apply S | apply C]; assumption.
    + apply mul_valid; [apply mul_valid; [apply C | apply S] | apply C];
        assumption.
  - left. rewrite E, add_nan_r. reflexivity.
  - right. apply normalise_longitude.
    pose proof (toRad_within_PI lon W) as L.
    rewrite two_pi_eq. rewrite PI_eq in L, A.
    apply (add_sub_within 7074237752028440 7074237752028440 7074237752028440
             (-51) (-51) (-50)); try reflexivity; try assumption;
      try by_computation.
Qed.

Lemma destinationPoint_longitude_range_witness :
  exists x y,
    destinationPoint RefMath.lib london (VNum (of_Z 45)) (VNum (of_Z 100))
    = Ok (point x y earth_radius)
    /\ (x = NaN \/ within (of_Z 180) x = true).
Proof.
  apply (destinationPoint_longitude_range RefMath.lib
           (neg (of_dec 983 (-4))) (of_dec 515136 (-4)) earth_radius
           (of_Z 45) (of_Z 100)
           RefMath_BoundedRanges RefMath_NaNPropagation RefMath_HostNumbers);
    reflexivity.
Defined.

(** ** The great-circle distance always comes back *)

(** The number of binary digits of an integer square root. *)
Lemma Zdigits2_sqrt (n : Z) :
  0 < n -> Zdigits2 (Z.sqrt n) = Z.div2 (Zdigits2 n + 1).
Proof.
  intros Hn. pose proof (Zdigits2_bounds n Hn) as [B1 B2].
  assert (Hd : 0 < Zdigits2 n) by (destruct n; simpl; lia).
  rewrite Z.div2_div.
  remember (Zdigits2 n) as D eqn:ED.
  assert (Hq : 0 < Z.sqrt n) by (apply Z.sqrt_pos; lia).
  pose proof (Z.sqrt_spec n ltac:(lia)) as [Q1 Q2].
  remember (Z.sqrt n) as q eqn:Eq.
  remember ((D + 1) / 2) as k eqn:Ek.
  assert (Hk : 2 * k = D + 1 \/ 2 * k = D).
  { pose proof (Z.div_mod (D + 1) 2 ltac:(lia)) as E.
    pose proof (Z.mod_pos_bound (D + 1) 2 ltac:(lia)). lia. }
  apply Zdigits2_unique; [assumption |].
  assert (Hk1 : 0 < k) by lia.
  pose proof (pow2_pos (k - 1) ltac:(lia)) as P1.
  pose proof (pow2_pos k ltac:(lia)) as P2.
  assert (S1 : 2 ^ (k - 1) * 2 ^ (k - 1) = 2 ^ (2 * k - 2)).
  { rewrite <- pow2_add by lia. f_equal. lia. }
  assert (S2 : 2 ^ k * 2 ^ k = 2 ^ (2 * k)).
  { rewrite <- pow2_add by lia. f_equal. lia. }
  assert (L1 : 2 ^ (2 * k - 2) <= n).
  { transitivity (2 ^ (D - 1)); [| assumption].
    apply pow2_le_mono. lia. }
  assert (L2 : n < 2 ^ (2 * k)).
  { apply Z.lt_le_trans with (2 ^ D); [assumption |].
    apply pow2_le_mono. lia. }
  split.
  - destruct (Z_le_gt_dec (2 ^ (k - 1)) q) as [H | H]; [assumption |].
    exfalso.
    assert (q + 1 <= 2 ^ (k - 1)) by lia.
    assert ((q + 1) * (q + 1) <= 2 ^ (k - 1) * 2 ^ (k - 1))
      by (apply Z.mul_le_mono_nonneg; lia).
    unfold Z.succ in Q2. lia.
  - destruct (Z_lt_ge_dec q (2 ^ k)) as [H | H]; [assumption |].
    exfalso.
    assert (2 ^ k * 2 ^ k <= q * q) by (apply Z.mul_le_mono_nonneg; lia).
    lia.
Qed.

Lemma div2_shift (x k : Z) : Z.div2 (x - 2 * k) = Z.div2 x - k.
Proof.
  rewrite !Z.div2_div.
  replace (x - 2 * k) with (x + (- k) * 2) by lia.
  rewrite Z.div_add by lia. lia.
Qed.

(** The square root of a binary64 number is a binary64 number. *)
Lemma sqrt_valid (x : number) : valid x = true -> valid (sqrt x) = true.
Proof.
  intros V. destruct x as [s | s | | s m e]; try reflexivity.
  - destruct s; reflexivity.
  - destruct s; [reflexivity |].
    unfold sqrt, SFsqrt, SFsqrt_core_binary.
    remember (Z.min (fexp prec emax
                       (Z.div2 (Zdigits2 (Zpos m) + e + 1))) (Z.div2 e))
      as e' eqn:Ee'.
    assert (He' : 2 * e' <= e).
    { assert (2 * Z.div2 e <= e).
      { rewrite Z.div2_div.
        pose proof (Z.div_mod e 2 ltac:(lia)).
        pose proof (Z.mod_pos_bound e 2 ltac:(lia)). lia. }
      lia. }
    remember (e - 2 * e') as s eqn:Es.
    assert (Hm' : exists m',
               match s with
               | Zpos _ => Z.shiftl (Zpos m) s
               | Z0 => Zpos m
               | Zneg _ => 0
               end = m' /\ 0 < m' /\ Zdigits2 m' = Zdigits2 (Zpos m) + s).
    { destruct s as [| p | p]; try lia.
      - exists (Zpos m). split; [reflexivity |]. split; lia.
      - exists (Z.shiftl (Zpos m) (Zpos p)). split; [reflexivity |].
        rewrite Z.shiftl_mul_pow2 by lia.
        pose proof (pow2_pos (Zpos p) ltac:(lia)) as Hp.
        split; [lia |].
        pose proof (Zdigits2_bounds (Zpos m) ltac:(lia)) as [B1 B2].
        pose proof (Zdigits2_pos_pos m).
        apply Zdigits2_unique; [lia |].
        replace (Zdigits2 (Zpos m) + Zpos p - 1)
          with (Zdigits2 (Zpos m) - 1 + Zpos p) by lia.
        rewrite (pow2_add (Zdigits2 (Zpos m) - 1)),
          (pow2_add (Zdigits2 (Zpos m))) by lia.
        split; [apply Z.mul_le_mono_nonneg_r; lia
               | apply Z.mul_lt_mono_pos_r; lia]. }
    destruct Hm' as (m' & -> & Hpos & Hdig).
    pose proof (Z.sqrtrem_spec m' ltac:(lia)) as Hs.
    pose proof (Z.sqrtrem_sqrt m') as Hq.
    destruct (Z.sqrtrem m') as [q r]. cbn [fst] in Hq. subst q.
    apply round_valid.
    + apply Z.sqrt_nonneg.
    + rewrite (Zdigits2_sqrt m' Hpos), Hdig, Es.
      replace (Zdigits2 (Zpos m) + (e - 2 * e') + 1)
        with (Zdigits2 (Zpos m) + e + 1 - 2 * e') by lia.
      rewrite div2_shift.
      replace (Z.div2 (Zdigits2 (Zpos m) + e + 1) - e' + e')
        with (Z.div2 (Zdigits2 (Zpos m) + e + 1)) by lia.
      lia.
Qed.

(** X20.  With the default precision, [distanceTo] on two points with
    numeric coordinates always returns a string, for every radius up to
    [2^1000] in magnitude: the central angle is NaN or at most [2 PI], so
    the distance is NaN or finite, and the loops of the formatting end. *)
Theorem distanceTo_returns (M : MathLib)
  (lon1 lat1 R lon2 lat2 R2 : number) :
  BoundedRanges M -> NaNPropagation M -> HostNumbers M ->
  valid lat1 = true -> valid lon1 = true ->
  valid lat2 = true -> valid lon2 = true ->
  within (S754_finite false 4503599627370496 948) R = true ->
  exists s, forall fuel, (400 <= fuel)%nat ->
    distanceTo M fuel (point lon1 lat1 R) (point lon2 lat2 R2) VUndefined
    = Ok s.
Proof.
  intros HR HN HH V1 V2 V3 V4 WR.
  unfold distanceTo, point.
  cbn [typeof String.eqb Ascii.eqb Bool.eqb _lat _lon _radius method_toRad
       bind ToNumber].
  pose proof (sin_valid M HH) as S. pose proof (cos_valid M HH) as C.
  pose proof (toRad_valid lat1 V1) as W1.
  pose proof (toRad_valid lon1 V2) as W2.
  pose proof (toRad_valid lat2 V3) as W3.
  pose proof (toRad_valid lon2 V4) as W4.
  assert (Vt : valid two = true) by reflexivity.
  match goal with
  | |- context [atan2 M (sqrt ?a) _] =>
      assert (Va : valid a = true)
  end.
  { apply add_valid.
    - apply mul_valid; apply S, div_valid; try assumption;
        apply sub_valid; assumption.
    - apply mul_valid; [apply mul_valid; [apply mul_valid |] |];
        try (apply C; assumption);
        apply S, div_valid; try assumption; apply sub_valid; assumption. }
  match goal with
  | |- context [atan2 M ?y ?x] =>
      destruct (atan2_total M HR HN HH y x) as [E | A]
  end.
  - apply sqrt_valid, Va.
  - apply sqrt_valid, sub_valid; [reflexivity | exact Va].
  - rewrite E, !mul_nan_r. exists "NaN"%string. intros fuel _. reflexivity.
  - apply toPrecisionFixed_terminates; [assumption | |].
    + apply mul_valid.
      * apply (within_finite _ _ _ WR).
      * apply mul_valid; [reflexivity |].
        rewrite PI_eq in A. apply (within_finite _ _ _ A).
    + match goal with
      | |- is_finite ?d || _ = true =>
          assert (Wd : within (S754_finite false 4503599627370496 951) d
                       = true)
      end.
      { apply (mul_within 4503599627370496 7074237752028440 4503599627370496
                 948 (-50) 951); try reflexivity; try assumption;
          try by_computation.
        rewrite two_eq. rewrite PI_eq in A.
        apply (mul_within 4503599627370496 7074237752028440 7074237752028440
                 (-51) (-51) (-50)); try reflexivity; try assumption;
          try by_computation. }
      apply within_finite in Wd. destruct Wd as (_ & Fd & _).
      rewrite Fd. reflexivity.
Qed.

Lemma distanceTo_returns_witness :
  exists s, forall fuel, (400 <= fuel)%nat ->
    distanceTo RefMath.lib fuel london moon_point VUndefined = Ok s.
Proof.
  apply (distanceTo_returns RefMath.lib (neg (of_dec 983 (-4)))
           (of_dec 515136 (-4)) earth_radius pzero one (of_Z 1737)
           RefMath_BoundedRanges RefMath_NaNPropagation RefMath_HostNumbers);
    reflexivity.
Defined.

(** X21.  [bearingTo] on two points with numeric coordinates returns NaN or
    a number of [0, 360). *)
Theorem bearingTo_is_NaN_or_in_range (M : MathLib)
  (lon1 lat1 R1 lon2 lat2 R2 : number) :
  BoundedRanges M -> NaNPropagation M -> HostNumbers M ->
  valid lat1 = true -> valid lon1 = true ->
  valid lat2 = true -> valid lon2 = true ->
  exists b,
    bearingTo M (point lon1 lat1 R1) (point lon2 lat2 R2) = Ok b
    /\ (b = NaN \/ (le pzero b = true /\ lt b (of_Z 360) = true)).
Proof.
  intros HR HN HH V1 V2 V3 V4.
  unfold bearingTo, point.
  cbn [_lat _lon method_toRad bind ToNumber].
  eexists. split; [reflexivity |].
  pose proof (toRad_valid lat1 V1) as W1.
  pose proof (toRad_valid lat2 V3) as W2.
  pose proof (toRad_valid _ (sub_valid lon2 lon1 V4 V2)) as W3.
  destruct (bearing_angle_total M HR HN HH (toRad lat1) (toRad lat2)
              (toRad (sub lon2 lon1)) W1 W2 W3) as [E | W].
  - left. rewrite E. reflexivity.
  - right. apply normalise_degrees, toDeg_within, W.
Qed.

Lemma bearingTo_is_NaN_or_in_range_witness :
  exists b,
    bearingTo RefMath.lib far_point origin = Ok b
    /\ (b = NaN \/ (le pzero b = true /\ lt b (of_Z 360) = true)).
Proof.
  apply (bearingTo_is_NaN_or_in_range RefMath.lib pzero (of_dec 1 308)
           earth_radius pzero pzero earth_radius
           RefMath_BoundedRanges RefMath_NaNPropagation RefMath_HostNumbers);
    reflexivity.
Defined.

(** ** The points returned by [intersection] and [rhumbDestinationPoint] *)

(** X22.  [intersection] (numeric coordinates and bearings) returns [null]
    or a point, and [rhumbDestinationPoint] a point, that has two numbers
    for coordinates and the default radius 6371, whatever the radii of the
    points it comes from. *)
Theorem intersection_and_rhumb_results_have_default_radius (M : MathLib)
  (lon1 lat1 R1 lon2 lat2 R2 b1 b2 : number) (dist : value) :
  (intersection M (point lon1 lat1 R1) (VNum b1) (point lon2 lat2 R2)
     (VNum b2) = Ok None
   \/ exists x y,
        intersection M (point lon1 lat1 R1) (VNum b1) (point lon2 lat2 R2)
          (VNum b2) = Ok (Some (point x y earth_radius)))
  /\ (exists x y,
        rhumbDestinationPoint M (point lon1 lat1 R1) (VNum b1) dist
        = Ok (point x y earth_radius)).
Proof.
  split.
  - unfold intersection, point.
    cbn [_lat _lon typeof String.eqb Ascii.eqb Bool.eqb bind method_toRad].
    match goal with
    | |- context [eq ?d pzero] =>
        destruct (eq d pzero); [left; reflexivity |];
        match goal with
        | |- context [path_angles M ?a ?b ?c ?e ?f ?g ?h] =>
            destruct (path_angles M a b c e f g h) as [alpha1 alpha2]
        end
    end.
    destruct (eq (sin M alpha1) pzero && eq (sin M alpha2) pzero);
      [left; reflexivity |].
    destruct (lt (mul (sin M alpha1) (sin M alpha2)) pzero);
      [left; reflexivity |].
    right. rewrite LngLat_new_numbers. eexists. eexists. reflexivity.
  - unfold rhumbDestinationPoint, point.
    cbn [_lat _lon _radius method_toRad bind].
    rewrite LngLat_new_numbers. eexists. eexists. reflexivity.
Qed.

(** * Distances given as strings (C10) *)



























